(** * TypeRunner: the type compiler of [src/checker/compiler.h]

    A shallow embedding of [ts::checker::Program] and [ts::checker::Compiler]
    and the properties of its scope tree, subroutine registry, emitter and
    linker.

    Conventions of the embedding.
    - [unsigned int] is a [Z] reduced modulo 2^32 after every arithmetic step.
    - [vector<unsigned char>] is a [list Z] of bytes.
    - A [Subroutine *] is always taken as [&subroutines.back()] when the
      routine is registered: it is the position of the routine in
      [Program::subroutines], and [nullptr] is [None].  It stays valid until
      the next [push_back] that finds the vector full: that call moves the
      routines to a new allocation, and every pointer taken before it
      dangles.  The program therefore carries the [capacity] of the vector
      and the number [live] of routines registered since the last
      reallocation; dereferencing a pointer to an earlier routine has no
      behaviour.  The capacity a reallocation chooses is the
      implementation's: it is the parameter [grow].
    - [shared<Frame>] chains are nested values: the compiler only ever mutates
      the current frame, and reaches the others through [previous].
    - A thrown [runtime_error] keeps the program as it was at the throw;
      dereferencing [nullptr] or indexing out of range has no behaviour
      ([Undefined]).  *)

From Stdlib Require Import ZArith Lia String Ascii.
From stdpp Require Import base list strings.

#[local] Set Warnings "-register-all".
Local Open Scope Z_scope.

(** ** Machine integers *)

Definition u32 (z : Z) : Z := z mod 2 ^ 32.
Definition u8 (z : Z) : Z := z mod 2 ^ 8.

Definition size {A} (l : list A) : Z := Z.of_nat (length l).

(** ** instructions.h *)

(** Modelled from the spec: [instructions.h] is not among the sources; the
    opcode set is the one listed in section 6 of the specification.  The
    numeric value of each opcode is left open: it is the parameter [opcode]
    of the section below. *)
Module OP.
Inductive t : Set :=
| Boolean | String | Number | True | False
| BigIntLiteral | NumberLiteral | StringLiteral
| Union | Loads | Call | Var | Function | Unknown | Assign
| Frame | Jump | Return.
End OP.

(** ** utils.h *)

(** Modelled from the spec: [utils.h] is not among the sources; section 6
    fixes every multi-byte integer as little-endian and of fixed width. *)
Definition bytesLE (n : nat) (v : Z) : list Z :=
  (fix go (n : nat) (v : Z) : list Z :=
     match n with
     | O => []
     | S n' => v mod 256 :: go n' (v / 256)
     end) n v.

(** Modelled from the spec: writes [bs] over the bytes at [offset]; a write
    at the end of the buffer appends.  The properties below only use writes
    inside the buffer and at its end. *)
Definition writeBytes (bin : list Z) (offset : nat) (bs : list Z) : list Z :=
  take offset bin ++ bs ++ drop (offset + length bs) bin.

(** Modelled from the spec: [writeUint32(bin, offset, value)]. *)
Definition writeUint32 (bin : list Z) (offset : nat) (value : Z) : list Z :=
  writeBytes bin offset (bytesLE 4 value).

(** Modelled from the spec: [writeUint16(bin, offset, value)]. *)
Definition writeUint16 (bin : list Z) (offset : nat) (value : Z) : list Z :=
  writeBytes bin offset (bytesLE 2 value).

(** Modelled from the spec: [readUint32(bin, offset)]; reading past the end
    of the buffer has no behaviour. *)
Definition readUint32 (bin : list Z) (offset : nat) : option Z :=
  match bin !! offset, bin !! (offset + 1)%nat,
        bin !! (offset + 2)%nat, bin !! (offset + 3)%nat with
  | Some b0, Some b1, Some b2, Some b3 =>
      Some (b0 + 256 * b1 + 65536 * b2 + 16777216 * b3)
  | _, _, _, _ => None
  end.

(** The bytes of a [string_view]. *)
Definition bytesOf (s : string) : list Z :=
  map (fun c => Z.of_N (N_of_ascii c)) (list_ascii_of_string s).

(** ** Data model *)

Inductive SymbolType : Set :=
| SymVariable | SymFunction | SymClass | SymType | SymTypeVariable.

Module Subroutine.
Record t : Type := mk {
  ops : list Z;
  identifier : string;
  address : Z;
  pos : Z;
  type : SymbolType
}.
Definition set_ops (r : t) (o : list Z) : t :=
  mk o (identifier r) (address r) (pos r) (type r).
Definition set_address (r : t) (a : Z) : t :=
  mk (ops r) (identifier r) a (pos r) (type r).
End Subroutine.

Module Symbol.
(** [frame] is the id of the owning frame: the only field the compiler
    reads through [symbol.frame]. *)
Record t : Type := mk {
  name : string;
  type : SymbolType;
  index : Z;
  pos : Z;
  declarations : Z;
  routine : option nat;
  frame : Z
}.
Definition set_declarations (s : t) (d : Z) : t :=
  mk (name s) (type s) (index s) (pos s) d (routine s) (frame s).
Definition set_routine (s : t) (r : option nat) : t :=
  mk (name s) (type s) (index s) (pos s) (declarations s) r (frame s).
End Symbol.

Module Frame.
Inductive t : Type := mk {
  previous : option t;
  id : Z;
  symbols : list Symbol.t
}.
Definition set_symbols (f : t) (l : list Symbol.t) : t :=
  mk (previous f) (id f) l.
(** [Frame() = default] *)
Definition root : t := mk None 0 [].
End Frame.

Record Program : Type := mkProgram {
  ops : list Z;
  storage : list string;
  storageIndex : Z;
  frame : Frame.t;
  activeSubroutines : list nat;
  subroutines : list Subroutine.t;
  (** [subroutines.capacity()] *)
  capacity : nat;
  (** how many routines, counted from the back of [subroutines], were
      registered since the vector was last reallocated: the pointers to
      these are valid *)
  live : nat
}.

Definition set_ops (p : Program) (o : list Z) : Program :=
  mkProgram o (storage p) (storageIndex p) (frame p)
            (activeSubroutines p) (subroutines p) (capacity p) (live p).
Definition set_frame (p : Program) (f : Frame.t) : Program :=
  mkProgram (ops p) (storage p) (storageIndex p) f
            (activeSubroutines p) (subroutines p) (capacity p) (live p).
Definition set_activeSubroutines (p : Program) (a : list nat) : Program :=
  mkProgram (ops p) (storage p) (storageIndex p) (frame p) a (subroutines p)
            (capacity p) (live p).
(** An assignment to elements of [subroutines]: the allocation stays. *)
Definition set_subroutines (p : Program) (s : list Subroutine.t) : Program :=
  mkProgram (ops p) (storage p) (storageIndex p) (frame p)
            (activeSubroutines p) s (capacity p) (live p).
Definition set_storage (p : Program) (s : list string) (i : Z) : Program :=
  mkProgram (ops p) s i (frame p) (activeSubroutines p) (subroutines p)
            (capacity p) (live p).
(** [subroutines] after a [push_back]: the elements, the capacity and the
    number of routines whose pointers are valid. *)
Definition set_vector (p : Program) (s : list Subroutine.t) (c n : nat)
  : Program :=
  mkProgram (ops p) (storage p) (storageIndex p) (frame p)
            (activeSubroutines p) s c n.

(** [Program program;] *)
Definition emptyProgram : Program := mkProgram [] [] 0 Frame.root [] [] 0 0.

(** ** Outcomes of a method call *)

Inductive error : Set :=
| UnknownRoutine     (* "no symbol found for {}" *)
| NoActiveRoutine    (* "No active subroutine found" *)
| EmptyRoutine       (* "Routine is empty" *)
| UnresolvedSymbol.  (* "No symbol for {} found" *)

Inductive outcome (A : Type) : Type :=
| Ok (a : A) (p : Program)
| Throw (e : error) (p : Program)
| Undefined
| OutOfFuel.
Arguments Ok {A} a p.
Arguments Throw {A} e p.
Arguments Undefined {A}.
Arguments OutOfFuel {A}.

Definition M (A : Type) : Type := Program -> outcome A.

Definition ret {A} (a : A) : M A := fun p => Ok a p.
Definition bind {A B} (m : M A) (k : A -> M B) : M B :=
  fun p =>
    match m p with
    | Ok a p' => k a p'
    | Throw e p' => Throw e p'
    | Undefined => Undefined
    | OutOfFuel => OutOfFuel
    end.
Definition throw {A} (e : error) : M A := fun p => Throw e p.
Definition modify (f : Program -> Program) : M unit := fun p => Ok tt (f p).

Notation "x <- m ;; k" := (bind m (fun x => k))
  (at level 100, m at next level, right associativity).
Notation "m ;;; k" := (bind m (fun _ => k))
  (at level 100, right associativity).

(** Runs [body] for each element, in order. *)
Fixpoint forEach {A} (l : list A) (body : A -> M unit) : M unit :=
  match l with
  | [] => ret tt
  | x :: l' => body x ;;; forEach l' body
  end.

(** ** types.h *)

(** Modelled from the spec: [types.h] is not among the sources; a node
    carries its kind and the children that [Compiler::handle] reads (section
    4.5).  [OtherKind] stands for every kind without a case. *)
Inductive Node : Type :=
| SourceFile (statements : list Node)
| BooleanKeyword
| StringKeyword
| NumberKeyword
| BigIntLiteral (text : string)
| NumericLiteral (text : string)
| StringLiteral (text : string)
| TrueKeyword
| FalseKeyword
| UnionType (types : list Node)
| TypeReference (typeName : string)
| TypeAliasDeclaration (name : string) (pos : Z)
    (typeParameters : option (list Node)) (type : Node)
| FunctionDeclaration (name : option (string * Z)) (parameters : list Node)
    (type : option Node) (body : option Node)
| VariableStatement (declarations : list Node)
| VariableDeclaration (name : option (string * Z)) (type : option Node)
    (initializer : option Node)
| OtherKind.

(** [s.name == name] *)
Definition named (name : string) (s : Symbol.t) : Prop := Symbol.name s = name.

#[global] Instance named_dec name s : Decision (named name s).
Proof. unfold named. apply _. Defined.

(** ** class Program *)

Section Compiler.

(** The value of each enumerator of [instructions::OP]. *)
Variable opcode : OP.t -> Z.

(** The capacity [std::vector] gives a full vector of capacity [c] that
    grows by one element: the choice of the implementation. *)
Variable grow : nat -> nat.

(** [subroutines[r]] *)
Definition lookupRoutine (r : nat) : M Subroutine.t :=
  fun p =>
    match subroutines p !! r with
    | Some routine => Ok routine p
    | None => Undefined
    end.

(** The pointer taken when routine [r] was registered still points into the
    allocation of [subroutines]: [r] is among the last [live] routines. *)
Definition valid (p : Program) (r : nat) : bool :=
  (length (subroutines p) <=? r + live p)%nat.

(** [*routine] for the pointer taken when routine [r] was registered
    ([symbol.routine->...], [activeSubroutines.back()->...]); a dangling
    pointer has no behaviour. *)
Definition deref (r : nat) : M Subroutine.t :=
  fun p => if valid p r then lookupRoutine r p else Undefined.

(** [subroutines.push_back(routine)]: a full vector is reallocated, so that
    only the pointer to the new routine is valid; otherwise the new routine
    joins the routines whose pointers are valid. *)
Definition pushed (routine : Subroutine.t) (p : Program) : Program :=
  if (capacity p <=? length (subroutines p))%nat
  then set_vector p (subroutines p ++ [routine]) (grow (capacity p)) 1
  else set_vector p (subroutines p ++ [routine]) (capacity p) (S (live p)).

Definition push_back (routine : Subroutine.t) : M unit :=
  modify (pushed routine).

(** [getOPs()]: the buffer of the routine at the back of
    [activeSubroutines], the main buffer when none is active. *)
Definition getOPs : M (list Z) :=
  fun p =>
    match last (activeSubroutines p) with
    | Some r => (routine <- deref r ;; ret (Subroutine.ops routine)) p
    | None => Ok (ops p) p
    end.

(** Assignment through the reference [getOPs()] returned. *)
Definition setOPs (o : list Z) : M unit :=
  fun p =>
    match last (activeSubroutines p) with
    | Some r =>
        Ok tt (set_subroutines p
                 (alter (fun routine => Subroutine.set_ops routine o) r
                        (subroutines p)))
    | None => Ok tt (set_ops p o)
    end.

Definition pushOp (op : OP.t) (params : list Z) : M unit :=
  o <- getOPs ;;
  setOPs (o ++ [u8 (opcode op)] ++ map u8 params).

Definition pushFrame (implicit : bool) : M Frame.t :=
  (if implicit then ret tt else pushOp OP.Frame []) ;;;
  fun p =>
    let id := Frame.id (frame p) in
    let f := Frame.mk (Some (frame p)) (u32 (id + 1)) [] in
    Ok f (set_frame p f).

Definition popFrameImplicit : M unit :=
  fun p =>
    match Frame.previous (frame p) with
    | Some f => Ok tt (set_frame p f)
    | None => Ok tt p
    end.

Definition pushSubroutine (name : string) : M Z :=
  fun p =>
    match list_find (named name) (Frame.symbols (frame p)) with
    | Some (_, s) =>
        (pushFrame true ;;;
         match Symbol.routine s with
         | Some r =>
             modify (fun p => set_activeSubroutines p
                                (activeSubroutines p ++ [r])) ;;;
             routine <- deref r ;;
             ret (Subroutine.address routine)
         | None => fun _ => Undefined
         end) p
    | None => Throw UnknownRoutine p
    end.

Definition popSubroutine : M unit :=
  fun p =>
    match last (activeSubroutines p) with
    | None => Throw NoActiveRoutine p
    | Some r =>
        (popFrameImplicit ;;;
         subroutine <- deref r ;;
         match Subroutine.ops subroutine with
         | [] => throw EmptyRoutine
         | _ :: _ =>
             modify (fun p =>
               set_subroutines p
                 (alter (fun routine =>
                           Subroutine.set_ops routine
                             (Subroutine.ops routine
                              ++ [u8 (opcode OP.Return)]))
                        r (subroutines p))) ;;;
             modify (fun p => set_activeSubroutines p
                                (removelast (activeSubroutines p)))
         end) p
    end.

Fixpoint findInChain (identifier : string) (current : Frame.t)
  : option Symbol.t :=
  match list_find (named identifier) (Frame.symbols current) with
  | Some (_, s) => Some s
  | None =>
      match Frame.previous current with
      | Some f => findInChain identifier f
      | None => None
      end
  end.

Definition findSymbol (identifier : string) : M Symbol.t :=
  fun p =>
    match findInChain identifier (frame p) with
    | Some s => Ok s p
    | None => Throw UnresolvedSymbol p
    end.

Definition pushAddress (address : Z) : M unit :=
  o <- getOPs ;;
  setOPs (writeUint32 o (length o) address).

Definition pushSymbolAddress (symbol : Symbol.t) : M unit :=
  o <- getOPs ;;
  let o1 := writeUint32 o (length o) (Symbol.frame symbol) in
  setOPs (writeUint32 o1 (length o1) (Symbol.index symbol)).

Definition setSymbols (l : list Symbol.t) : M unit :=
  modify (fun p => set_frame p (Frame.set_symbols (frame p) l)).

(** [pushSymbol(name, type, pos)], with [frameToUse] left at its default as
    at every call site.  The result is the slot of the returned reference in
    the current frame.  The initialiser of a new symbol names [frame], [name],
    [pos] and [index] only, so its [type] is value-initialised to the first
    enumerator whatever the argument, [declarations] is 1 and [routine] is
    [nullptr]. *)
Definition pushSymbol (name : string) (type : SymbolType) (pos : Z) : M nat :=
  fun p =>
    let symbols := Frame.symbols (frame p) in
    match list_find (named name) symbols with
    | Some (i, v) =>
        (setSymbols
           (<[i := Symbol.set_declarations v (u32 (Symbol.declarations v + 1))]>
              symbols) ;;;
         ret i) p
    | None =>
        (setSymbols
           (symbols ++
              [Symbol.mk name SymVariable (u32 (size symbols)) pos 1 None
                         (Frame.id (frame p))]) ;;;
         ret (length symbols)) p
    end.

Definition getSymbol (i : nat) : M Symbol.t :=
  fun p =>
    match Frame.symbols (frame p) !! i with
    | Some s => Ok s p
    | None => Undefined
    end.

Definition pushSymbolForRoutine (name : string) (type : SymbolType) (pos : Z)
  : M Symbol.t :=
  i <- pushSymbol name type pos ;;
  symbol <- getSymbol i ;;
  match Symbol.routine symbol with
  | Some _ => ret symbol
  | None =>
      fun p =>
        let routine :=
          Subroutine.mk [] name (u32 (size (subroutines p))) pos type in
        let symbol' :=
          Symbol.set_routine symbol (Some (length (subroutines p))) in
        (push_back routine ;;;
         modify (fun p =>
           set_frame p (Frame.set_symbols (frame p)
                          (<[i := symbol']> (Frame.symbols (frame p))))) ;;;
         ret symbol') p
  end.

Definition registerStorage (s : string) : M Z :=
  fun p =>
    let index := if storageIndex p =? 0 then 5 else storageIndex p in
    let address := index in
    Ok address
       (set_storage p (storage p ++ [s])
                    (u32 (index + (2 + Z.of_nat (String.length s))))).

Definition pushStorage (s : string) : M unit :=
  address <- registerStorage s ;;
  pushAddress address.

(** *** The linker *)

(** The buffer a [vector<unsigned char> &] refers to: the main buffer
    ([None]) or the buffer of a registered routine. *)
Definition readBuffer (target : option nat) : M (list Z) :=
  match target with
  | None => fun p => Ok (ops p) p
  | Some k => routine <- lookupRoutine k ;; ret (Subroutine.ops routine)
  end.

Definition writeBuffer (target : option nat) (o : list Z) : M unit :=
  match target with
  | None => modify (fun p => set_ops p o)
  | Some k =>
      modify (fun p =>
        set_subroutines p
          (alter (fun routine => Subroutine.set_ops routine o) k
                 (subroutines p)))
  end.

Definition isOp (b : Z) (op : OP.t) : bool := b =? opcode op.

(** The loop of [setFinalBinaryAddress], from index [i]; every iteration
    advances [i], so [end_ - i + 1] iterations are enough. *)
Fixpoint patchFrom (fuel : nat) (target : option nat) (end_ i : nat)
  : M unit :=
  match fuel with
  | O => fun _ => OutOfFuel
  | S fuel' =>
      if (i <? end_)%nat then
        o <- readBuffer target ;;
        match o !! i with
        | None => fun _ => Undefined
        | Some op =>
            if isOp op OP.Call then
              match readUint32 o (i + 1) with
              | None => fun _ => Undefined
              | Some index =>
                  routine <- lookupRoutine (Z.to_nat index) ;;
                  writeBuffer target
                    (writeUint32 o (i + 1) (Subroutine.address routine)) ;;;
                  patchFrom fuel' target end_ (i + 4 + 1)
              end
            else if isOp op OP.Loads || isOp op OP.NumberLiteral
                    || isOp op OP.BigIntLiteral || isOp op OP.StringLiteral
            then patchFrom fuel' target end_ (i + 4 + 1)
            else patchFrom fuel' target end_ (i + 1)
        end
      else ret tt
  end.

Definition setFinalBinaryAddress (target : option nat) : M unit :=
  o <- readBuffer target ;;
  patchFrom (S (length o)) target (length o) 0.

Fixpoint storeItems (items : list string) (bin : list Z) (address : Z)
  : list Z * Z :=
  match items with
  | [] => (bin, address)
  | item :: rest =>
      let n := Z.of_nat (String.length item) in
      let bin1 := writeUint16 bin (Z.to_nat address) n in
      storeItems rest (bin1 ++ bytesOf item) (u32 (address + (2 + n)))
  end.

Fixpoint assignAddresses (routines : list Subroutine.t) (routineAddress : Z)
  : list Subroutine.t :=
  match routines with
  | [] => []
  | routine :: rest =>
      Subroutine.set_address routine routineAddress
      :: assignAddresses rest
           (u32 (routineAddress + size (Subroutine.ops routine)))
  end.

Fixpoint appendRoutines (routines : list Subroutine.t) (bin : list Z)
  (address : Z) : list Z * Z :=
  match routines with
  | [] => (bin, address)
  | routine :: rest =>
      appendRoutines rest (bin ++ Subroutine.ops routine)
        (u32 (address + size (Subroutine.ops routine)))
  end.

(** The first statement of [build]: the [Jump] and the room for its target,
    only if there is storage or a routine; with the value of [address]. *)
Definition buildHeader (p : Program) : list Z * Z :=
  match storage p, subroutines p with
  | [], [] => ([], 0)
  | _, _ => (writeUint32 [u8 (opcode OP.Jump)] 1 0, 5)
  end.

Definition build : M (list Z) :=
  fun p =>
    let '(bin0, address0) := buildHeader p in
    let '(bin1, address1) := storeItems (storage p) bin0 address0 in
    (modify (fun p =>
       set_subroutines p (assignAddresses (subroutines p) address1)) ;;;
     setFinalBinaryAddress None ;;;
     forEach (seq 0 (length (subroutines p)))
       (fun k => setFinalBinaryAddress (Some k)) ;;;
     fun p' =>
       let '(bin2, address2) :=
         appendRoutines (subroutines p') bin1 address1 in
       let bin3 := writeUint32 bin2 1 address2 in
       Ok (bin3 ++ ops p') p') p.

(** ** class Compiler *)

Definition whenSome {A} (o : option A) (body : A -> M unit) : M unit :=
  match o with
  | Some a => body a
  | None => ret tt
  end.

(** [Compiler::handle].  The recursion is not structural (a function
    declaration hands itself to [handle] once per parameter), so it is
    bounded by [fuel]. *)
Fixpoint handle (fuel : nat) (node : Node) : M unit :=
  match fuel with
  | O => fun _ => OutOfFuel
  | S fuel' =>
      match node with
      | SourceFile statements => forEach statements (handle fuel')
      | BooleanKeyword => pushOp OP.Boolean []
      | StringKeyword => pushOp OP.String []
      | NumberKeyword => pushOp OP.Number []
      | BigIntLiteral text => pushOp OP.BigIntLiteral [] ;;; pushStorage text
      | NumericLiteral text => pushOp OP.NumberLiteral [] ;;; pushStorage text
      | StringLiteral text => pushOp OP.StringLiteral [] ;;; pushStorage text
      | TrueKeyword => pushOp OP.True []
      | FalseKeyword => pushOp OP.False []
      | UnionType types =>
          pushFrame false ;;;
          forEach types (handle fuel') ;;;
          pushOp OP.Union [] ;;;
          popFrameImplicit
      | TypeReference name =>
          symbol <- findSymbol name ;;
          match Symbol.type symbol with
          | SymTypeVariable =>
              pushOp OP.Loads [] ;;;
              pushSymbolAddress symbol
          | _ =>
              pushOp OP.Call [] ;;;
              match Symbol.routine symbol with
              | Some r =>
                  routine <- deref r ;;
                  pushAddress (Subroutine.address routine)
              | None => fun _ => Undefined
              end
          end
      | TypeAliasDeclaration name pos typeParameters type =>
          symbol <- pushSymbolForRoutine name SymType pos ;;
          if Symbol.declarations symbol >? 1 then ret tt
          else
            pushSubroutine name ;;;
            whenSome typeParameters (fun l =>
              forEach l (fun _ =>
                pushSymbol name SymTypeVariable pos ;;;
                pushOp OP.Var [])) ;;;
            handle fuel' type ;;;
            popSubroutine
      | FunctionDeclaration name parameters type body =>
          whenSome name (fun '(id, idpos) =>
            symbol <- pushSymbolForRoutine id SymFunction idpos ;;
            if Symbol.declarations symbol >? 1 then ret tt
            else
              pushSubroutine id ;;;
              forEach parameters (fun _ => handle fuel' node) ;;;
              match type with
              | Some t => handle fuel' t
              | None => pushOp OP.Unknown []
              end ;;;
              pushOp OP.Function [] ;;;
              popSubroutine)
      | VariableStatement declarations => forEach declarations (handle fuel')
      | VariableDeclaration name type initializer =>
          whenSome name (fun '(id, idpos) =>
            symbol <- pushSymbolForRoutine id SymVariable idpos ;;
            if Symbol.declarations symbol >? 1 then ret tt
            else
              subroutineIndex <- pushSubroutine id ;;
              match type with
              | Some t => handle fuel' t
              | None => pushOp OP.Unknown []
              end ;;;
              popSubroutine ;;;
              whenSome initializer (fun e =>
                handle fuel' e ;;;
                pushOp OP.Call [] ;;;
                pushAddress subroutineIndex ;;;
                pushOp OP.Assign []))
      | OtherKind => ret tt
      end
  end.

Definition compileSourceFile (fuel : nat) (file : Node) : outcome unit :=
  handle fuel file emptyProgram.

End Compiler.

(** An opcode table for the worked examples: the enumerators numbered in the
    order of the specification's list, from 1. *)
Definition sampleCode (op : OP.t) : Z :=
  match op with
  | OP.Boolean => 1 | OP.String => 2 | OP.Number => 3 | OP.True => 4
  | OP.False => 5 | OP.BigIntLiteral => 6 | OP.NumberLiteral => 7
  | OP.StringLiteral => 8 | OP.Union => 9 | OP.Loads => 10 | OP.Call => 11
  | OP.Var => 12 | OP.Function => 13 | OP.Unknown => 14 | OP.Assign => 15
  | OP.Frame => 16 | OP.Jump => 17 | OP.Return => 18
  end.

(** A growth policy for the worked examples: the capacity doubles, from 0 to
    1 (libstdc++ and libc++). *)
Definition doubling (c : nat) : nat :=
  match c with
  | O => 1
  | _ => 2 * c
  end.

(** ** Vocabulary of the properties *)

(** The frames reachable from [f]: [f] itself, then its ancestors. *)
Fixpoint chain (f : Frame.t) : list Frame.t :=
  f :: match Frame.previous f with
       | Some f' => chain f'
       | None => []
       end.

Definition declares (name : string) (f : Frame.t) : Prop :=
  Exists (named name) (Frame.symbols f).

(** The frame [popFrameImplicit] makes current. *)
Definition parentOrSelf (f : Frame.t) : Frame.t :=
  match Frame.previous f with
  | Some f' => f'
  | None => f
  end.

(** The program after [bs] is appended to the buffer [getOPs()] selects. *)
Definition emitted (p : Program) (bs : list Z) : Program :=
  match last (activeSubroutines p) with
  | Some r =>
      set_subroutines p
        (alter (fun routine =>
                  Subroutine.set_ops routine (Subroutine.ops routine ++ bs))
               r (subroutines p))
  | None => set_ops p (ops p ++ bs)
  end.

(** [getOPs()] is defined: the pointer at the back of the active stack, if
    any, is the pointer to a registered routine and is valid. *)
Definition targetValid (p : Program) : Prop :=
  match last (activeSubroutines p) with
  | Some r =>
      (r < length (subroutines p))%nat
      /\ (length (subroutines p) <= r + live p)%nat
  | None => True%type
  end.

(** *** States of the program *)

(** The storage after [registerStorage(s)]. *)
Definition stored (p : Program) (s : string) : Program :=
  set_storage p (storage p ++ [s])
    (u32 ((if storageIndex p =? 0 then 5 else storageIndex p)
          + (2 + Z.of_nat (String.length s)))).

(** The symbol [pushSymbol] appends for a name the frame does not declare. *)
Definition freshSymbol (f : Frame.t) (name : string) (pos : Z) : Symbol.t :=
  Symbol.mk name SymVariable (u32 (size (Frame.symbols f))) pos 1 None
            (Frame.id f).

Definition redeclared (v : Symbol.t) : Symbol.t :=
  Symbol.set_declarations v (u32 (Symbol.declarations v + 1)).

(** The routine [pushSymbolForRoutine] registers. *)
Definition freshRoutine (p : Program) (name : string) (type : SymbolType)
  (pos : Z) : Subroutine.t :=
  Subroutine.mk [] name (u32 (size (subroutines p))) pos type.

(** [handle] leaves the scope as it found it: same parent, same id, same
    active routines. *)
Record sameScope (p p' : Program) : Prop := {
  scope_previous : Frame.previous (frame p') = Frame.previous (frame p);
  scope_id : Frame.id (frame p') = Frame.id (frame p);
  scope_active : activeSubroutines p' = activeSubroutines p
}.

(** Every frame of the chain has an id above its parent's. *)
Fixpoint idsAscend (f : Frame.t) : Prop :=
  match Frame.previous f with
  | Some f' => Frame.id f' < Frame.id f /\ idsAscend f'
  | None => True%type
  end.

(** *** Instruction streams *)

(** The instructions [Compiler::handle] emits: an opcode alone, a [Call] with
    the registry index of its routine, or a literal opcode with the offset of
    its payload. *)
Inductive instr : Type :=
| Plain (op : OP.t)
| CallTo (index : Z)
| Literal (op : OP.t) (offset : Z).

Definition plainOp (op : OP.t) : bool :=
  match op with
  | OP.Call | OP.Loads | OP.NumberLiteral | OP.BigIntLiteral
  | OP.StringLiteral => false
  | _ => true
  end.

Definition literalOp (op : OP.t) : bool :=
  match op with
  | OP.NumberLiteral | OP.BigIntLiteral | OP.StringLiteral => true
  | _ => false
  end.

(** An instruction that may stand in a program with [n] routines. *)
Definition validInstr (n : nat) (i : instr) : Prop :=
  match i with
  | Plain op => plainOp op = true
  | CallTo index => 0 <= index < Z.of_nat n
  | Literal op _ => literalOp op = true
  end.

(** A symbol as the compiler creates them: never a type variable, and with
    a registered routine if it has one. *)
Definition validSymbol (n : nat) (s : Symbol.t) : Prop :=
  Symbol.type s = SymVariable
  /\ forall r, Symbol.routine s = Some r -> (r < n)%nat.

(** The storage pool as [build] lays it out. *)
Definition poolBytes (items : list string) : list Z :=
  flat_map (fun item =>
              bytesLE 2 (Z.of_nat (String.length item)) ++ bytesOf item)
           items.

Section Streams.

Variable opcode : OP.t -> Z.

Definition assemble1 (i : instr) : list Z :=
  match i with
  | Plain op => [u8 (opcode op)]
  | CallTo index => u8 (opcode OP.Call) :: bytesLE 4 index
  | Literal op offset => u8 (opcode op) :: bytesLE 4 offset
  end.

Definition assemble (l : list instr) : list Z := flat_map assemble1 l.

Definition streamOf (n : nat) (o : list Z) : Prop :=
  exists l, o = assemble l /\ Forall (validInstr n) l.

(** The invariant of a compilation. *)
Record wf (p : Program) : Prop := {
  wf_main : streamOf (length (subroutines p)) (ops p);
  wf_routines :
    forall k routine, subroutines p !! k = Some routine ->
      streamOf (length (subroutines p)) (Subroutine.ops routine)
      /\ Subroutine.address routine = u32 (Z.of_nat k);
  wf_active :
    Forall (fun r => (r < length (subroutines p))%nat) (activeSubroutines p);
  wf_frames :
    Forall (fun f => Forall (validSymbol (length (subroutines p)))
                            (Frame.symbols f))
           (chain (frame p))
}.

(** [Call] operands replaced by the address [start] gives their routine. *)
Definition relocate (start : nat -> Z) (i : instr) : instr :=
  match i with
  | CallTo index => CallTo (start (Z.to_nat index))
  | _ => i
  end.

(** The program after a successful [popSubroutine()] that closes routine
    [r]. *)
Definition returned (p : Program) (r : nat) : Program :=
  set_activeSubroutines
    (set_subroutines (set_frame p (parentOrSelf (frame p)))
       (alter (fun routine =>
                 Subroutine.set_ops routine
                   (Subroutine.ops routine ++ [u8 (opcode OP.Return)]))
              r (subroutines p)))
    (removelast (activeSubroutines p)).

(** The invariant, together with a lower bound on the size of the registry,
    which never shrinks. *)
Definition wfFrom (n0 : nat) (p : Program) : Prop :=
  wf p /\ (n0 <= length (subroutines p))%nat.

End Streams.

(** *** The linker *)

(** The opcode table is usable: every enumerator fits a byte and no two
    share a value. *)
Definition codesOk (opcode : OP.t -> Z) : Prop :=
  (forall op, 0 <= opcode op < 256)
  /\ (forall a b, opcode a = opcode b -> a = b).

(** The program after the buffer [target] refers to is overwritten. *)
Definition withBuffer (target : option nat) (p : Program) (o : list Z)
  : Program :=
  match target with
  | None => set_ops p o
  | Some k =>
      set_subroutines p
        (alter (fun routine => Subroutine.set_ops routine o) k (subroutines p))
  end.

(** The address the registry holds for routine [k]. *)
Definition addressOf (p : Program) (k : nat) : Z :=
  match subroutines p !! k with
  | Some routine => Subroutine.address routine
  | None => 0
  end.

(** Where the main program starts in the binary of a program with storage or
    routines: after the 5-byte header, the pool and the routines. *)
Definition mainOffset (p : Program) : nat :=
  5 + length (poolBytes (storage p))
  + length (concat (map Subroutine.ops (subroutines p))).

(** ** Programs of the worked examples *)

Definition stateOf {A} (o : outcome A) : Program :=
  match o with
  | Ok _ p => p
  | Throw _ p => p
  | _ => emptyProgram
  end.



(** [var v = 1; type S = string; type A = number | A | 12; type B = A;]:
    with [doubling], the routines of [A] and [B] are the third and the fourth
    of the registry and share an allocation. *)
Definition linkedUnit : Node :=
  SourceFile
    [VariableStatement
       [VariableDeclaration (Some ("v"%string, 4)) None
          (Some (NumericLiteral "1"))];
     TypeAliasDeclaration "S" 11 None StringKeyword;
     TypeAliasDeclaration "A" 28 None
       (UnionType [NumberKeyword; TypeReference "A"; NumericLiteral "12"]);
     TypeAliasDeclaration "B" 56 None (TypeReference "A")].

Definition linkedProgram : Program :=
  Eval vm_compute in stateOf (compileSourceFile sampleCode doubling 5 linkedUnit).

(** [type A = number], compiled once. *)
Definition aliasDeclared : Program :=
  Eval vm_compute in
    stateOf (handle sampleCode doubling 2 (TypeAliasDeclaration "A" 0 None NumberKeyword)
               emptyProgram).

(** Inside the routine of [A], before anything is emitted. *)
Definition enteredA : Program :=
  Eval vm_compute in
    stateOf ((pushSymbolForRoutine doubling "A" SymType 0 ;;;
              pushSubroutine sampleCode "A") emptyProgram).

(** A frame with twelve symbols; the last has slot index 11, the value of
    [Call] in [sampleCode]. *)
Definition twelveSymbols : Program :=
  Eval vm_compute in
    stateOf (forEach ["a"; "b"; "c"; "d"; "e"; "f"; "g"; "h"; "i"; "j"; "k";
                      "l"]%string
               (fun name => pushSymbol name SymTypeVariable 0 ;;; ret tt)
               emptyProgram).

Definition twelfthSymbol : Symbol.t :=
  Symbol.mk "l" SymVariable 11 0 1 None 0.

(** ** Further vocabulary *)

(** [findStorage(index)]: the loop over [storage], with the running offset
    [i]; "!unknown" when no entry starts at [index]. *)
Fixpoint findStorageFrom (items : list string) (i index : Z) : string :=
  match items with
  | [] => "!unknown"
  | s :: rest =>
      if i =? index then s
      else findStorageFrom rest (u32 (i + (2 + Z.of_nat (String.length s))))
             index
  end.

Definition findStorage (index : Z) (p : Program) : string :=
  findStorageFrom (storage p) 5 index.

(** The offset [build] gives the entry number [k] of the pool. *)
Definition entryStart (items : list string) (k : nat) : Z :=
  5 + Z.of_nat (length (poolBytes (take k items))).

(** [storageIndex] is where the next entry goes: 5 plus the size of the pool
    (0 stands for 5 as long as nothing was registered). *)
Definition storageOk (p : Program) : Prop :=
  (if storageIndex p =? 0 then 5 else storageIndex p)
  = 5 + Z.of_nat (length (poolBytes (storage p))).

(** The frame [pushFrame] creates under [f]. *)
Definition childOf (f : Frame.t) : Frame.t :=
  Frame.mk (Some f) (u32 (Frame.id f + 1)) [].

(** A symbol table as [pushSymbol] keeps it: no name twice, every symbol in
    the slot its [index] says, owned by this frame. *)
Definition frameOk (f : Frame.t) : Prop :=
  NoDup (map Symbol.name (Frame.symbols f))
  /\ forall i s, Frame.symbols f !! i = Some s ->
       Symbol.index s = u32 (Z.of_nat i) /\ Symbol.frame s = Frame.id f.

(** The program after [pushSymbolForRoutine] declared a name its frame did
    not hold: the symbol is appended with the new routine, the routine comes
    last in the registry. *)
Definition registered (grow : nat -> nat) (p : Program) (name : string)
  (type : SymbolType) (pos : Z) : Program :=
  set_frame
    (pushed grow (freshRoutine p name type pos) p)
    (Frame.set_symbols (frame p)
       (Frame.symbols (frame p)
        ++ [Symbol.set_routine (freshSymbol (frame p) name pos)
              (Some (length (subroutines p)))])).

(** The program after [pushSubroutine] made routine [r] active. *)
Definition entered (p : Program) (r : nat) : Program :=
  set_activeSubroutines (set_frame p (childOf (frame p)))
    (activeSubroutines p ++ [r]).

(** What the registry records of a routine besides its buffer. *)
Definition routineKey (routine : Subroutine.t)
  : string * Z * Z * SymbolType :=
  (Subroutine.identifier routine, Subroutine.address routine,
   Subroutine.pos routine, Subroutine.type routine).

(** [p'] holds everything [p] holds: the buffers, the pool and the registry
    of [p'] are those of [p] with something appended. *)
Record extends (p p' : Program) : Prop := {
  ext_main : exists bs, ops p' = ops p ++ bs;
  ext_storage : exists l, storage p' = storage p ++ l;
  ext_registry :
    exists l, map routineKey (subroutines p')
              = map routineKey (subroutines p) ++ l;
  ext_routines :
    forall k routine, subroutines p !! k = Some routine ->
      exists routine' bs,
        subroutines p' !! k = Some routine'
        /\ Subroutine.ops routine' = Subroutine.ops routine ++ bs
}.

(** The program after a name its frame did not hold is declared, its routine
    is filled with [body] and closed: the routine, ended by [Return], comes
    last in the registry and the symbol that points to it last in the
    frame. *)
Definition declared (opcode : OP.t -> Z) (grow : nat -> nat) (p : Program)
  (name : string) (type : SymbolType) (pos : Z) (body : list Z) : Program :=
  set_frame
    (pushed grow
       (Subroutine.mk (body ++ [u8 (opcode OP.Return)]) name
          (u32 (size (subroutines p))) pos type) p)
    (Frame.set_symbols (frame p)
       (Frame.symbols (frame p)
        ++ [Symbol.set_routine (freshSymbol (frame p) name pos)
              (Some (length (subroutines p)))])).

(** How deep [handle] descends into a node: the children it compiles are
    the statements of a source file or of a variable statement, the members
    of a union, the type of an alias, the return type of a function and the
    type and the initializer of a variable. *)
Fixpoint depth (node : Node) : nat :=
  match node with
  | SourceFile l | UnionType l | VariableStatement l =>
      S (list_max (map depth l))
  | TypeAliasDeclaration _ _ _ type => S (depth type)
  | FunctionDeclaration _ _ type _ =>
      S (match type with Some t => depth t | None => 0 end)
  | VariableDeclaration _ type initializer =>
      S (Nat.max (match type with Some t => depth t | None => 0 end)
                 (match initializer with Some e => depth e | None => 0 end))
  | _ => 0
  end.

(** No function declaration among the nodes [handle] compiles has a
    parameter. *)
Fixpoint parameterless (node : Node) : bool :=
  match node with
  | SourceFile l | UnionType l | VariableStatement l =>
      forallb parameterless l
  | TypeAliasDeclaration _ _ _ type => parameterless type
  | FunctionDeclaration _ parameters type _ =>
      match parameters with
      | [] => match type with Some t => parameterless t | None => true end
      | _ :: _ => false
      end
  | VariableDeclaration _ type initializer =>
      match type with Some t => parameterless t | None => true end
      && match initializer with Some e => parameterless e | None => true end
  | _ => true
  end.

(** [r'] is the result [r] when [r] is one: what more fuel may change. *)
Definition settledAs {A} (r r' : outcome A) : Prop :=
  r = OutOfFuel \/ r = r'.

(** ** Further worked examples *)

(** [type A = "ab" | 7;] *)
Definition literalUnit : Node :=
  SourceFile
    [TypeAliasDeclaration "A" 0 None
       (UnionType [StringLiteral "ab"; NumericLiteral "7"])].

Definition literalProgram : Program :=
  Eval vm_compute in stateOf (compileSourceFile sampleCode doubling 5 literalUnit).

(** [linkedProgram] after the patching pass went over its main buffer. *)
Definition linkedMainPatched : Program :=
  Eval vm_compute in stateOf (setFinalBinaryAddress sampleCode None linkedProgram).




(** [type P = number; type Q = string; type A = boolean;]: with [doubling],
    the third registration leaves room for a fourth routine. *)
Definition threeAliases : Program :=
  Eval vm_compute in
    stateOf (compileSourceFile sampleCode doubling 3
               (SourceFile
                  [TypeAliasDeclaration "P" 0 None NumberKeyword;
                   TypeAliasDeclaration "Q" 17 None StringKeyword;
                   TypeAliasDeclaration "A" 34 None BooleanKeyword])).

(** [var x = 1], when the initializer is compiled. *)
Definition variableInitialized : Program :=
  Eval vm_compute in
    stateOf (handle sampleCode doubling 1 (NumericLiteral "1")
               (declared sampleCode doubling emptyProgram "x" SymVariable 0
                  [u8 (sampleCode OP.Unknown)])).

(** ** Properties *)

Section Properties.

Variable opcode : OP.t -> Z.
Variable grow : nat -> nat.

Lemma writeBytes_end (o bs : list Z) : writeBytes o (length o) bs = o ++ bs.
Proof.
  unfold writeBytes. rewrite firstn_all, drop_ge by lia.
  now rewrite app_nil_r.
Qed.

(** *** Pointers to routines *)

Lemma valid_spec p r :
  valid p r = true <-> (length (subroutines p) <= r + live p)%nat.
Proof. unfold valid. apply Nat.leb_le. Qed.

Lemma deref_inv r p routine p' :
  deref r p = Ok routine p' ->
  p' = p /\ subroutines p !! r = Some routine
  /\ (length (subroutines p) <= r + live p)%nat.
Proof.
  unfold deref, lookupRoutine. destruct (valid p r) eqn:E; [|discriminate].
  apply valid_spec in E. destruct (subroutines p !! r); [|discriminate].
  intros [= <- <-]. auto.
Qed.

Lemma deref_ok r p routine :
  subroutines p !! r = Some routine ->
  (length (subroutines p) <= r + live p)%nat ->
  deref r p = Ok routine p.
Proof.
  intros H Hv. apply valid_spec in Hv. unfold deref, lookupRoutine.
  now rewrite Hv, H.
Qed.

Lemma deref_stale r p :
  (r + live p < length (subroutines p))%nat -> deref r p = Undefined.
Proof.
  intros H. unfold deref. replace (valid p r) with false; [reflexivity|].
  symmetry. apply Nat.leb_gt. exact H.
Qed.

(** *** The emitter *)

Lemma targetValid_getOPs p :
  targetValid p -> exists o, getOPs p = Ok o p.
Proof.
  unfold targetValid, getOPs, bind, ret.
  destruct (last (activeSubroutines p)) as [r|]; [|eauto].
  intros [Hr Hv]. destruct (lookup_lt_is_Some_2 (subroutines p) r Hr) as [x Hx].
  rewrite (deref_ok r p x Hx Hv). eauto.
Qed.

Lemma emit_spec p o bs :
  getOPs p = Ok o p ->
  (o' <- getOPs ;; setOPs (o' ++ bs)) p = Ok tt (emitted p bs).
Proof.
  unfold getOPs, setOPs, deref, lookupRoutine, bind, ret, emitted.
  destruct (last (activeSubroutines p)) as [r|] eqn:Hl.
  - destruct (valid p r); [|discriminate].
    destruct (subroutines p !! r) as [x|] eqn:Hx; [|discriminate].
    intros _. rewrite Hl. do 2 f_equal.
    apply list_alter_ext; [|done]. intros y Hy.
    rewrite Hx in Hy. now inversion Hy.
  - intros _. now rewrite Hl.
Qed.

Lemma pushOp_spec p o op :
  getOPs p = Ok o p ->
  pushOp opcode op [] p = Ok tt (emitted p [u8 (opcode op)]).
Proof. intros H. unfold pushOp. simpl. now apply emit_spec with (o := o). Qed.

Lemma getOPs_state p o p' : getOPs p = Ok o p' -> p' = p.
Proof.
  unfold getOPs, deref, lookupRoutine, bind, ret.
  destruct (last (activeSubroutines p)); [|congruence].
  destruct (valid p n); [|discriminate].
  destruct (subroutines p !! n); congruence.
Qed.

Lemma pushAddress_spec p o a :
  getOPs p = Ok o p ->
  pushAddress a p = Ok tt (emitted p (bytesLE 4 a)).
Proof.
  intros H. unfold pushAddress, bind. rewrite H.
  unfold writeUint32. rewrite writeBytes_end.
  pose proof (emit_spec p o (bytesLE 4 a) H) as E.
  unfold bind in E. now rewrite H in E.
Qed.

Lemma emitted_frame p bs : frame (emitted p bs) = frame p.
Proof. unfold emitted. now destruct (last _). Qed.

Lemma emitted_active p bs :
  activeSubroutines (emitted p bs) = activeSubroutines p.
Proof. unfold emitted. now destruct (last _). Qed.

Lemma emitted_length p bs :
  length (subroutines (emitted p bs)) = length (subroutines p).
Proof.
  unfold emitted. destruct (last _); simpl; [|done]. apply length_alter.
Qed.

Lemma emitted_live p bs : live (emitted p bs) = live p.
Proof. unfold emitted. now destruct (last _). Qed.

Lemma emitted_capacity p bs : capacity (emitted p bs) = capacity p.
Proof. unfold emitted. now destruct (last _). Qed.

Lemma emitted_targetValid p bs : targetValid p -> targetValid (emitted p bs).
Proof.
  unfold targetValid. rewrite emitted_active, emitted_length, emitted_live.
  auto.
Qed.

Lemma emitted_app p bs1 bs2 :
  emitted (emitted p bs1) bs2 = emitted p (bs1 ++ bs2).
Proof.
  unfold emitted at 1. rewrite emitted_active. unfold emitted.
  destruct (last (activeSubroutines p)) as [r|]; simpl.
  - unfold set_subroutines. simpl. f_equal.
    rewrite list_alter_alter_eq. apply list_alter_ext; [|done].
    intros x _. unfold Subroutine.set_ops. simpl. now rewrite app_assoc.
  - unfold set_ops. simpl. now rewrite app_assoc.
Qed.

Lemma emitted_set_frame p f bs :
  emitted (set_frame p f) bs = set_frame (emitted p bs) f.
Proof. unfold emitted. simpl. now destruct (last _). Qed.

Lemma targetValid_set_frame p f : targetValid p -> targetValid (set_frame p f).
Proof. auto. Qed.

Lemma pushOp_ok p op :
  targetValid p ->
  pushOp opcode op [] p = Ok tt (emitted p [u8 (opcode op)]).
Proof.
  intros H. destruct (targetValid_getOPs p H) as [o Ho].
  now apply pushOp_spec with (o := o).
Qed.

Lemma pushAddress_ok p a :
  targetValid p -> pushAddress a p = Ok tt (emitted p (bytesLE 4 a)).
Proof.
  intros H. destruct (targetValid_getOPs p H) as [o Ho].
  now apply pushAddress_spec with (o := o).
Qed.

Lemma pushFrame_explicit p :
  targetValid p ->
  pushFrame opcode false p
  = Ok (Frame.mk (Some (frame p)) (u32 (Frame.id (frame p) + 1)) [])
       (set_frame (emitted p [u8 (opcode OP.Frame)])
          (Frame.mk (Some (frame p)) (u32 (Frame.id (frame p) + 1)) [])).
Proof.
  intros H. unfold pushFrame, bind. rewrite pushOp_ok by done.
  now rewrite emitted_frame.
Qed.

Lemma pushFrame_implicit p :
  pushFrame opcode true p
  = Ok (Frame.mk (Some (frame p)) (u32 (Frame.id (frame p) + 1)) [])
       (set_frame p
          (Frame.mk (Some (frame p)) (u32 (Frame.id (frame p) + 1)) [])).
Proof. reflexivity. Qed.

Lemma set_frame_same p : set_frame p (frame p) = p.
Proof. now destruct p. Qed.

Lemma set_frame_set_frame p f g : set_frame (set_frame p f) g = set_frame p g.
Proof. reflexivity. Qed.

(** C7.  Compiling the union of the [number] and [string] keyword types
    appends exactly the four bytes [Frame], [Number], [String], [Union] to the
    buffer being filled, and returns to the frame it started in without
    emitting anything after [Union]. *)
Theorem union_number_string (fuel : nat) (p : Program) :
  targetValid p ->
  handle opcode grow (S (S fuel)) (UnionType [NumberKeyword; StringKeyword]) p
  = Ok tt (emitted p [u8 (opcode OP.Frame); u8 (opcode OP.Number);
                      u8 (opcode OP.String); u8 (opcode OP.Union)]).
Proof.
  intros H. cbn [handle forEach]. unfold bind at 1.
  rewrite pushFrame_explicit by done.
  set (child := Frame.mk _ _ _).
  unfold bind at 1. unfold bind at 1.
  rewrite pushOp_ok by now apply targetValid_set_frame, emitted_targetValid.
  unfold bind at 1.
  rewrite pushOp_ok
    by now repeat first [apply targetValid_set_frame | apply emitted_targetValid].
  unfold ret. unfold bind at 1.
  rewrite pushOp_ok
    by now repeat first [apply targetValid_set_frame | apply emitted_targetValid].
  rewrite !emitted_set_frame, !emitted_app. simpl.
  unfold popFrameImplicit. simpl.
  rewrite set_frame_set_frame.
  match goal with |- context [emitted p ?bs] =>
    rewrite <- (emitted_frame p bs) at 1; now rewrite set_frame_same end.
Qed.

(** *** Frames and symbol resolution *)

Lemma Frame_chain_ind (P : Frame.t -> Prop) :
  (forall id symbols, P (Frame.mk None id symbols)) ->
  (forall f id symbols, P f -> P (Frame.mk (Some f) id symbols)) ->
  forall f, P f.
Proof.
  intros Hroot Hchild. fix IH 1. intros [[f|] id symbols].
  - apply Hchild, IH.
  - apply Hroot.
Qed.

Lemma chain_unfold f :
  chain f = f :: match Frame.previous f with
                 | Some f' => chain f'
                 | None => []
                 end.
Proof. now destruct f. Qed.

Lemma parent_differs f f' : Frame.previous f = Some f' -> f' <> f.
Proof.
  intros H E. pose proof (chain_unfold f) as C. rewrite H, E in C.
  apply (f_equal length) in C. simpl in C. lia.
Qed.

Lemma list_find_named_None name (l : list Symbol.t) :
  list_find (named name) l = None <-> ~ Exists (named name) l.
Proof.
  rewrite list_find_None, <- Forall_Exists_neg. reflexivity.
Qed.

Lemma list_find_named_Some name (l : list Symbol.t) i s :
  list_find (named name) l = Some (i, s) ->
  l !! i = Some s /\ Symbol.name s = name.
Proof. rewrite list_find_Some. intros (H1 & H2 & _). split; assumption. Qed.

Lemma list_find_named_Exists name (l : list Symbol.t) i s :
  list_find (named name) l = Some (i, s) -> Exists (named name) l.
Proof.
  intros H. destruct (list_find (named name) l) eqn:E; [|discriminate].
  destruct (decide (Exists (named name) l)) as [|N]; [done|].
  apply list_find_named_None in N. congruence.
Qed.

Lemma findInChain_unfold name f :
  findInChain name f
  = match list_find (named name) (Frame.symbols f) with
    | Some (_, s) => Some s
    | None => match Frame.previous f with
              | Some f' => findInChain name f'
              | None => None
              end
    end.
Proof. now destruct f. Qed.

Lemma findInChain_None name f :
  findInChain name f = None <-> Forall (fun g => ~ declares name g) (chain f).
Proof.
  induction f as [id symbols|f id symbols IH] using Frame_chain_ind;
    rewrite findInChain_unfold, chain_unfold; simpl;
    destruct (list_find (named name) symbols) as [[i s]|] eqn:E.
  - split; [discriminate|]. intros H. apply Forall_cons_1 in H as [H _].
    exfalso. apply H. unfold declares. simpl.
    now apply list_find_named_Exists in E.
  - split; [|done]. intros _. constructor; [|constructor].
    now apply list_find_named_None.
  - split; [discriminate|]. intros H. apply Forall_cons_1 in H as [H _].
    exfalso. apply H. unfold declares. simpl.
    now apply list_find_named_Exists in E.
  - rewrite IH. split.
    + intros H. constructor; [|done]. now apply list_find_named_None.
    + intros H. now apply Forall_cons_1 in H as [_ H].
Qed.

(** A successful search returns the first symbol of that name in the
    innermost frame that declares it. *)
Lemma findInChain_Some name f s :
  findInChain name f = Some s ->
  exists inner g outer i,
    chain f = inner ++ g :: outer
    /\ Forall (fun h => ~ declares name h) inner
    /\ list_find (named name) (Frame.symbols g) = Some (i, s).
Proof.
  induction f as [id symbols|f id symbols IH] using Frame_chain_ind;
    rewrite findInChain_unfold, chain_unfold; simpl;
    destruct (list_find (named name) symbols) as [[i s']|] eqn:E;
    try discriminate.
  - intros [= ->]. exists [], (Frame.mk None id symbols), [], i. auto.
  - intros [= ->].
    exists [], (Frame.mk (Some f) id symbols), (chain f), i. auto.
  - intros H. destruct (IH H) as (inner & g & outer & j & Hc & Hn & Hf).
    exists (Frame.mk (Some f) id symbols :: inner), g, outer, j.
    rewrite Hc. repeat split; [|done]. constructor; [|done].
    now apply list_find_named_None.
Qed.

(** C9.  [popSubroutine] called while the routine at the back of the active
    stack (the pointer to it being valid) has an empty buffer throws "Routine
    is empty" after [popFrameImplicit] has run: in the program at the throw
    the current frame is the parent of the frame the call started in, the
    stack of active routines and the registry are as before. *)
Theorem popSubroutine_not_atomic (p : Program) (r : nat)
  (routine : Subroutine.t) :
  last (activeSubroutines p) = Some r ->
  subroutines p !! r = Some routine ->
  (length (subroutines p) <= r + live p)%nat ->
  Subroutine.ops routine = [] ->
  popSubroutine opcode p
  = Throw EmptyRoutine (set_frame p (parentOrSelf (frame p)))
  /\ activeSubroutines (set_frame p (parentOrSelf (frame p)))
     = activeSubroutines p
  /\ subroutines (set_frame p (parentOrSelf (frame p))) = subroutines p
  /\ forall f, Frame.previous (frame p) = Some f ->
       frame (set_frame p (parentOrSelf (frame p))) = f /\ f <> frame p.
Proof.
  intros Hl Hr Hv He. apply valid_spec in Hv. repeat split.
  - unfold popSubroutine. rewrite Hl. unfold bind, popFrameImplicit.
    unfold parentOrSelf.
    destruct (Frame.previous (frame p)) as [f|];
      unfold deref, lookupRoutine, valid in *; simpl;
      rewrite Hv, Hr; unfold bind, ret; simpl; rewrite He; unfold throw;
      [reflexivity|now rewrite set_frame_same].
  - unfold parentOrSelf. simpl. now rewrite H.
  - now apply parent_differs.
Qed.

(** C10.  [pushSubroutine] searches the current frame only: for a name that
    the current frame does not declare it throws "no symbol found" and
    leaves the program untouched, although [findSymbol] resolves the same
    name to the symbol an enclosing frame declares. *)
Theorem pushSubroutine_current_frame_only (p : Program) (name : string)
  (f : Frame.t) :
  ~ declares name (frame p) ->
  Frame.previous (frame p) = Some f ->
  Exists (declares name) (chain f) ->
  pushSubroutine opcode name p = Throw UnknownRoutine p
  /\ exists s, findSymbol name p = Ok s p /\ Symbol.name s = name
       /\ findInChain name f = Some s.
Proof.
  intros Hcur Hprev Hdecl.
  apply list_find_named_None in Hcur. split.
  - unfold pushSubroutine. now rewrite Hcur.
  - unfold findSymbol. rewrite findInChain_unfold, Hcur, Hprev.
    destruct (findInChain name f) as [s|] eqn:E.
    + exists s. repeat split.
      apply findInChain_Some in E as (_ & g & _ & i & _ & _ & E).
      now apply list_find_named_Some in E.
    + apply findInChain_None in E.
      apply Exists_exists in Hdecl as (g & Hg & Hd).
      rewrite Forall_forall in E. exfalso. now apply (E g).
Qed.

(** *** What each method does to the program *)

Lemma bind_Ok_inv {A B} (m : M A) (k : A -> M B) p b p2 :
  bind m k p = Ok b p2 ->
  exists a p1, m p = Ok a p1 /\ k a p1 = Ok b p2.
Proof. unfold bind. destruct (m p); try discriminate. eauto. Qed.

Lemma getOPs_targetValid p o p' : getOPs p = Ok o p' -> targetValid p.
Proof.
  unfold getOPs, targetValid, bind, ret.
  destruct (last (activeSubroutines p)) as [r|]; [|done].
  destruct (deref r p) eqn:E; try discriminate.
  intros _. apply deref_inv in E as (_ & E & Hv).
  split; [now apply lookup_lt_Some in E|exact Hv].
Qed.

Lemma pushOp_inv p op u p' :
  pushOp opcode op [] p = Ok u p' ->
  targetValid p /\ p' = emitted p [u8 (opcode op)].
Proof.
  intros H. assert (V : targetValid p).
  { unfold pushOp in H. apply bind_Ok_inv in H as (o & q & H & _).
    now apply getOPs_targetValid in H. }
  split; [done|]. rewrite pushOp_ok in H by done. congruence.
Qed.

Lemma pushAddress_inv p a u p' :
  pushAddress a p = Ok u p' ->
  targetValid p /\ p' = emitted p (bytesLE 4 a).
Proof.
  intros H. assert (V : targetValid p).
  { unfold pushAddress in H. apply bind_Ok_inv in H as (o & q & H & _).
    now apply getOPs_targetValid in H. }
  split; [done|]. rewrite pushAddress_ok in H by done. congruence.
Qed.

Lemma pushStorage_inv p s u p' :
  pushStorage s p = Ok u p' ->
  targetValid p
  /\ p' = emitted (stored p s)
            (bytesLE 4 (if storageIndex p =? 0 then 5 else storageIndex p)).
Proof.
  unfold pushStorage, bind, registerStorage. intros H.
  apply pushAddress_inv in H as [V ->]. auto.
Qed.

Lemma pushFrame_inv p implicit f p' :
  pushFrame opcode implicit p = Ok f p' ->
  f = Frame.mk (Some (frame p)) (u32 (Frame.id (frame p) + 1)) []
  /\ (if implicit then True%type else targetValid p)
  /\ p' = set_frame
            (if implicit then p else emitted p [u8 (opcode OP.Frame)]) f.
Proof.
  destruct implicit.
  - rewrite pushFrame_implicit. intros [= <- <-]. auto.
  - unfold pushFrame. intros H. apply bind_Ok_inv in H as ([] & q & H1 & H).
    apply pushOp_inv in H1 as [V ->]. rewrite emitted_frame in H.
    injection H as <- <-. auto.
Qed.

Lemma popFrameImplicit_spec p :
  popFrameImplicit p = Ok tt (set_frame p (parentOrSelf (frame p))).
Proof.
  unfold popFrameImplicit, parentOrSelf.
  destruct (Frame.previous (frame p)); [done|]. now rewrite set_frame_same.
Qed.

Lemma pushSymbol_spec p name type pos :
  pushSymbol name type pos p
  = match list_find (named name) (Frame.symbols (frame p)) with
    | Some (i, v) =>
        Ok i (set_frame p (Frame.set_symbols (frame p)
                (<[i := redeclared v]> (Frame.symbols (frame p)))))
    | None =>
        Ok (length (Frame.symbols (frame p)))
           (set_frame p (Frame.set_symbols (frame p)
              (Frame.symbols (frame p) ++ [freshSymbol (frame p) name pos])))
    end.
Proof.
  unfold pushSymbol. destruct (list_find _ _) as [[i v]|]; reflexivity.
Qed.

Lemma pushed_ops routine p : ops (pushed grow routine p) = ops p.
Proof. unfold pushed. now destruct (_ <=? _)%nat. Qed.

Lemma pushed_storage routine p : storage (pushed grow routine p) = storage p.
Proof. unfold pushed. now destruct (_ <=? _)%nat. Qed.

Lemma pushed_storageIndex routine p :
  storageIndex (pushed grow routine p) = storageIndex p.
Proof. unfold pushed. now destruct (_ <=? _)%nat. Qed.

Lemma pushed_frame routine p : frame (pushed grow routine p) = frame p.
Proof. unfold pushed. now destruct (_ <=? _)%nat. Qed.

Lemma pushed_active routine p :
  activeSubroutines (pushed grow routine p) = activeSubroutines p.
Proof. unfold pushed. now destruct (_ <=? _)%nat. Qed.

Lemma pushed_subroutines routine p :
  subroutines (pushed grow routine p) = subroutines p ++ [routine].
Proof. unfold pushed. now destruct (_ <=? _)%nat. Qed.

(** The pointer to the routine just registered is valid. *)
Lemma pushed_live routine p : (1 <= live (pushed grow routine p))%nat.
Proof. unfold pushed. destruct (_ <=? _)%nat; simpl; lia. Qed.

(** A [push_back] onto a full vector leaves only the new pointer valid. *)
Lemma pushed_full routine p :
  (capacity p <= length (subroutines p))%nat ->
  live (pushed grow routine p) = 1%nat.
Proof.
  intros H. apply Nat.leb_le in H. unfold pushed. now rewrite H.
Qed.

Lemma pushed_room routine p :
  (length (subroutines p) < capacity p)%nat ->
  live (pushed grow routine p) = S (live p).
Proof.
  intros H. apply Nat.leb_gt in H. unfold pushed. now rewrite H.
Qed.

Ltac pushed_fields :=
  rewrite ?pushed_ops, ?pushed_storage, ?pushed_storageIndex, ?pushed_frame,
    ?pushed_active, ?pushed_subroutines.

Lemma pushSymbolForRoutine_inv p name type pos s p' :
  pushSymbolForRoutine grow name type pos p = Ok s p' ->
  exists i symbols',
    ops p' = ops p /\ storage p' = storage p
    /\ storageIndex p' = storageIndex p
    /\ activeSubroutines p' = activeSubroutines p
    /\ frame p' = Frame.set_symbols (frame p) symbols'
    /\ symbols' !! i = Some s
    /\ Symbol.name s = name
    /\ ((exists v r,
           list_find (named name) (Frame.symbols (frame p)) = Some (i, v)
           /\ Symbol.routine v = Some r
           /\ s = redeclared v
           /\ symbols' = <[i := s]> (Frame.symbols (frame p))
           /\ subroutines p' = subroutines p)
        \/ (exists v,
           (list_find (named name) (Frame.symbols (frame p)) = Some (i, v)
            /\ s = Symbol.set_routine (redeclared v)
                     (Some (length (subroutines p)))
            \/ list_find (named name) (Frame.symbols (frame p)) = None
               /\ i = length (Frame.symbols (frame p))
               /\ v = freshSymbol (frame p) name pos
               /\ s = Symbol.set_routine v (Some (length (subroutines p))))
           /\ symbols' = <[i := s]>
                (match list_find (named name) (Frame.symbols (frame p)) with
                 | Some _ => Frame.symbols (frame p)
                 | None => Frame.symbols (frame p) ++ [v]
                 end)
           /\ subroutines p'
              = subroutines p ++ [freshRoutine p name type pos])).
Proof.
  unfold pushSymbolForRoutine. intros H.
  apply bind_Ok_inv in H as (i & p1 & H1 & H).
  apply bind_Ok_inv in H as (s1 & p2 & H2 & H).
  rewrite pushSymbol_spec in H1. unfold getSymbol in H2.
  destruct (Frame.symbols (frame p1) !! i) as [s0|] eqn:Ei; [|discriminate].
  injection H2 as -> ->.
  destruct (list_find (named name) (Frame.symbols (frame p))) as [[j v]|] eqn:Ef.
  - injection H1 as -> <-. simpl in Ei.
    pose proof (list_find_named_Some _ _ _ _ Ef) as [Ej En].
    rewrite list_lookup_insert_eq in Ei by now apply lookup_lt_Some in Ej.
    injection Ei as <-.
    destruct (Symbol.routine (redeclared v)) as [r|] eqn:Er.
    + injection H as <- <-. exists i, (<[i := redeclared v]> (Frame.symbols (frame p))).
      simpl. repeat split; try done.
      * apply list_lookup_insert_eq. now apply lookup_lt_Some in Ej.
      * left. exists v, r. auto.
    + unfold bind, push_back, modify, ret in H. simpl in H.
      injection H as <- <-.
      exists i, (<[i := Symbol.set_routine (redeclared v)
                           (Some (length (subroutines p)))]>
                   (Frame.symbols (frame p))).
      simpl. pushed_fields. simpl.
      rewrite list_insert_insert_eq. repeat split; try done.
      * apply list_lookup_insert_eq. now apply lookup_lt_Some in Ej.
      * right. exists v. auto.
  - injection H1 as <- <-. simpl in Ei.
    rewrite lookup_app_r, Nat.sub_diag in Ei by lia. injection Ei as <-.
    unfold bind, push_back, modify, ret in H. simpl in H.
    injection H as <- <-.
    set (v := freshSymbol (frame p) name pos).
    exists (length (Frame.symbols (frame p))),
      (<[length (Frame.symbols (frame p))
          := Symbol.set_routine v (Some (length (subroutines p)))]>
         (Frame.symbols (frame p) ++ [v])).
    simpl. pushed_fields. simpl. repeat split; try done.
    + apply list_lookup_insert_eq. rewrite length_app. simpl. lia.
    + right. exists v. repeat split; auto.
Qed.

Lemma pushSubroutine_inv p name a p' :
  pushSubroutine opcode name p = Ok a p' ->
  exists i s r routine,
    list_find (named name) (Frame.symbols (frame p)) = Some (i, s)
    /\ Symbol.routine s = Some r
    /\ subroutines p !! r = Some routine
    /\ a = Subroutine.address routine
    /\ p' = set_activeSubroutines
              (set_frame p (Frame.mk (Some (frame p))
                                     (u32 (Frame.id (frame p) + 1)) []))
              (activeSubroutines p ++ [r]).
Proof.
  unfold pushSubroutine.
  destruct (list_find _ _) as [[i s]|] eqn:Ef; [|discriminate].
  unfold bind at 1. rewrite pushFrame_implicit.
  destruct (Symbol.routine s) as [r|] eqn:Er; [|discriminate].
  unfold bind at 1. unfold modify at 1. unfold bind at 1.
  destruct (deref r _) as [routine q| | |] eqn:E; try discriminate.
  apply deref_inv in E as (-> & E & _). simpl in E.
  unfold ret. intros [= <- <-]. exists i, s, r, routine. auto.
Qed.

Lemma popSubroutine_inv p u p' :
  popSubroutine opcode p = Ok u p' ->
  exists r routine,
    last (activeSubroutines p) = Some r
    /\ subroutines p !! r = Some routine
    /\ Subroutine.ops routine <> []
    /\ p' = returned opcode p r.
Proof.
  unfold popSubroutine.
  destruct (last (activeSubroutines p)) as [r|] eqn:El; [|discriminate].
  unfold bind at 1. rewrite popFrameImplicit_spec.
  unfold bind at 1.
  destruct (deref r _) as [routine q| | |] eqn:E; try discriminate.
  apply deref_inv in E as (-> & E & _). simpl in E.
  destruct (Subroutine.ops routine) eqn:Eo; [discriminate|].
  unfold bind, modify. intros [= <-]. exists r, routine.
  rewrite Eo. repeat split; done.
Qed.

(** *** [handle] returns to the frame and the active routine it started in *)

Lemma sameScope_refl p : sameScope p p.
Proof. now split. Qed.

Lemma sameScope_trans p q r : sameScope p q -> sameScope q r -> sameScope p r.
Proof. intros [] []. split; congruence. Qed.

Lemma sameScope_emitted p bs : sameScope p (emitted p bs).
Proof. split; now rewrite ?emitted_frame, ?emitted_active. Qed.

Lemma emitted_set_storage p s i bs :
  emitted (set_storage p s i) bs = set_storage (emitted p bs) s i.
Proof. unfold emitted. simpl. now destruct (last _). Qed.

Lemma forEach_rel {A} (R : Program -> Program -> Prop) (body : A -> M unit)
  (l : list A) :
  (forall p, R p p) ->
  (forall p q r, R p q -> R q r -> R p r) ->
  (forall x p u p', body x p = Ok u p' -> R p p') ->
  forall p u p', forEach l body p = Ok u p' -> R p p'.
Proof.
  intros Hrefl Htrans Hbody. induction l as [|x l IH]; intros p u p' H.
  - inversion H; subst. apply Hrefl.
  - simpl in H. apply bind_Ok_inv in H as (u1 & p1 & H1 & H).
    eapply Htrans; [eapply Hbody, H1|eapply IH, H].
Qed.

Lemma forEach_inv {A} (I : Program -> Prop) (body : A -> M unit)
  (l : list A) :
  (forall x p u p', I p -> body x p = Ok u p' -> I p') ->
  forall p u p', I p -> forEach l body p = Ok u p' -> I p'.
Proof.
  intros Hbody. induction l as [|x l IH]; intros p u p' Hp H.
  - now inversion H; subst.
  - simpl in H. apply bind_Ok_inv in H as (u1 & p1 & H1 & H).
    eapply IH; [eapply Hbody, H1; exact Hp|exact H].
Qed.

Lemma pushSymbol_sameScope p name type pos i p' :
  pushSymbol name type pos p = Ok i p' -> sameScope p p'.
Proof.
  rewrite pushSymbol_spec. destruct (list_find _ _) as [[j v]|];
    intros [= <- <-]; now split.
Qed.

Lemma pushSymbolForRoutine_sameScope p name type pos s p' :
  pushSymbolForRoutine grow name type pos p = Ok s p' -> sameScope p p'.
Proof.
  intros H. apply pushSymbolForRoutine_inv in H
    as (i & l & _ & _ & _ & Ha & Hf & _).
  split; [rewrite Hf| rewrite Hf|]; done.
Qed.

(** Entering a routine, keeping the scope, and leaving it restores the frame
    and the active routines. *)
Lemma routine_bracket p a p1 p2 u p3 name :
  pushSubroutine opcode name p = Ok a p1 ->
  sameScope p1 p2 ->
  popSubroutine opcode p2 = Ok u p3 ->
  frame p3 = frame p /\ activeSubroutines p3 = activeSubroutines p.
Proof.
  intros H1 [Sp Si Sa] H3.
  apply pushSubroutine_inv in H1 as (i & s & r & routine & _ & _ & _ & _ & ->).
  apply popSubroutine_inv in H3 as (r' & routine' & _ & _ & _ & ->).
  simpl in *. unfold returned, parentOrSelf. simpl. rewrite Sp, Sa.
  split; [done|]. apply removelast_last.
Qed.

Lemma sameScope_of_eq p p' :
  frame p' = frame p -> activeSubroutines p' = activeSubroutines p ->
  sameScope p p'.
Proof. intros Hf Ha. split; now rewrite ?Hf, ?Ha. Qed.

Lemma pushSymbolAddress_inv p s u p' :
  pushSymbolAddress s p = Ok u p' ->
  targetValid p
  /\ p' = emitted p (bytesLE 4 (Symbol.frame s) ++ bytesLE 4 (Symbol.index s)).
Proof.
  unfold pushSymbolAddress. intros H.
  apply bind_Ok_inv in H as (o & q & H1 & H).
  pose proof (getOPs_targetValid _ _ _ H1) as V.
  pose proof (getOPs_state _ _ _ H1) as ->. split; [done|].
  unfold writeUint32 in H. rewrite !writeBytes_end, <- app_assoc in H.
  pose proof (emit_spec p o
                (bytesLE 4 (Symbol.frame s) ++ bytesLE 4 (Symbol.index s)) H1)
    as E.
  unfold bind in E. rewrite H1 in E. congruence.
Qed.

Lemma findSymbol_inv name p s p' :
  findSymbol name p = Ok s p' -> p' = p /\ findInChain name (frame p) = Some s.
Proof.
  unfold findSymbol. destruct (findInChain name (frame p)); [|discriminate].
  now intros [= <- <-].
Qed.

Lemma lookupRoutine_inv r p routine p' :
  lookupRoutine r p = Ok routine p' ->
  p' = p /\ subroutines p !! r = Some routine.
Proof.
  unfold lookupRoutine. destruct (subroutines p !! r); [|discriminate].
  now intros [= <- <-].
Qed.

Ltac scope_step :=
  match goal with
  | H : pushOp _ _ [] _ = Ok _ _ |- _ => apply pushOp_inv in H as [_ ->]
  | H : pushAddress _ _ = Ok _ _ |- _ => apply pushAddress_inv in H as [_ ->]
  | H : pushStorage _ _ = Ok _ _ |- _ => apply pushStorage_inv in H as [_ ->]
  | H : pushSymbolAddress _ _ = Ok _ _ |- _ =>
      apply pushSymbolAddress_inv in H as [_ ->]
  | H : findSymbol _ _ = Ok _ _ |- _ => apply findSymbol_inv in H as [-> _]
  | H : lookupRoutine _ _ = Ok _ _ |- _ => apply lookupRoutine_inv in H as [-> _]
  | H : deref _ _ = Ok _ _ |- _ => apply deref_inv in H as (-> & _ & _)
  | H : ret _ _ = Ok _ _ |- _ => unfold ret in H; injection H as <- <-
  | H : bind _ _ _ = Ok _ _ |- _ =>
      let a := fresh "a" in let q := fresh "q" in let H1 := fresh "H" in
      apply bind_Ok_inv in H as (a & q & H1 & H)
  end.

Lemma typeParameters_sameScope name pos (l : option (list Node)) p u p' :
  whenSome l (fun l =>
    forEach l (fun _ =>
      pushSymbol name SymTypeVariable pos ;;; pushOp opcode OP.Var [])) p
  = Ok u p' ->
  sameScope p p'.
Proof.
  destruct l as [l|]; simpl; [|intros [= <- <-]; apply sameScope_refl].
  apply forEach_rel; [apply sameScope_refl|apply sameScope_trans|].
  intros _ q v q' H. apply bind_Ok_inv in H as (i & q1 & H1 & H).
  apply pushSymbol_sameScope in H1. apply pushOp_inv in H as [_ ->].
  eapply sameScope_trans; [exact H1|apply sameScope_emitted].
Qed.

Lemma sameScope_literal p bs1 s bs2 :
  sameScope p (emitted (stored (emitted p bs1) s) bs2).
Proof.
  split; rewrite ?emitted_frame, ?emitted_active; simpl;
    now rewrite ?emitted_frame, ?emitted_active.
Qed.

Lemma handle_sameScope (fuel : nat) :
  forall node p u p', handle opcode grow fuel node p = Ok u p' -> sameScope p p'.
Proof.
  induction fuel as [|fuel IH]; intros node p u p' H; [discriminate|].
  assert (IHs : forall l q v q',
             forEach l (handle opcode grow fuel) q = Ok v q' -> sameScope q q').
  { intros l. apply forEach_rel;
      [apply sameScope_refl|apply sameScope_trans|]. intros x. apply IH. }
  assert (IHo : forall (t : option Node) q v q',
             match t with
             | Some t => handle opcode grow fuel t
             | None => pushOp opcode OP.Unknown []
             end q = Ok v q' -> sameScope q q').
  { intros [t|] q v q' Ht; [eapply IH, Ht|].
    apply pushOp_inv in Ht as [_ ->]. apply sameScope_emitted. }
  destruct node; cbn [handle] in H.
  - eapply IHs, H.
  - scope_step. apply sameScope_emitted.
  - scope_step. apply sameScope_emitted.
  - scope_step. apply sameScope_emitted.
  - repeat scope_step. apply sameScope_literal.
  - repeat scope_step. apply sameScope_literal.
  - repeat scope_step. apply sameScope_literal.
  - scope_step. apply sameScope_emitted.
  - scope_step. apply sameScope_emitted.
  - (* UnionType *)
    apply bind_Ok_inv in H as (f & p1 & H1 & H).
    apply bind_Ok_inv in H as (u2 & p2 & H2 & H).
    apply bind_Ok_inv in H as (u3 & p3 & H3 & H).
    apply pushFrame_inv in H1 as (-> & _ & ->).
    apply IHs in H2 as [Sp Si Sa]. apply pushOp_inv in H3 as [_ ->].
    rewrite popFrameImplicit_spec in H. injection H as <- <-.
    simpl in Sp, Sa. rewrite emitted_active in Sa.
    apply sameScope_of_eq; cbn [set_frame frame activeSubroutines];
      [|now rewrite emitted_active].
    unfold parentOrSelf. now rewrite emitted_frame, Sp.
  - (* TypeReference *)
    apply bind_Ok_inv in H as (s & p1 & H1 & H). scope_step.
    destruct (Symbol.type s); try (repeat scope_step;
      destruct (Symbol.routine s); [|discriminate]; repeat scope_step;
      rewrite emitted_app; apply sameScope_emitted).
    repeat scope_step. rewrite emitted_app. apply sameScope_emitted.
  - (* TypeAliasDeclaration *)
    apply bind_Ok_inv in H as (s & p1 & H1 & H).
    apply pushSymbolForRoutine_sameScope in H1.
    destruct (Symbol.declarations s >? 1).
    { scope_step. exact H1. }
    apply bind_Ok_inv in H as (a & p2 & H2 & H).
    apply bind_Ok_inv in H as (u3 & p3 & H3 & H).
    apply bind_Ok_inv in H as (u4 & p4 & H4 & H).
    apply typeParameters_sameScope in H3. apply IH in H4.
    eapply sameScope_trans; [exact H1|].
    destruct (routine_bracket _ _ _ _ _ _ _ H2 (sameScope_trans _ _ _ H3 H4) H).
    now apply sameScope_of_eq.
  - (* FunctionDeclaration *)
    destruct name as [[id idpos]|]; simpl in H;
      [|scope_step; apply sameScope_refl].
    apply bind_Ok_inv in H as (s & p1 & H1 & H).
    apply pushSymbolForRoutine_sameScope in H1.
    destruct (Symbol.declarations s >? 1).
    { scope_step. exact H1. }
    apply bind_Ok_inv in H as (a & p2 & H2 & H).
    apply bind_Ok_inv in H as (u3 & p3 & H3 & H).
    apply bind_Ok_inv in H as (u4 & p4 & H4 & H).
    apply bind_Ok_inv in H as (u5 & p5 & H5 & H).
    eapply sameScope_trans; [exact H1|].
    assert (S3 : sameScope p2 p3).
    { revert H3. apply forEach_rel;
        [apply sameScope_refl|apply sameScope_trans|].
      intros _ q v q' Hq. eapply IH, Hq. }
    apply IHo in H4. apply pushOp_inv in H5 as [_ ->].
    pose proof (sameScope_trans _ _ _ S3
                  (sameScope_trans _ _ _ H4
                     (sameScope_emitted p4 [u8 (opcode OP.Function)]))) as S.
    destruct (routine_bracket _ _ _ _ _ _ _ H2 S H).
    now apply sameScope_of_eq.
  - eapply IHs, H.
  - (* VariableDeclaration *)
    destruct name as [[id idpos]|]; simpl in H;
      [|scope_step; apply sameScope_refl].
    apply bind_Ok_inv in H as (s & p1 & H1 & H).
    apply pushSymbolForRoutine_sameScope in H1.
    destruct (Symbol.declarations s >? 1).
    { scope_step. exact H1. }
    apply bind_Ok_inv in H as (a & p2 & H2 & H).
    apply bind_Ok_inv in H as (u3 & p3 & H3 & H).
    apply bind_Ok_inv in H as (u4 & p4 & H4 & H).
    eapply sameScope_trans; [exact H1|].
    apply IHo in H3.
    destruct (routine_bracket _ _ _ _ _ _ _ H2 H3 H4) as [Ef Ea].
    eapply sameScope_trans; [apply sameScope_of_eq; eassumption|].
    destruct initializer as [e|]; simpl in H;
      [|scope_step; apply sameScope_refl].
    apply bind_Ok_inv in H as (u5 & p5 & H5 & H). apply IH in H5.
    repeat scope_step. rewrite !emitted_app.
    eapply sameScope_trans; [exact H5|apply sameScope_emitted].
  - scope_step. apply sameScope_refl.
Qed.

(** *** Redeclaration *)

Lemma insert_snoc {A} (l : list A) (x y : A) :
  <[length l := y]> (l ++ [x]) = l ++ [y].
Proof.
  rewrite insert_app_r_alt, Nat.sub_diag by lia. reflexivity.
Qed.

Lemma list_find_named_snoc name (l : list Symbol.t) s :
  ~ Exists (named name) l -> Symbol.name s = name ->
  list_find (named name) (l ++ [s]) = Some (length l, s).
Proof.
  intros Hn Hs. apply list_find_Some. repeat split.
  - rewrite lookup_app_r, Nat.sub_diag by lia. reflexivity.
  - exact Hs.
  - intros j y Hj Hlt Hy. apply Hn. rewrite lookup_app_l in Hj by lia.
    apply Exists_exists. exists y. split; [|done].
    apply list_elem_of_lookup. eauto.
Qed.

(** The second declaration of a name: what [pushSymbolForRoutine] does when
    the frame already holds a symbol of that name with a routine. *)
Lemma pushSymbolForRoutine_again p name type pos i s r :
  list_find (named name) (Frame.symbols (frame p)) = Some (i, s) ->
  Symbol.routine s = Some r ->
  pushSymbolForRoutine grow name type pos p
  = Ok (redeclared s)
       (set_frame p (Frame.set_symbols (frame p)
          (<[i := redeclared s]> (Frame.symbols (frame p))))).
Proof.
  intros Hf Hr. unfold pushSymbolForRoutine, bind.
  rewrite pushSymbol_spec, Hf. unfold getSymbol. simpl.
  apply list_find_named_Some in Hf as [Hi _].
  rewrite list_lookup_insert_eq by now apply lookup_lt_Some in Hi.
  simpl. now rewrite Hr.
Qed.

(** The frame after the first declaration of an alias the frame did not
    declare: the frame it started in, with the alias appended. *)
Lemma alias_first_declaration fuel name pos tps body p u p1 :
  ~ declares name (frame p) ->
  handle opcode grow fuel (TypeAliasDeclaration name pos tps body) p = Ok u p1 ->
  frame p1
  = Frame.set_symbols (frame p)
      (Frame.symbols (frame p)
       ++ [Symbol.set_routine (freshSymbol (frame p) name pos)
             (Some (length (subroutines p)))])
  /\ activeSubroutines p1 = activeSubroutines p.
Proof.
  intros Hn H. destruct fuel as [|fuel]; [discriminate|]. cbn [handle] in H.
  apply bind_Ok_inv in H as (s & q1 & H1 & H).
  apply pushSymbolForRoutine_inv in H1
    as (i & l & _ & _ & _ & Ha & Hf & _ & _ & Hc).
  apply list_find_named_None in Hn.
  destruct Hc as [(v & r & Hv & _)|(v & Hv & Hl & Hs)]; [congruence|].
  destruct Hv as [[Hv _]|(_ & -> & -> & ->)]; [congruence|].
  rewrite Hn, insert_snoc in Hl. subst l.
  change (Symbol.declarations _ >? 1) with false in H. cbv iota in H.
  apply bind_Ok_inv in H as (a & q2 & H2 & H).
  apply bind_Ok_inv in H as (u3 & q3 & H3 & H).
  apply bind_Ok_inv in H as (u4 & q4 & H4 & H).
  apply typeParameters_sameScope in H3. apply handle_sameScope in H4.
  destruct (routine_bracket _ _ _ _ _ _ _ H2 (sameScope_trans _ _ _ H3 H4) H)
    as [-> ->].
  now rewrite Hf, Ha.
Qed.

(** C5.  Declaring an alias a second time in the frame that already declared
    it only counts the declaration: the existing symbol is returned with its
    slot and its routine and with [declarations] raised from 1 to 2, nothing is
    appended to the registry and no buffer changes. *)
Theorem alias_redeclaration_idempotent (fuel fuel' : nat) (name : string)
  (pos pos' : Z) (tps tps' : option (list Node)) (body body' : Node)
  (p p1 : Program) :
  ~ declares name (frame p) ->
  handle opcode grow fuel (TypeAliasDeclaration name pos tps body) p = Ok tt p1 ->
  exists (i : nat) (s : Symbol.t) (p2 : Program),
    list_find (named name) (Frame.symbols (frame p1)) = Some (i, s)
    /\ Symbol.declarations s = 1
    /\ handle opcode grow (S fuel') (TypeAliasDeclaration name pos' tps' body') p1
       = Ok tt p2
    /\ pushSymbolForRoutine grow name SymType pos' p1 = Ok (redeclared s) p2
    /\ Frame.symbols (frame p2) !! i = Some (redeclared s)
    /\ Symbol.declarations (redeclared s) = 2
    /\ Symbol.index (redeclared s) = Symbol.index s
    /\ Symbol.routine (redeclared s) = Symbol.routine s
    /\ length (Frame.symbols (frame p2)) = length (Frame.symbols (frame p1))
    /\ subroutines p2 = subroutines p1
    /\ ops p2 = ops p1
    /\ activeSubroutines p2 = activeSubroutines p1
    /\ storage p2 = storage p1.
Proof.
  intros Hn H. pose proof (alias_first_declaration _ _ _ _ _ _ _ _ Hn H) as [Hf _].
  set (s := Symbol.set_routine (freshSymbol (frame p) name pos)
              (Some (length (subroutines p)))) in Hf.
  assert (Hfind : list_find (named name) (Frame.symbols (frame p1))
                  = Some (length (Frame.symbols (frame p)), s)).
  { rewrite Hf. simpl. now apply list_find_named_snoc. }
  pose proof (pushSymbolForRoutine_again p1 name SymType pos' _ s _ Hfind eq_refl)
    as Hagain.
  eexists _, s, _. split; [exact Hfind|]. split; [reflexivity|].
  split; [|split; [exact Hagain|]].
  - cbn [handle]. unfold bind at 1. rewrite Hagain.
    change (Symbol.declarations (redeclared s) >? 1) with true. reflexivity.
  - simpl. repeat split; try reflexivity.
    + apply list_lookup_insert_eq. apply list_find_named_Some in Hfind as [Hi _].
      now apply lookup_lt_Some in Hi.
    + apply length_insert.
Qed.

(** *** Frame ids *)

Lemma idsAscend_chain f g :
  idsAscend f -> g ∈ chain f -> g = f \/ Frame.id g < Frame.id f.
Proof.
  induction f as [id symbols|f id symbols IH] using Frame_chain_ind;
    rewrite chain_unfold; simpl; intros Ha Hg.
  - apply list_elem_of_singleton in Hg. now left.
  - apply elem_of_cons in Hg as [->|Hg]; [now left|]. right.
    destruct Ha as [Hlt Ha]. destruct (IH Ha Hg) as [->|]; lia.
Qed.

Lemma idsAscend_lt f g :
  idsAscend f -> g ∈ chain f -> g <> f -> Frame.id g < Frame.id f.
Proof. intros Ha Hg Hne. now destruct (idsAscend_chain f g Ha Hg). Qed.

(** C6, as the code has it.  [pushFrame] gives the new frame the id of its
    parent plus one and keeps the parent, unchanged, as [previous]; so the id
    of a child is above its parent's, and ids ascend along the chain from the
    root to the current frame.  Declaring a symbol changes neither the id nor
    the parent of the current frame, and [popFrameImplicit] brings the parent
    back as it was.  A frame pushed after its sibling was popped gets the id
    its sibling had. *)
Theorem frame_id_parent_plus_one (implicit : bool) (p : Program) (f : Frame.t)
  (p' : Program) :
  0 <= Frame.id (frame p) < 2 ^ 32 - 1 ->
  pushFrame opcode implicit p = Ok f p' ->
  frame p' = f
  /\ Frame.previous f = Some (frame p)
  /\ Frame.id f = Frame.id (frame p) + 1
  /\ Frame.id (frame p) < Frame.id f
  /\ (idsAscend (frame p) -> idsAscend f
      /\ forall g, g ∈ chain f -> g <> f -> Frame.id g < Frame.id f)
  /\ (forall name type pos i q,
        pushSymbol name type pos p' = Ok i q ->
        Frame.id (frame q) = Frame.id f
        /\ Frame.previous (frame q) = Frame.previous f)
  /\ (forall q, sameScope p' q ->
        forall u q', popFrameImplicit q = Ok u q' ->
          frame q' = frame p
          /\ forall implicit' g q'',
               pushFrame opcode implicit' q' = Ok g q'' ->
               Frame.id g = Frame.id f).
Proof.
  intros Hid H. apply pushFrame_inv in H as (-> & _ & ->).
  assert (E : u32 (Frame.id (frame p) + 1) = Frame.id (frame p) + 1).
  { unfold u32. apply Z.mod_small. lia. }
  cbn [frame set_frame Frame.previous Frame.id]. rewrite E.
  repeat split; try lia.
  - simpl. lia.
  - simpl. exact H.
  - intros g Hg Hne.
    refine (idsAscend_lt _ g _ Hg Hne). simpl. split; [lia|done].
  - apply pushSymbol_sameScope in H as [_ Hi _]. exact Hi.
  - apply pushSymbol_sameScope in H as [Hp _ _]. exact Hp.
  - destruct H as [Sp _ _]. rewrite popFrameImplicit_spec in H0.
    injection H0 as <- <-. simpl in *. unfold parentOrSelf. now rewrite Sp.
  - intros implicit' g q'' Hg. destruct H as [Sp _ _].
    rewrite popFrameImplicit_spec in H0. injection H0 as <- <-.
    apply pushFrame_inv in Hg as (-> & _ & _). simpl in *.
    unfold parentOrSelf. rewrite Sp. simpl.
    destruct implicit; rewrite ?emitted_frame; exact E.
Qed.

(** *** Well-formed programs *)

Lemma streamOf_nil n : streamOf opcode n [].
Proof. exists []. split; [reflexivity|constructor]. Qed.

Lemma streamOf_mono n m o :
  (n <= m)%nat -> streamOf opcode n o -> streamOf opcode m o.
Proof.
  intros Hle (l & -> & Hl). exists l. split; [done|].
  eapply Forall_impl; [exact Hl|]. intros [op|k|op a]; simpl; auto. lia.
Qed.

Lemma streamOf_app n o l :
  streamOf opcode n o -> Forall (validInstr n) l ->
  streamOf opcode n (o ++ assemble opcode l).
Proof.
  intros (l0 & -> & Hl0) Hl. exists (l0 ++ l). split.
  - unfold assemble. now rewrite flat_map_app.
  - now apply Forall_app.
Qed.

Lemma validSymbol_mono n m s :
  (n <= m)%nat -> validSymbol n s -> validSymbol m s.
Proof.
  intros Hle [Ht Hr]. split; [done|]. intros r E. specialize (Hr r E). lia.
Qed.

Lemma wf_emitted p l :
  wf opcode p -> Forall (validInstr (length (subroutines p))) l ->
  wf opcode (emitted p (assemble opcode l)).
Proof.
  intros [Hm Hr Ha Hf] Hl. unfold emitted.
  destruct (last (activeSubroutines p)) as [r|]; split; simpl;
    rewrite ?length_alter; try done.
  - intros k routine Hk. destruct (decide (r = k)) as [->|Hne].
    + rewrite list_lookup_alter_eq in Hk.
      destruct (subroutines p !! k) as [x|] eqn:E; [|discriminate].
      injection Hk as <-. destruct (Hr k x E) as [Hs Hadr]. simpl.
      split; [now apply streamOf_app|done].
    + rewrite list_lookup_alter_ne in Hk by done. now apply Hr.
  - now apply streamOf_app.
Qed.

Lemma wf_set_frame p f :
  wf opcode p ->
  Forall (fun g => Forall (validSymbol (length (subroutines p)))
                          (Frame.symbols g)) (chain f) ->
  wf opcode (set_frame p f).
Proof. intros [Hm Hr Ha Hf] H. now split. Qed.

Lemma wf_child p :
  wf opcode p ->
  wf opcode
    (set_frame p
       (Frame.mk (Some (frame p)) (u32 (Frame.id (frame p) + 1)) [])).
Proof.
  intros H. apply wf_set_frame; [done|]. rewrite chain_unfold.
  cbn [Frame.previous Frame.symbols].
  constructor; [constructor|]. apply (wf_frames _ _ H).
Qed.

Lemma wf_parent p :
  wf opcode p -> wf opcode (set_frame p (parentOrSelf (frame p))).
Proof.
  intros H. apply wf_set_frame; [done|]. pose proof (wf_frames _ _ H) as Hf.
  unfold parentOrSelf. rewrite chain_unfold in Hf.
  destruct (Frame.previous (frame p)) eqn:E.
  - now apply Forall_cons_1 in Hf as [_ Hf].
  - now rewrite chain_unfold, E.
Qed.

Lemma wf_symbols p l :
  wf opcode p ->
  Forall (validSymbol (length (subroutines p))) l ->
  wf opcode (set_frame p (Frame.set_symbols (frame p) l)).
Proof.
  intros H Hl. apply wf_set_frame; [done|]. pose proof (wf_frames _ _ H) as Hf.
  rewrite chain_unfold in Hf |- *. simpl.
  apply Forall_cons_1 in Hf as [_ Hf]. now constructor.
Qed.

Lemma wf_current p : wf opcode p ->
  Forall (validSymbol (length (subroutines p))) (Frame.symbols (frame p)).
Proof.
  intros H. pose proof (wf_frames _ _ H) as Hf. rewrite chain_unfold in Hf.
  now apply Forall_cons_1 in Hf as [Hf _].
Qed.

Lemma redeclared_valid n v : validSymbol n v -> validSymbol n (redeclared v).
Proof. intros [Ht Hr]. now split. Qed.

Lemma pushSymbol_wf p name type pos i p' :
  wf opcode p -> pushSymbol name type pos p = Ok i p' -> wf opcode p'.
Proof.
  intros H. rewrite pushSymbol_spec.
  destruct (list_find _ _) as [[j v]|] eqn:E; intros [= <- <-];
    apply wf_symbols; try done.
  - apply Forall_insert; [now apply wf_current|]. apply redeclared_valid.
    apply list_find_named_Some in E as [E _].
    eapply Forall_lookup_1; [apply wf_current, H|exact E].
  - apply Forall_app; split; [now apply wf_current|].
    constructor; [|constructor]. split; [reflexivity|discriminate].
Qed.

Lemma wf_register p i s name type pos :
  wf opcode p ->
  Frame.symbols (frame p) !! i = Some s ->
  wf opcode
    (set_frame
       (set_subroutines p (subroutines p ++ [freshRoutine p name type pos]))
       (Frame.set_symbols (frame p)
          (<[i := Symbol.set_routine s (Some (length (subroutines p)))]>
             (Frame.symbols (frame p))))).
Proof.
  intros [Hm Hr Ha Hf] Hi.
  assert (Hlen : length (subroutines p ++ [freshRoutine p name type pos])
                 = S (length (subroutines p))).
  { rewrite length_app. simpl. lia. }
  split; cbn [subroutines set_frame set_subroutines ops activeSubroutines frame];
    rewrite Hlen.
  - eapply streamOf_mono; [|exact Hm]. lia.
  - intros k routine Hk. destruct (decide (k < length (subroutines p))%nat).
    + rewrite lookup_app_l in Hk by done. destruct (Hr k routine Hk).
      split; [|done]. eapply streamOf_mono; [|eassumption]. lia.
    + rewrite lookup_app_r in Hk by lia.
      destruct (k - length (subroutines p))%nat eqn:E; [|now destruct n0].
      injection Hk as <-. simpl. split; [apply streamOf_nil|].
      unfold size. do 2 f_equal. lia.
  - eapply Forall_impl; [exact Ha|]. simpl. lia.
  - rewrite chain_unfold in Hf |- *.
    cbn [Frame.set_symbols Frame.previous Frame.symbols].
    apply Forall_cons_1 in Hf as [Hc Hp]. constructor.
    + apply Forall_insert.
      * eapply Forall_impl; [exact Hc|]. intros x. apply validSymbol_mono. lia.
      * pose proof (Forall_lookup_1 _ _ _ _ Hc Hi) as [Ht _]. split; [done|].
        simpl. intros r [= <-]. lia.
    + eapply Forall_impl; [exact Hp|]. intros g Hg.
      eapply Forall_impl; [exact Hg|]. intros x. apply validSymbol_mono. lia.
Qed.

(** The invariant does not look at the allocation of the registry. *)
Lemma wf_ext p q :
  ops q = ops p -> subroutines q = subroutines p ->
  activeSubroutines q = activeSubroutines p -> frame q = frame p ->
  wf opcode p -> wf opcode q.
Proof.
  intros Ho Hs Ha Hf [H1 H2 H3 H4]. split; rewrite ?Ho, ?Hs, ?Ha, ?Hf; done.
Qed.

Lemma pushSymbolForRoutine_wf p name type pos s p' :
  wf opcode p ->
  pushSymbolForRoutine grow name type pos p = Ok s p' -> wf opcode p'.
Proof.
  intros H. unfold pushSymbolForRoutine. intros E.
  apply bind_Ok_inv in E as (i & p1 & H1 & E).
  apply (pushSymbol_wf _ _ _ _ _ _ H) in H1.
  apply bind_Ok_inv in E as (s1 & p2 & H2 & E).
  unfold getSymbol in H2.
  destruct (Frame.symbols (frame p1) !! i) eqn:Ei; [|discriminate].
  injection H2 as -> ->.
  destruct (Symbol.routine s1); [now injection E as <- <-|].
  unfold bind, push_back, modify, ret in E. simpl in E. injection E as <- <-.
  eapply wf_ext; [| | | |exact (wf_register p2 i s1 name type pos H1 Ei)];
    cbn [ops subroutines activeSubroutines frame set_frame set_subroutines];
    now pushed_fields.
Qed.

Lemma pushSubroutine_wf p name a p' :
  wf opcode p -> pushSubroutine opcode name p = Ok a p' ->
  wf opcode p'
  /\ exists r, (r < length (subroutines p))%nat /\ a = u32 (Z.of_nat r).
Proof.
  intros H E.
  apply pushSubroutine_inv in E as (i & s & r & routine & Ef & Er & El & -> & ->).
  apply list_find_named_Some in Ef as [Ei _].
  pose proof (Forall_lookup_1 _ _ _ _ (wf_current _ H) Ei) as [_ Hr].
  specialize (Hr r Er). split.
  - pose proof (wf_child _ H) as [Hm Hs Ha Hf]. split; simpl; try done.
    apply Forall_app. split; [exact Ha|]. constructor; [exact Hr|constructor].
  - exists r. split; [done|]. now destruct (wf_routines _ _ H r routine El).
Qed.

Lemma removelast_Forall {A} (P : A -> Prop) (l : list A) :
  Forall P l -> Forall P (removelast l).
Proof.
  destruct (last l) as [x|] eqn:E.
  - apply last_Some in E as [l' ->]. rewrite removelast_last.
    intros H. now apply Forall_app in H as [H _].
  - apply last_None in E as ->. auto.
Qed.

Lemma popSubroutine_wf p u p' :
  wf opcode p -> popSubroutine opcode p = Ok u p' -> wf opcode p'.
Proof.
  intros H E. apply popSubroutine_inv in E as (r & routine & El & Er & _ & ->).
  assert (W : wf opcode (emitted (set_frame p (parentOrSelf (frame p)))
                           (assemble opcode [Plain OP.Return]))).
  { apply wf_emitted; [now apply wf_parent|]. constructor; [done|constructor]. }
  unfold emitted in W. simpl in W. rewrite El in W.
  destruct W as [Hm Hs Ha Hf]. unfold returned. split; simpl in *; try done.
  now apply removelast_Forall.
Qed.

Lemma wfFrom_emitted n0 p l :
  wfFrom opcode n0 p -> Forall (validInstr (length (subroutines p))) l ->
  wfFrom opcode n0 (emitted p (assemble opcode l)).
Proof.
  intros [H Hn] Hl. split; [now apply wf_emitted|]. now rewrite emitted_length.
Qed.

Lemma wfFrom_plain n0 p op :
  wfFrom opcode n0 p -> plainOp op = true ->
  wfFrom opcode n0 (emitted p [u8 (opcode op)]).
Proof.
  intros H Hop. apply (wfFrom_emitted n0 p [Plain op] H).
  constructor; [exact Hop|constructor].
Qed.

Lemma wfFrom_literal n0 p op s a :
  wfFrom opcode n0 p -> literalOp op = true ->
  wfFrom opcode n0
    (emitted (stored (emitted p [u8 (opcode op)]) s) (bytesLE 4 a)).
Proof.
  intros H Hop. unfold stored. rewrite emitted_set_storage, emitted_app.
  assert (E : [u8 (opcode op)] ++ bytesLE 4 a
              = assemble opcode [Literal op a]).
  { unfold assemble. cbn [flat_map assemble1]. rewrite app_nil_r. reflexivity. }
  rewrite E.
  destruct (wfFrom_emitted n0 p [Literal op a] H) as [[Hm Hr Ha Hf] Hn].
  { constructor; [exact Hop|constructor]. }
  split; [now split|exact Hn].
Qed.

Lemma emitted_address p bs k x :
  subroutines (emitted p bs) !! k = Some x ->
  exists y, subroutines p !! k = Some y
            /\ Subroutine.address x = Subroutine.address y.
Proof.
  unfold emitted. destruct (last (activeSubroutines p)) as [r|]; simpl; [|eauto].
  destruct (decide (r = k)) as [->|Hne].
  - rewrite list_lookup_alter_eq.
    destruct (subroutines p !! k) as [y|]; [|discriminate].
    intros [= <-]. eauto.
  - rewrite list_lookup_alter_ne by done. eauto.
Qed.

Lemma wfFrom_call n0 p r :
  wfFrom opcode n0 p -> (r < length (subroutines p))%nat ->
  wfFrom opcode n0 (emitted (emitted p [u8 (opcode OP.Call)])
               (bytesLE 4 (u32 (Z.of_nat r)))).
Proof.
  intros H Hr. rewrite emitted_app.
  apply (wfFrom_emitted n0 p [CallTo (u32 (Z.of_nat r))] H).
  constructor; [|constructor]. simpl. unfold u32.
  pose proof (Z.mod_pos_bound (Z.of_nat r) (2 ^ 32) ltac:(lia)).
  pose proof (Z.mod_le (Z.of_nat r) (2 ^ 32) ltac:(lia) ltac:(lia)). lia.
Qed.

Lemma wfFrom_child n0 p bs :
  wfFrom opcode n0 (emitted p bs) ->
  wfFrom opcode n0 (set_frame (emitted p bs)
               (Frame.mk (Some (frame p)) (u32 (Frame.id (frame p) + 1)) [])).
Proof.
  intros [H Hn]. split; [|exact Hn].
  pose proof (wf_child _ H) as W. now rewrite emitted_frame in W.
Qed.

Lemma wfFrom_parent n0 p :
  wfFrom opcode n0 p -> wfFrom opcode n0 (set_frame p (parentOrSelf (frame p))).
Proof. intros [H Hn]. split; [now apply wf_parent|exact Hn]. Qed.

Lemma pushSymbol_wfFrom n0 p name type pos i p' :
  wfFrom opcode n0 p -> pushSymbol name type pos p = Ok i p' ->
  wfFrom opcode n0 p'.
Proof.
  intros [H Hn] E. split; [eapply pushSymbol_wf; eassumption|].
  rewrite pushSymbol_spec in E.
  destruct (list_find _ _) as [[j v]|]; now injection E as <- <-.
Qed.

Lemma pushSymbolForRoutine_wfFrom n0 p name type pos s p' :
  wfFrom opcode n0 p -> pushSymbolForRoutine grow name type pos p = Ok s p' ->
  wfFrom opcode n0 p'.
Proof.
  intros [H Hn] E. split; [eapply pushSymbolForRoutine_wf; eassumption|].
  apply pushSymbolForRoutine_inv in E
    as (i & l & _ & _ & _ & _ & _ & _ & _ & [(v & r & _ & _ & _ & _ & ->)
                                         |(v & _ & _ & ->)]);
    [done|]. rewrite length_app. lia.
Qed.

Lemma pushSubroutine_wfFrom n0 p name a p' :
  wfFrom opcode n0 p -> pushSubroutine opcode name p = Ok a p' ->
  wfFrom opcode n0 p'
  /\ exists r, (r < length (subroutines p))%nat /\ a = u32 (Z.of_nat r).
Proof.
  intros [H Hn] E. destruct (pushSubroutine_wf _ _ _ _ H E) as [W R].
  split; [|exact R]. split; [exact W|].
  now apply pushSubroutine_inv in E as (? & ? & ? & ? & _ & _ & _ & _ & ->).
Qed.

Lemma popSubroutine_wfFrom n0 p u p' :
  wfFrom opcode n0 p -> popSubroutine opcode p = Ok u p' -> wfFrom opcode n0 p'.
Proof.
  intros [H Hn] E. split; [eapply popSubroutine_wf; eassumption|].
  apply popSubroutine_inv in E as (r & routine & _ & _ & _ & ->).
  unfold returned. simpl. now rewrite length_alter.
Qed.

Lemma wfFrom_weaken n0 n1 p :
  (n1 <= n0)%nat -> wfFrom opcode n0 p -> wfFrom opcode n1 p.
Proof. intros Hle [H Hn]. split; [exact H|lia]. Qed.

Lemma typeParameters_wfFrom n0 name pos (l : option (list Node)) p u p' :
  wfFrom opcode n0 p ->
  whenSome l (fun l =>
    forEach l (fun _ =>
      pushSymbol name SymTypeVariable pos ;;; pushOp opcode OP.Var [])) p
  = Ok u p' ->
  wfFrom opcode n0 p'.
Proof.
  destruct l as [l|]; simpl; [|now intros H [= <- <-]].
  intros H. revert p u p' H. apply forEach_inv.
  intros _ q v q' Hq E. apply bind_Ok_inv in E as (i & q1 & H1 & E).
  apply (pushSymbol_wfFrom _ _ _ _ _ _ _ Hq) in H1.
  apply pushOp_inv in E as [_ ->]. now apply wfFrom_plain.
Qed.

Lemma findInChain_valid p name s :
  wf opcode p -> findInChain name (frame p) = Some s ->
  validSymbol (length (subroutines p)) s.
Proof.
  intros H E. apply findInChain_Some in E as (inner & g & outer & i & Hc & _ & Ef).
  pose proof (wf_frames _ _ H) as Hf. rewrite Hc in Hf.
  apply Forall_app in Hf as [_ Hf]. apply Forall_cons_1 in Hf as [Hg _].
  apply list_find_named_Some in Ef as [Ei _].
  exact (Forall_lookup_1 _ _ _ _ Hg Ei).
Qed.

Lemma handle_wfFrom (fuel : nat) :
  forall n0 node p u p',
    wfFrom opcode n0 p -> handle opcode grow fuel node p = Ok u p' ->
    wfFrom opcode n0 p'.
Proof.
  induction fuel as [|fuel IH]; intros n0 node p u p' W H; [discriminate|].
  assert (IHs : forall l n1 q v q', wfFrom opcode n1 q ->
             forEach l (handle opcode grow fuel) q = Ok v q' -> wfFrom opcode n1 q').
  { intros l n1. apply forEach_inv. intros x q v q' Hq E. eapply IH; eassumption. }
  assert (IHo : forall (t : option Node) n1 q v q', wfFrom opcode n1 q ->
             match t with
             | Some t => handle opcode grow fuel t
             | None => pushOp opcode OP.Unknown []
             end q = Ok v q' -> wfFrom opcode n1 q').
  { intros [t|] n1 q v q' Hq Ht; [eapply IH; eassumption|].
    apply pushOp_inv in Ht as [_ ->]. now apply wfFrom_plain. }
  destruct node; cbn [handle] in H.
  - eapply IHs; eassumption.
  - scope_step. now apply wfFrom_plain.
  - scope_step. now apply wfFrom_plain.
  - scope_step. now apply wfFrom_plain.
  - repeat scope_step. now apply wfFrom_literal.
  - repeat scope_step. now apply wfFrom_literal.
  - repeat scope_step. now apply wfFrom_literal.
  - scope_step. now apply wfFrom_plain.
  - scope_step. now apply wfFrom_plain.
  - (* UnionType *)
    apply bind_Ok_inv in H as (f & p1 & H1 & H).
    apply bind_Ok_inv in H as (u2 & p2 & H2 & H).
    apply bind_Ok_inv in H as (u3 & p3 & H3 & H).
    apply pushFrame_inv in H1 as (-> & _ & ->).
    apply (IHs _ n0) in H2;
      [|now apply wfFrom_child, wfFrom_plain].
    apply pushOp_inv in H3 as [_ ->].
    rewrite popFrameImplicit_spec in H. injection H as <- <-.
    now apply wfFrom_parent, wfFrom_plain.
  - (* TypeReference *)
    apply bind_Ok_inv in H as (s & p1 & H1 & H).
    apply findSymbol_inv in H1 as [-> H1].
    destruct W as [Wf Wn].
    destruct (findInChain_valid _ _ _ Wf H1) as [Ht Hr]. rewrite Ht in H.
    apply bind_Ok_inv in H as (u2 & p2 & H2 & H).
    apply pushOp_inv in H2 as [_ ->].
    destruct (Symbol.routine s) as [r|]; [|discriminate].
    specialize (Hr r eq_refl).
    apply bind_Ok_inv in H as (routine & p3 & H3 & H).
    apply deref_inv in H3 as (-> & H3 & _).
    apply emitted_address in H3 as (y & Hy & Ey).
    destruct (wf_routines _ _ Wf r y Hy) as [_ Ea].
    rewrite Ey, Ea in H. apply pushAddress_inv in H as [_ ->].
    apply wfFrom_call; [now split|done].
  - (* TypeAliasDeclaration *)
    apply bind_Ok_inv in H as (s & p1 & H1 & H).
    apply (pushSymbolForRoutine_wfFrom _ _ _ _ _ _ _ W) in H1.
    destruct (Symbol.declarations s >? 1); [now scope_step|].
    apply bind_Ok_inv in H as (a & p2 & H2 & H).
    apply bind_Ok_inv in H as (u3 & p3 & H3 & H).
    apply bind_Ok_inv in H as (u4 & p4 & H4 & H).
    apply (pushSubroutine_wfFrom _ _ _ _ _ H1) in H2 as [H2 _].
    apply (typeParameters_wfFrom _ _ _ _ _ _ _ H2) in H3.
    apply (IH _ _ _ _ _ H3) in H4.
    eapply popSubroutine_wfFrom; eassumption.
  - (* FunctionDeclaration *)
    destruct name as [[id idpos]|]; simpl in H; [|now scope_step].
    apply bind_Ok_inv in H as (s & p1 & H1 & H).
    apply (pushSymbolForRoutine_wfFrom _ _ _ _ _ _ _ W) in H1.
    destruct (Symbol.declarations s >? 1); [now scope_step|].
    apply bind_Ok_inv in H as (a & p2 & H2 & H).
    apply bind_Ok_inv in H as (u3 & p3 & H3 & H).
    apply bind_Ok_inv in H as (u4 & p4 & H4 & H).
    apply bind_Ok_inv in H as (u5 & p5 & H5 & H).
    apply (pushSubroutine_wfFrom _ _ _ _ _ H1) in H2 as [H2 _].
    assert (W3 : wfFrom opcode n0 p3).
    { revert H2 H3. apply forEach_inv. intros _ q v q' Hq E.
      eapply IH; eassumption. }
    apply (IHo _ _ _ _ _ W3) in H4. apply pushOp_inv in H5 as [_ ->].
    eapply popSubroutine_wfFrom; [|eassumption]. now apply wfFrom_plain.
  - eapply IHs; eassumption.
  - (* VariableDeclaration *)
    destruct name as [[id idpos]|]; simpl in H; [|now scope_step].
    apply bind_Ok_inv in H as (s & p1 & H1 & H).
    apply (pushSymbolForRoutine_wfFrom _ _ _ _ _ _ _ W) in H1.
    destruct (Symbol.declarations s >? 1); [now scope_step|].
    apply bind_Ok_inv in H as (a & p2 & H2 & H).
    apply bind_Ok_inv in H as (u3 & p3 & H3 & H).
    apply bind_Ok_inv in H as (u4 & p4 & H4 & H).
    destruct H1 as [W1 N1].
    assert (W1' : wfFrom opcode (length (subroutines p1)) p1) by (split; [done|lia]).
    apply (pushSubroutine_wfFrom _ _ _ _ _ W1') in H2 as [H2 (r & Hr & ->)].
    apply (IHo _ _ _ _ _ H2) in H3.
    apply (popSubroutine_wfFrom _ _ _ _ H3) in H4.
    destruct initializer as [e|]; simpl in H.
    + apply bind_Ok_inv in H as (u5 & p5 & H5 & H).
      apply (IH _ _ _ _ _ H4) in H5.
      apply bind_Ok_inv in H as (u6 & p6 & H6 & H).
      apply pushOp_inv in H6 as [_ ->].
      apply bind_Ok_inv in H as (u7 & p7 & H7 & H).
      apply pushAddress_inv in H7 as [_ ->].
      apply pushOp_inv in H as [_ ->].
      apply wfFrom_plain; [|done]. apply (wfFrom_weaken (length (subroutines p1)));
        [lia|]. apply wfFrom_call; [done|]. destruct H5. lia.
    + scope_step. apply (wfFrom_weaken (length (subroutines p1))); [lia|done].
  - now scope_step.
Qed.

(** *** Bytes *)

Lemma length_bytesLE n v : length (bytesLE n v) = n.
Proof.
  unfold bytesLE. revert v. induction n as [|n IH]; intros v; simpl;
    [reflexivity|]. now rewrite IH.
Qed.

Lemma bytesLE4 v :
  bytesLE 4 v
  = [v mod 256; v / 256 mod 256; v / 256 / 256 mod 256;
     v / 256 / 256 / 256 mod 256].
Proof. reflexivity. Qed.

Lemma bytes4_value v :
  v mod 256 + 256 * (v / 256 mod 256) + 65536 * (v / 256 / 256 mod 256)
  + 16777216 * (v / 256 / 256 / 256 mod 256)
  = v mod 2 ^ 32.
Proof.
  change (2 ^ 32) with (256 * (256 * (256 * 256))).
  rewrite !Z.rem_mul_r by lia. lia.
Qed.

Lemma lookup_app_plus {A} (pre l : list A) j :
  (pre ++ l) !! (length pre + j)%nat = l !! j.
Proof. rewrite lookup_app_r by lia. f_equal. lia. Qed.

Lemma readUint32_at pre v post :
  readUint32 (pre ++ bytesLE 4 v ++ post) (length pre) = Some (v mod 2 ^ 32).
Proof.
  unfold readUint32. rewrite bytesLE4.
  rewrite <- (Nat.add_0_r (length pre)) at 1. rewrite !lookup_app_plus.
  simpl. f_equal. apply bytes4_value.
Qed.

Lemma writeBytes_at pre old post bs :
  length old = length bs ->
  writeBytes (pre ++ old ++ post) (length pre) bs = pre ++ bs ++ post.
Proof.
  intros H. unfold writeBytes.
  rewrite take_app_length. f_equal. f_equal.
  rewrite drop_app_ge by lia.
  replace (length pre + length bs - length pre)%nat with (length old) by lia.
  now rewrite drop_app_length.
Qed.

Lemma writeUint32_at pre old post v :
  length old = 4%nat ->
  writeUint32 (pre ++ old ++ post) (length pre) v = pre ++ bytesLE 4 v ++ post.
Proof.
  intros H. unfold writeUint32. apply writeBytes_at.
  now rewrite length_bytesLE.
Qed.

Lemma length_bytesOf s : length (bytesOf s) = String.length s.
Proof.
  unfold bytesOf. rewrite length_map.
  induction s as [|c s IH]; simpl; [reflexivity|]. now rewrite IH.
Qed.

(** *** Buffers *)

Lemma writeBuffer_spec target o p :
  writeBuffer target o p = Ok tt (withBuffer target p o).
Proof. now destruct target. Qed.

Lemma readBuffer_withBuffer target p o o' :
  readBuffer target p = Ok o p ->
  readBuffer target (withBuffer target p o')
  = Ok o' (withBuffer target p o').
Proof.
  destruct target as [k|]; simpl; [|reflexivity].
  unfold bind, lookupRoutine, ret. simpl.
  destruct (subroutines p !! k) eqn:E; [|discriminate]. intros _.
  now rewrite list_lookup_alter_eq, E.
Qed.

Lemma withBuffer_withBuffer target p o1 o2 :
  withBuffer target (withBuffer target p o1) o2 = withBuffer target p o2.
Proof.
  destruct target as [k|]; simpl; [|reflexivity].
  unfold set_subroutines. simpl. f_equal.
  rewrite list_alter_alter_eq. now apply list_alter_ext.
Qed.

Lemma withBuffer_same target p o :
  readBuffer target p = Ok o p -> withBuffer target p o = p.
Proof.
  destruct target as [k|]; simpl.
  - unfold bind, lookupRoutine, ret.
    destruct (subroutines p !! k) as [x|] eqn:E; [|discriminate].
    intros [= <-]. destruct p as [o s si f a subs]. unfold set_subroutines.
    simpl in *. f_equal. apply list_eq. intros j.
    destruct (decide (k = j)) as [->|Hne].
    + rewrite list_lookup_alter_eq, E. simpl. now destruct x.
    + now rewrite list_lookup_alter_ne.
  - intros [= <-]. now destruct p.
Qed.

Lemma addressOf_withBuffer target p o k :
  addressOf (withBuffer target p o) k = addressOf p k.
Proof.
  destruct target as [j|]; [|reflexivity]. unfold addressOf. simpl.
  destruct (decide (j = k)) as [->|Hne].
  - rewrite list_lookup_alter_eq. now destruct (subroutines p !! k).
  - now rewrite list_lookup_alter_ne.
Qed.

Lemma length_withBuffer target p o :
  length (subroutines (withBuffer target p o)) = length (subroutines p).
Proof. destruct target; simpl; [apply length_alter|reflexivity]. Qed.

(** *** The address-patching pass *)

Section Pass.

Hypothesis codes : codesOk opcode.

Lemma u8_code op : u8 (opcode op) = opcode op.
Proof. unfold u8. apply Z.mod_small. destruct codes as [Hb _]. apply Hb. Qed.

Lemma isOp_same op : isOp opcode (u8 (opcode op)) op = true.
Proof. unfold isOp. rewrite u8_code. apply Z.eqb_refl. Qed.

Lemma isOp_other op op' : op <> op' -> isOp opcode (u8 (opcode op)) op' = false.
Proof.
  intros Hne. unfold isOp. rewrite u8_code. apply Z.eqb_neq.
  intros E. destruct codes as [_ Hi]. now apply Hi in E.
Qed.

Lemma assemble_cons i l :
  assemble opcode (i :: l) = assemble1 opcode i ++ assemble opcode l.
Proof. reflexivity. Qed.

Lemma length_assemble1_relocate start i :
  length (assemble1 opcode (relocate start i)) = length (assemble1 opcode i).
Proof. destruct i; simpl; now rewrite ?length_bytesLE. Qed.

Lemma length_assemble_relocate start l :
  length (assemble opcode (map (relocate start) l))
  = length (assemble opcode l).
Proof.
  induction l as [|i l IH]; [reflexivity|]. simpl map.
  rewrite !assemble_cons, !length_app, IH. f_equal.
  apply length_assemble1_relocate.
Qed.

Lemma relocate_ext start start' l :
  (forall k, start k = start' k) ->
  map (relocate start) l = map (relocate start') l.
Proof.
  intros H. apply map_ext. intros [op|k|op a]; simpl; [done| |done].
  now rewrite H.
Qed.

Lemma patchFrom_spec target :
  forall l pre p fuel,
    readBuffer target p = Ok (pre ++ assemble opcode l) p ->
    Forall (validInstr (length (subroutines p))) l ->
    Z.of_nat (length (subroutines p)) <= 2 ^ 32 ->
    (length (assemble opcode l) < fuel)%nat ->
    patchFrom opcode fuel target (length (pre ++ assemble opcode l))
      (length pre) p
    = Ok tt (withBuffer target p
               (pre ++ assemble opcode (map (relocate (addressOf p)) l))).
Proof.
  induction l as [|i l IH]; intros pre p fuel Hread Hvalid Hn Hfuel.
  - destruct fuel; [simpl in Hfuel; lia|]. cbn [patchFrom map].
    change (assemble opcode []) with (@nil Z) in *. rewrite app_nil_r in *.
    rewrite Nat.ltb_irrefl. unfold ret. now rewrite withBuffer_same.
  - destruct fuel; [simpl in Hfuel; lia|].
    rewrite assemble_cons in Hread, Hfuel. rewrite length_app in Hfuel.
    apply Forall_cons_1 in Hvalid as [Hi Hvalid].
    cbn [patchFrom].
    assert (Hlt : (length pre <? length (pre ++ assemble opcode (i :: l)))%nat
                  = true).
    { apply Nat.ltb_lt. rewrite assemble_cons, !length_app.
      destruct i; simpl; lia. }
    rewrite Hlt. unfold bind at 1. rewrite Hread.
    assert (Hend : forall bs, length bs = length (assemble1 opcode i) ->
              length (pre ++ assemble opcode (i :: l))
              = length ((pre ++ bs) ++ assemble opcode l)).
    { intros bs Hbs. rewrite assemble_cons, !length_app, Hbs. lia. }
    destruct i as [op|k|op a]; cbn [assemble1 app] in *.
    + (* an opcode without operand *)
      rewrite list_lookup_middle by reflexivity.
      assert (E : isOp opcode (u8 (opcode op)) OP.Call = false
                  /\ isOp opcode (u8 (opcode op)) OP.Loads = false
                  /\ isOp opcode (u8 (opcode op)) OP.NumberLiteral = false
                  /\ isOp opcode (u8 (opcode op)) OP.BigIntLiteral = false
                  /\ isOp opcode (u8 (opcode op)) OP.StringLiteral = false).
      { destruct op; try discriminate Hi;
          repeat split; apply isOp_other; discriminate. }
      destruct E as (-> & -> & -> & -> & ->). cbn [orb].
      rewrite (Hend [u8 (opcode op)]) by reflexivity.
      replace (length pre + 1)%nat with (length (pre ++ [u8 (opcode op)]))
        by (rewrite length_app; simpl; lia).
      rewrite IH; try done.
      * simpl map. rewrite assemble_cons. cbn [relocate assemble1].
        now rewrite <- app_assoc.
      * now rewrite <- app_assoc.
      * simpl in Hfuel. lia.
    + (* a call *)
      rewrite list_lookup_middle by reflexivity. rewrite isOp_same.
      replace (pre ++ u8 (opcode OP.Call) :: bytesLE 4 k ++ assemble opcode l)
        with ((pre ++ [u8 (opcode OP.Call)]) ++ bytesLE 4 k
              ++ assemble opcode l) by now rewrite <- app_assoc.
      replace (length pre + 1)%nat
        with (length (pre ++ [u8 (opcode OP.Call)]))
        by (rewrite length_app; simpl; lia).
      rewrite readUint32_at. simpl in Hi.
      rewrite Z.mod_small by lia.
      unfold bind at 1. unfold lookupRoutine at 1.
      destruct (subroutines p !! Z.to_nat k) as [routine|] eqn:Ek.
      2:{ apply lookup_ge_None in Ek. lia. }
      unfold bind at 1. rewrite writeBuffer_spec.
      rewrite writeUint32_at by apply length_bytesLE.
      set (a := Subroutine.address routine).
      rewrite (app_assoc (pre ++ [u8 (opcode OP.Call)]) (bytesLE 4 a)).
      set (p1 := withBuffer target p _).
      assert (Hread1 : readBuffer target p1
                       = Ok (((pre ++ [u8 (opcode OP.Call)]) ++ bytesLE 4 a)
                             ++ assemble opcode l) p1).
      { unfold p1. eapply readBuffer_withBuffer, Hread. }
      replace (length (pre ++ assemble opcode (CallTo k :: l)))
        with (length (((pre ++ [u8 (opcode OP.Call)]) ++ bytesLE 4 a)
                        ++ assemble opcode l))
        by (rewrite assemble_cons, !length_app; simpl; lia).
      replace (length pre + 4 + 1)%nat
        with (length ((pre ++ [u8 (opcode OP.Call)]) ++ bytesLE 4 a))
        by (rewrite !length_app, !length_bytesLE; simpl; lia).
      rewrite IH; try done.
      * assert (Ea : addressOf p (Z.to_nat k) = a)
          by (unfold addressOf; now rewrite Ek).
        rewrite (relocate_ext (addressOf p1) (addressOf p))
          by (intros j; apply addressOf_withBuffer).
        unfold p1. rewrite withBuffer_withBuffer. f_equal.
        cbn [map]. rewrite assemble_cons. cbn [relocate assemble1].
        rewrite Ea, <- !app_assoc. reflexivity.
      * unfold p1. now rewrite length_withBuffer.
      * unfold p1. now rewrite length_withBuffer.
      * simpl in Hfuel. lia.
    + (* a literal *)
      rewrite list_lookup_middle by reflexivity.
      assert (E : isOp opcode (u8 (opcode op)) OP.Call = false
                  /\ (isOp opcode (u8 (opcode op)) OP.Loads
                      || isOp opcode (u8 (opcode op)) OP.NumberLiteral
                      || isOp opcode (u8 (opcode op)) OP.BigIntLiteral
                      || isOp opcode (u8 (opcode op)) OP.StringLiteral = true)).
      { destruct op; try discriminate Hi; split;
          try (apply isOp_other; discriminate);
          rewrite isOp_same, ?orb_true_r; reflexivity. }
      destruct E as (-> & ->).
      rewrite (Hend (u8 (opcode op) :: bytesLE 4 a)) by reflexivity.
      replace (length pre + 4 + 1)%nat
        with (length (pre ++ u8 (opcode op) :: bytesLE 4 a))
        by (rewrite length_app; simpl; lia).
      rewrite IH; try done.
      * simpl map. rewrite assemble_cons. cbn [relocate assemble1].
        now rewrite <- app_assoc.
      * now rewrite <- app_assoc.
      * simpl in Hfuel. lia.
Qed.

Lemma setFinalBinaryAddress_spec target l p :
  readBuffer target p = Ok (assemble opcode l) p ->
  Forall (validInstr (length (subroutines p))) l ->
  Z.of_nat (length (subroutines p)) <= 2 ^ 32 ->
  setFinalBinaryAddress opcode target p
  = Ok tt (withBuffer target p
             (assemble opcode (map (relocate (addressOf p)) l))).
Proof.
  intros Hread Hvalid Hn. unfold setFinalBinaryAddress, bind. rewrite Hread.
  apply (patchFrom_spec target l [] p); try done. lia.
Qed.

End Pass.

(** *** Laying out the binary *)

Lemma u32_small z : 0 <= z < 2 ^ 32 -> u32 z = z.
Proof. apply Z.mod_small. Qed.

Lemma storeItems_spec items :
  forall bin,
    Z.of_nat (length bin + length (poolBytes items)) < 2 ^ 32 ->
    storeItems items bin (Z.of_nat (length bin))
    = (bin ++ poolBytes items,
       Z.of_nat (length (bin ++ poolBytes items))).
Proof.
  induction items as [|item items IH]; intros bin Hlt.
  - simpl. now rewrite app_nil_r.
  - cbn [storeItems poolBytes flat_map] in *.
    rewrite Nat2Z.id. unfold writeUint16. rewrite writeBytes_end.
    fold (poolBytes items) in *.
    rewrite !length_app, length_bytesLE, length_bytesOf in Hlt.
    assert (E : u32 (Z.of_nat (length bin)
                     + (2 + Z.of_nat (String.length item)))
                = Z.of_nat (length ((bin ++ bytesLE 2 (Z.of_nat (String.length item)))
                                    ++ bytesOf item))).
    { rewrite !length_app, length_bytesLE, length_bytesOf.
      rewrite u32_small; lia. }
    rewrite E, IH.
    + now rewrite <- !app_assoc.
    + rewrite !length_app, length_bytesLE, length_bytesOf. lia.
Qed.

Lemma appendRoutines_spec routines :
  forall bin,
    Z.of_nat (length bin + length (concat (map Subroutine.ops routines)))
    < 2 ^ 32 ->
    appendRoutines routines bin (Z.of_nat (length bin))
    = (bin ++ concat (map Subroutine.ops routines),
       Z.of_nat (length (bin ++ concat (map Subroutine.ops routines)))).
Proof.
  induction routines as [|r routines IH]; intros bin Hlt.
  - simpl. now rewrite app_nil_r.
  - cbn [appendRoutines map concat] in *. rewrite length_app in Hlt.
    assert (E : u32 (Z.of_nat (length bin) + size (Subroutine.ops r))
                = Z.of_nat (length (bin ++ Subroutine.ops r))).
    { rewrite length_app. unfold size. rewrite u32_small; lia. }
    rewrite E, IH.
    + now rewrite <- !app_assoc.
    + rewrite length_app. lia.
Qed.

Lemma assignAddresses_lookup routines :
  forall a k r,
    Z.of_nat (a + length (concat (map Subroutine.ops routines))) < 2 ^ 32 ->
    assignAddresses routines (Z.of_nat a) !! k = Some r ->
    exists r0, routines !! k = Some r0
      /\ r = Subroutine.set_address r0
               (Z.of_nat (a + length (concat (map Subroutine.ops
                                                (take k routines))))).
Proof.
  induction routines as [|x routines IH]; intros a k r Hlt Hk;
    [discriminate|].
  cbn [assignAddresses map concat] in *. rewrite length_app in Hlt.
  destruct k as [|k].
  - injection Hk as <-. exists x. split; [reflexivity|]. simpl.
    now rewrite Nat.add_0_r.
  - simpl in Hk.
    assert (E : u32 (Z.of_nat a + size (Subroutine.ops x))
                = Z.of_nat (a + length (Subroutine.ops x))).
    { unfold size. rewrite u32_small; lia. }
    rewrite E in Hk. apply IH in Hk as (r0 & Hr0 & ->); [|lia].
    exists r0. split; [exact Hr0|]. simpl. rewrite length_app.
    do 2 f_equal. lia.
Qed.

Lemma length_assignAddresses routines a :
  length (assignAddresses routines a) = length routines.
Proof.
  revert a. induction routines as [|x routines IH]; intros a; simpl;
    [reflexivity|]. now rewrite IH.
Qed.

Lemma streams_code n (routines : list Subroutine.t) :
  (forall k r, routines !! k = Some r ->
     streamOf opcode n (Subroutine.ops r)) ->
  exists code,
    map Subroutine.ops routines = map (assemble opcode) code
    /\ Forall (Forall (validInstr n)) code.
Proof.
  induction routines as [|r routines IH]; intros H.
  - exists []. split; [reflexivity|constructor].
  - destruct (H 0%nat r eq_refl) as (l & Hl & Hv).
    destruct IH as (code & Hc & Hvs).
    { intros k x Hk. exact (H (S k) x Hk). }
    exists (l :: code). split; [simpl; now rewrite Hl, Hc|now constructor].
Qed.

Lemma relocate_ext_valid n f g l :
  Forall (validInstr n) l ->
  (forall k, (k < n)%nat -> f k = g k) ->
  map (relocate f) l = map (relocate g) l.
Proof.
  intros Hv H. induction Hv as [|i l Hi Hv IH]; [reflexivity|].
  simpl. rewrite IH. f_equal. destruct i as [op|k|op a]; simpl; try done.
  simpl in Hi. rewrite H; [done|lia].
Qed.

(** The loop of [build] over the registry: once the routines from [j] on are
    patched too, every routine holds its relocated code, and addresses and
    main buffer are as before. *)
Lemma patchRoutines_spec (codes : codesOk opcode) (code : list (list instr))
  (start : nat -> Z) (n : nat) :
  length code = n ->
  Forall (Forall (validInstr n)) code ->
  Z.of_nat n <= 2 ^ 32 ->
  forall m j q,
    (j + m = n)%nat ->
    length (subroutines q) = n ->
    (forall k, (k < n)%nat -> addressOf q k = start k) ->
    (forall k r l, subroutines q !! k = Some r -> code !! k = Some l ->
       Subroutine.ops r
       = if (k <? j)%nat then assemble opcode (map (relocate start) l)
         else assemble opcode l) ->
    exists q',
      forEach (seq j m) (fun k => setFinalBinaryAddress opcode (Some k)) q
      = Ok tt q'
      /\ ops q' = ops q
      /\ length (subroutines q') = n
      /\ (forall k, addressOf q' k = addressOf q k)
      /\ (forall k r l, subroutines q' !! k = Some r -> code !! k = Some l ->
            Subroutine.ops r = assemble opcode (map (relocate start) l)).
Proof.
  intros Hcode Hvalid Hn. induction m as [|m IH]; intros j q Hj Hlen Ha Hops.
  - exists q. repeat split; try done. intros k r l Hk Hl.
    rewrite (Hops k r l Hk Hl).
    apply lookup_lt_Some in Hk. replace (k <? j)%nat with true; [done|].
    symmetry. apply Nat.ltb_lt. lia.
  - cbn [seq forEach].
    destruct (lookup_lt_is_Some_2 (subroutines q) j ltac:(lia)) as [r Hr].
    destruct (lookup_lt_is_Some_2 code j ltac:(lia)) as [l Hl].
    pose proof (Hops j r l Hr Hl) as Er. rewrite Nat.ltb_irrefl in Er.
    assert (Hv : Forall (validInstr n) l)
      by exact (Forall_lookup_1 _ _ _ _ Hvalid Hl).
    assert (Hread : readBuffer (Some j) q = Ok (assemble opcode l) q).
    { simpl. unfold bind, lookupRoutine, ret. now rewrite Hr, Er. }
    unfold bind at 1.
    rewrite (setFinalBinaryAddress_spec codes (Some j) l q Hread)
      by (rewrite Hlen; done).
    rewrite (relocate_ext_valid n (addressOf q) start l Hv Ha).
    set (q1 := withBuffer (Some j) q _).
    destruct (IH (S j) q1) as (q' & Hq' & Ho & Hl' & Ha' & Hops').
    + lia.
    + unfold q1. now rewrite length_withBuffer.
    + intros k Hk. unfold q1. rewrite addressOf_withBuffer. now apply Ha.
    + intros k x lx Hk Hlx. unfold q1 in Hk. simpl in Hk.
      destruct (decide (j = k)) as [->|Hne].
      * rewrite list_lookup_alter_eq, Hr in Hk. injection Hk as <-.
        replace (k <? S k)%nat with true by (symmetry; apply Nat.ltb_lt; lia).
        simpl. congruence.
      * rewrite list_lookup_alter_ne in Hk by done.
        rewrite (Hops k x lx Hk Hlx).
        destruct (k <? j)%nat eqn:E1, (k <? S j)%nat eqn:E2; try done.
        -- apply Nat.ltb_lt in E1. apply Nat.ltb_ge in E2. lia.
        -- apply Nat.ltb_ge in E1. apply Nat.ltb_lt in E2. lia.
    + exists q'. split; [exact Hq'|]. split; [exact Ho|].
      split; [exact Hl'|]. split; [|exact Hops'].
      intros k. rewrite (Ha' k). unfold q1. apply addressOf_withBuffer.
Qed.

Lemma map_ops_lookup (routines : list Subroutine.t) (code : list (list instr))
  (f : list instr -> list Z) :
  length routines = length code ->
  (forall k r l, routines !! k = Some r -> code !! k = Some l ->
     Subroutine.ops r = f l) ->
  map Subroutine.ops routines = map f code.
Proof.
  intros Hlen H. apply list_eq. intros k. rewrite !list_lookup_fmap.
  destruct (routines !! k) as [r|] eqn:Er, (code !! k) as [l|] eqn:El; simpl.
  - f_equal. exact (H k r l Er El).
  - apply lookup_lt_Some in Er. apply lookup_ge_None in El. lia.
  - apply lookup_lt_Some in El. apply lookup_ge_None in Er. lia.
  - reflexivity.
Qed.

Lemma length_concat_relocate start code :
  length (concat (map (fun l => assemble opcode (map (relocate start) l)) code))
  = length (concat (map (assemble opcode) code)).
Proof.
  induction code as [|l code IH]; [reflexivity|]. simpl.
  now rewrite !length_app, IH, length_assemble_relocate.
Qed.

(** *** [build] *)

Lemma build_spec (codes : codesOk opcode) (p : Program) (main : list instr)
  (code : list (list instr)) :
  ops p = assemble opcode main ->
  map Subroutine.ops (subroutines p) = map (assemble opcode) code ->
  Forall (validInstr (length code)) main ->
  Forall (Forall (validInstr (length code))) code ->
  storage p <> [] \/ subroutines p <> [] ->
  Z.of_nat (mainOffset p) < 2 ^ 32 ->
  Z.of_nat (length (subroutines p)) <= 2 ^ 32 ->
  let start := fun k =>
    Z.of_nat (5 + length (poolBytes (storage p))
              + length (concat (map (assemble opcode) (take k code)))) in
  let link := fun l => assemble opcode (map (relocate start) l) in
  exists p',
    build opcode p
    = Ok (u8 (opcode OP.Jump) :: bytesLE 4 (start (length code))
          ++ poolBytes (storage p) ++ concat (map link code) ++ link main) p'
    /\ ops p' = link main
    /\ map Subroutine.ops (subroutines p') = map link code
    /\ (forall k, (k < length code)%nat -> addressOf p' k = start k).
Proof.
  intros Hmain Hcode Hvmain Hvcode Hne Hsize Hn start link.
  assert (Hlen : length (subroutines p) = length code).
  { apply (f_equal length) in Hcode. now rewrite !length_map in Hcode. }
  unfold mainOffset in Hsize.
  unfold build.
  assert (Hhead :
    buildHeader opcode p
    = ([u8 (opcode OP.Jump); 0; 0; 0; 0],
       Z.of_nat (length [u8 (opcode OP.Jump); 0; 0; 0; 0]))).
  { unfold buildHeader. destruct (storage p), (subroutines p); try reflexivity.
    destruct Hne; congruence. }
  rewrite Hhead.
  set (head := [u8 (opcode OP.Jump); 0; 0; 0; 0]).
  rewrite storeItems_spec by (simpl; lia).
  set (bin1 := head ++ poolBytes (storage p)).
  assert (Hbin1 : length bin1 = (5 + length (poolBytes (storage p)))%nat).
  { unfold bin1. now rewrite length_app. }
  unfold bind at 1. unfold modify at 1.
  set (p0 := set_subroutines p _).
  assert (Hlen0 : length (subroutines p0) = length code).
  { unfold p0. simpl. now rewrite length_assignAddresses. }
  assert (Htake : forall k,
            concat (map Subroutine.ops (take k (subroutines p)))
            = concat (map (assemble opcode) (take k code))).
  { intros k. now rewrite <- !firstn_map, Hcode. }
  assert (Hp0 : forall k r, subroutines p0 !! k = Some r ->
            exists r0, subroutines p !! k = Some r0
                       /\ r = Subroutine.set_address r0 (start k)).
  { intros k r Hk. unfold p0 in Hk. cbn [subroutines set_subroutines] in Hk.
    apply assignAddresses_lookup in Hk as (r0 & Hr0 & ->);
      [|rewrite Hbin1; lia].
    exists r0. split; [done|]. unfold start. now rewrite Hbin1, Htake. }
  assert (Haddr0 : forall k, (k < length code)%nat -> addressOf p0 k = start k).
  { intros k Hk. unfold addressOf.
    destruct (lookup_lt_is_Some_2 (subroutines p0) k ltac:(lia)) as [r Hr].
    rewrite Hr. now apply Hp0 in Hr as (r0 & _ & ->). }
  (* the main buffer *)
  unfold bind at 1.
  assert (Hread0 : readBuffer None p0 = Ok (assemble opcode main) p0)
    by (simpl; now rewrite Hmain).
  rewrite (setFinalBinaryAddress_spec codes None main p0 Hread0)
    by (rewrite Hlen0; first [done|lia]).
  rewrite (relocate_ext_valid _ (addressOf p0) start main Hvmain Haddr0).
  set (q := withBuffer None p0 _).
  (* the routines *)
  destruct (patchRoutines_spec codes code start (length code) eq_refl Hvcode
              ltac:(lia) (length code) 0%nat q) as (q' & Hq' & Ho & Hl' & Ha' & Hops').
  { reflexivity. }
  { exact Hlen0. }
  { intros k Hk. unfold q. rewrite addressOf_withBuffer. now apply Haddr0. }
  { intros k r l Hk Hl. simpl in Hk. apply Hp0 in Hk as (r0 & Hr0 & ->).
    simpl. apply (f_equal (fun x => x !! k)) in Hcode.
    rewrite !list_lookup_fmap, Hr0, Hl in Hcode. now injection Hcode. }
  unfold bind at 1. rewrite Hlen, Hq'.
  assert (Hsubs : map Subroutine.ops (subroutines q') = map link code).
  { apply map_ops_lookup; [exact Hl'|]. exact Hops'. }
  assert (Hcat : length (concat (map link code))
                 = length (concat (map Subroutine.ops (subroutines p)))).
  { unfold link. now rewrite length_concat_relocate, Hcode. }
  rewrite appendRoutines_spec by (rewrite Hsubs, Hcat, Hbin1; lia).
  rewrite Hsubs.
  exists q'. split; [|split; [|split; [exact Hsubs|]]].
  - f_equal.
    assert (Estart : Z.of_nat (length (bin1 ++ concat (map link code)))
                     = start (length code)).
    { rewrite length_app, Hcat, Hbin1. unfold start.
      now rewrite firstn_all, <- Hcode. }
    rewrite Estart, Ho. unfold q. simpl ops. unfold bin1, head.
    change (writeUint32 (([u8 (opcode OP.Jump); 0; 0; 0; 0]
                          ++ poolBytes (storage p)) ++ concat (map link code))
              1 (start (length code)))
      with (writeUint32 ([u8 (opcode OP.Jump)] ++ [0; 0; 0; 0]
                         ++ (poolBytes (storage p) ++ concat (map link code)))
              (length [u8 (opcode OP.Jump)]) (start (length code))).
    rewrite writeUint32_at by reflexivity.
    now rewrite <- !app_assoc.
  - now rewrite Ho.
  - intros k Hk. rewrite Ha'. unfold q. rewrite addressOf_withBuffer.
    now apply Haddr0.
Qed.

Lemma drop_prefix (pre mid post l : list Z) n :
  length pre = n -> l = pre ++ mid ++ post ->
  take (length mid) (drop n l) = mid.
Proof.
  intros <- ->. rewrite drop_app_length. apply take_app_length.
Qed.


Lemma wf_emptyProgram : wf opcode emptyProgram.
Proof.
  split; simpl.
  - apply streamOf_nil.
  - intros k routine Hk. discriminate.
  - constructor.
  - repeat constructor.
Qed.

Lemma compile_wf fuel file u p :
  compileSourceFile opcode grow fuel file = Ok u p -> wf opcode p.
Proof.
  intros H. apply (handle_wfFrom fuel 0%nat file emptyProgram u p); [|exact H].
  split; [apply wf_emptyProgram|simpl; lia].
Qed.



(** *** Where the code departs from its own comments *)

(** C3.  [registerStorage] has no lookup (the [storageMap] meant to
    deduplicate is never filled): interning the payload "12" twice stores it
    twice and returns two offsets, 5 and 9. *)
Theorem registerStorage_twice :
  (a1 <- registerStorage "12" ;;
   a2 <- registerStorage "12" ;;
   ret (a1, a2)) emptyProgram
  = Ok (5, 9) (set_storage emptyProgram ["12"; "12"]%string 13).
Proof. reflexivity. Qed.

(** The ranges of two payloads interned one after the other: the first
    starts at 5 in a fresh program, the second where the first ends, 2 plus
    the length of the first payload further. *)
Lemma registerStorage_ranges (s1 s2 : string) :
  Z.of_nat (String.length s1) < 2 ^ 32 - 7 ->
  (a1 <- registerStorage s1 ;;
   a2 <- registerStorage s2 ;;
   ret (a1, a2)) emptyProgram
  = Ok (5, 5 + (2 + Z.of_nat (String.length s1)))
       (set_storage emptyProgram [s1; s2]
          (u32 (5 + (2 + Z.of_nat (String.length s1))
                + (2 + Z.of_nat (String.length s2))))).
Proof.
  intros H. unfold bind, registerStorage, ret. simpl.
  rewrite u32_small by lia.
  destruct (5 + (2 + Z.of_nat (String.length s1)) =? 0) eqn:E;
    [apply Z.eqb_eq in E; lia|reflexivity].
Qed.

(** C4.  [pushSymbol] drops the kind it is given: the symbol of a type
    parameter is stored with the first enumerator.  A reference that resolves
    to it takes the [Call] branch, where the symbol has no routine to read the
    address from. *)
Theorem typeVariable_reference (fuel : nat) :
  (exists p,
     pushSymbol "T" SymTypeVariable 7 emptyProgram = Ok 0%nat p
     /\ (Symbol.type <$> Frame.symbols (frame p) !! 0%nat) = Some SymVariable
     /\ handle opcode grow (S fuel) (TypeReference "T") p = Undefined)
  /\ compileSourceFile opcode grow (S (S (S fuel)))
       (SourceFile
          [TypeAliasDeclaration "A" 0 (Some [OtherKind]) (TypeReference "A")])
     = Undefined.
Proof.
  split; [eexists; split; [reflexivity|split; reflexivity]|reflexivity].
Qed.

(** C2.  [pushSymbolAddress] writes two 4-byte values after [Loads], and the
    pass of [build] steps over four bytes only: it then reads the low byte of
    the slot index as an opcode.  For a symbol whose slot index is the value of
    [Call], it takes the bytes that follow for a registry index and reads past
    the end of the buffer. *)
Theorem loads_operand_read_as_opcode (p : Program) (s : Symbol.t) :
  codesOk opcode ->
  ops p = [] ->
  activeSubroutines p = [] ->
  Symbol.index s = opcode OP.Call ->
  (pushOp opcode OP.Loads [] ;;; pushSymbolAddress s) p
  = Ok tt (set_ops p (u8 (opcode OP.Loads)
                      :: bytesLE 4 (Symbol.frame s)
                      ++ bytesLE 4 (Symbol.index s)))
  /\ (pushOp opcode OP.Loads [] ;;; pushSymbolAddress s ;;;
      setFinalBinaryAddress opcode None) p = Undefined.
Proof.
  intros codes Ho Ha Hs.
  assert (V : targetValid p) by (unfold targetValid; now rewrite Ha).
  assert (E : (pushOp opcode OP.Loads [] ;;; pushSymbolAddress s) p
              = Ok tt (set_ops p (u8 (opcode OP.Loads)
                                  :: bytesLE 4 (Symbol.frame s)
                                  ++ bytesLE 4 (Symbol.index s)))).
  { unfold bind at 1. rewrite pushOp_ok by done.
    destruct (targetValid_getOPs _ (emitted_targetValid p [u8 (opcode OP.Loads)] V))
      as [o Hgo].
    unfold pushSymbolAddress, bind. rewrite Hgo.
    unfold writeUint32. rewrite !writeBytes_end, <- app_assoc.
    pose proof (emit_spec _ o (bytesLE 4 (Symbol.frame s)
                               ++ bytesLE 4 (Symbol.index s)) Hgo) as Em.
    unfold bind in Em. rewrite Hgo in Em. rewrite Em, emitted_app.
    unfold emitted. now rewrite Ha, Ho. }
  split; [exact E|].
  unfold bind at 1. unfold bind at 1 in E.
  destruct (pushOp opcode OP.Loads [] p) as [[] q| | |]; try discriminate.
  unfold bind at 1. rewrite E.
  unfold setFinalBinaryAddress, bind. cbn [readBuffer ops set_ops].
  rewrite bytesLE4, bytesLE4. cbn [length app patchFrom Nat.ltb Nat.leb bind].
  unfold bind at 1. cbn [readBuffer ops set_ops lookup list_lookup].
  assert (L1 : isOp opcode (u8 (opcode OP.Loads)) OP.Call = false)
    by (apply isOp_other; [done|discriminate]).
  assert (L2 : isOp opcode (u8 (opcode OP.Loads)) OP.Loads = true)
    by now apply isOp_same.
  rewrite L1, L2. cbn [orb Nat.add patchFrom Nat.ltb Nat.leb].
  unfold bind at 1. cbn [readBuffer ops set_ops lookup list_lookup].
  assert (L3 : isOp opcode (Symbol.index s mod 256) OP.Call = true).
  { rewrite Hs. change (opcode OP.Call mod 256) with (u8 (opcode OP.Call)).
    now apply isOp_same. }
  rewrite L3. reflexivity.
Qed.

End Properties.

(** ** Worked examples *)

Lemma sampleCode_ok : codesOk sampleCode.
Proof.
  split.
  - intros op. destruct op; simpl; lia.
  - intros a b. destruct a, b; simpl; intros H; try reflexivity; discriminate.
Qed.



(** C2, witness: the twelfth symbol of a frame, with [Call] numbered 11. *)
Lemma loads_operand_read_as_opcode_witness :
  codesOk sampleCode
  /\ ops twelveSymbols = []
  /\ activeSubroutines twelveSymbols = []
  /\ Symbol.index twelfthSymbol = sampleCode OP.Call
  /\ Frame.symbols (frame twelveSymbols) !! 11%nat = Some twelfthSymbol
  /\ (pushOp sampleCode OP.Loads [] ;;; pushSymbolAddress twelfthSymbol ;;;
      setFinalBinaryAddress sampleCode None) twelveSymbols = Undefined.
Proof.
  split; [exact sampleCode_ok|]. do 4 (split; [reflexivity|]).
  exact (proj2 (loads_operand_read_as_opcode sampleCode twelveSymbols
                  twelfthSymbol sampleCode_ok eq_refl eq_refl eq_refl)).
Defined.

(** C5, witness: [type A = number;] then [type A = string;]. *)
Lemma alias_redeclaration_idempotent_witness :
  ~ declares "A" (frame emptyProgram)
  /\ handle sampleCode doubling 2 (TypeAliasDeclaration "A" 0 None NumberKeyword)
       emptyProgram = Ok tt aliasDeclared
  /\ exists p2,
       handle sampleCode doubling 1 (TypeAliasDeclaration "A" 20 None StringKeyword)
         aliasDeclared = Ok tt p2
       /\ subroutines p2 = subroutines aliasDeclared
       /\ ops p2 = ops aliasDeclared.
Proof.
  assert (H1 : ~ declares "A" (frame emptyProgram)).
  { intros H. inversion H. }
  assert (H2 : handle sampleCode doubling 2
                 (TypeAliasDeclaration "A" 0 None NumberKeyword) emptyProgram
               = Ok tt aliasDeclared) by reflexivity.
  split; [exact H1|]. split; [exact H2|].
  destruct (alias_redeclaration_idempotent sampleCode doubling 2 0 "A" 0 20
              None None
              NumberKeyword StringKeyword emptyProgram aliasDeclared H1 H2)
    as (i & s & p2 & _ & _ & Hh & _ & _ & _ & _ & _ & _ & Hs & Ho & _).
  exists p2. auto.
Defined.

(** C6, counterexample.  A frame is pushed under the root and gets a symbol;
    it is popped and another frame is pushed under the root: the two frames
    differ, and both have id 1. *)
Lemma sibling_frames_share_id :
  exists first second : Frame.t,
    (c1 <- pushFrame sampleCode true ;;
     pushSymbol "T" SymTypeVariable 0 ;;;
     first <- (fun p => Ok (frame p) p) ;;
     popFrameImplicit ;;;
     second <- pushFrame sampleCode true ;;
     ret (first, second)) emptyProgram
    = Ok (first, second) (set_frame emptyProgram second)
    /\ first <> second
    /\ Frame.previous first = Some Frame.root
    /\ Frame.previous second = Some Frame.root
    /\ Frame.id first = 1
    /\ Frame.id second = 1.
Proof.
  eexists _, _. split; [reflexivity|]. repeat split. discriminate.
Qed.

(** C6, witness. *)
Lemma frame_id_parent_plus_one_witness :
  0 <= Frame.id (frame emptyProgram) < 2 ^ 32 - 1
  /\ pushFrame sampleCode true emptyProgram
     = Ok (Frame.mk (Some Frame.root) 1 [])
          (set_frame emptyProgram (Frame.mk (Some Frame.root) 1 []))
  /\ Frame.id (Frame.mk (Some Frame.root) 1 []) = Frame.id Frame.root + 1.
Proof.
  assert (H1 : 0 <= Frame.id (frame emptyProgram) < 2 ^ 32 - 1)
    by (simpl; lia).
  assert (H2 : pushFrame sampleCode true emptyProgram
               = Ok (Frame.mk (Some Frame.root) 1 [])
                    (set_frame emptyProgram (Frame.mk (Some Frame.root) 1 [])))
    by reflexivity.
  split; [exact H1|]. split; [exact H2|].
  destruct (frame_id_parent_plus_one sampleCode true emptyProgram _ _ H1 H2)
    as (_ & _ & H & _).
  exact H.
Defined.

(** C7, witness. *)
Lemma union_number_string_witness :
  targetValid emptyProgram
  /\ handle sampleCode doubling 2 (UnionType [NumberKeyword; StringKeyword]) emptyProgram
     = Ok tt (set_ops emptyProgram [16; 3; 2; 9]).
Proof.
  split; [exact I|].
  exact (union_number_string sampleCode doubling 0 emptyProgram I).
Defined.

(** C9, witness: leaving the routine of [A] before anything was emitted. *)
Lemma popSubroutine_not_atomic_witness :
  last (activeSubroutines enteredA) = Some 0%nat
  /\ subroutines enteredA !! 0%nat = Some (Subroutine.mk [] "A" 0 0 SymType)
  /\ (length (subroutines enteredA) <= 0 + live enteredA)%nat
  /\ popSubroutine sampleCode enteredA
     = Throw EmptyRoutine (set_frame enteredA (parentOrSelf (frame enteredA)))
  /\ Frame.id (frame enteredA) = 1
  /\ Frame.id (parentOrSelf (frame enteredA)) = 0.
Proof.
  assert (H : (length (subroutines enteredA) <= 0 + live enteredA)%nat)
    by (simpl; lia).
  split; [reflexivity|]. split; [reflexivity|]. split; [exact H|].
  split; [|split; reflexivity].
  exact (proj1 (popSubroutine_not_atomic sampleCode enteredA 0
                  (Subroutine.mk [] "A" 0 0 SymType) eq_refl eq_refl H
                  eq_refl)).
Defined.

(** C10, witness: inside the routine of [A], the alias [A] itself is declared
    by the enclosing frame only. *)
Lemma pushSubroutine_current_frame_only_witness :
  ~ declares "A" (frame enteredA)
  /\ Exists (declares "A") (chain (parentOrSelf (frame enteredA)))
  /\ pushSubroutine sampleCode "A" enteredA = Throw UnknownRoutine enteredA
  /\ exists s, findSymbol "A" enteredA = Ok s enteredA.
Proof.
  assert (H1 : ~ declares "A" (frame enteredA)).
  { intros H. inversion H. }
  assert (H2 : Exists (declares "A") (chain (parentOrSelf (frame enteredA)))).
  { constructor. constructor. reflexivity. }
  split; [exact H1|]. split; [exact H2|].
  destruct (pushSubroutine_current_frame_only sampleCode enteredA "A"
              (parentOrSelf (frame enteredA)) H1 eq_refl H2)
    as (Hp & s & Hs & _).
  split; [exact Hp|]. exists s. exact Hs.
Defined.

(** ** Further properties *)

Section Further.

Variable opcode : OP.t -> Z.
Variable grow : nat -> nat.

(** *** The storage pool *)

Lemma poolBytes_app l1 l2 : poolBytes (l1 ++ l2) = poolBytes l1 ++ poolBytes l2.
Proof. unfold poolBytes. apply flat_map_app. Qed.

Lemma length_poolBytes_cons s l :
  length (poolBytes (s :: l)) = (2 + String.length s + length (poolBytes l))%nat.
Proof.
  unfold poolBytes. cbn [flat_map].
  rewrite !length_app, length_bytesLE, length_bytesOf. lia.
Qed.

Lemma findStorageFrom_entry l :
  forall i k s,
    0 <= i ->
    i + Z.of_nat (length (poolBytes l)) < 2 ^ 32 ->
    l !! k = Some s ->
    findStorageFrom l i (i + Z.of_nat (length (poolBytes (take k l)))) = s.
Proof.
  induction l as [|x l IH]; intros i k s Hi Hfit Hk; [discriminate|].
  rewrite length_poolBytes_cons in Hfit. destruct k as [|k].
  - injection Hk as ->. simpl. rewrite Z.add_0_r, Z.eqb_refl. reflexivity.
  - simpl in Hk. cbn [take findStorageFrom]. rewrite length_poolBytes_cons.
    destruct (i =? _) eqn:E; [apply Z.eqb_eq in E; lia|].
    rewrite u32_small by lia.
    rewrite <- (IH (i + (2 + Z.of_nat (String.length x))) k s); try done;
      try lia.
    f_equal. lia.
Qed.

Lemma findStorageFrom_miss l :
  forall i index,
    0 <= i ->
    i + Z.of_nat (length (poolBytes l)) < 2 ^ 32 ->
    (forall k, (k < length l)%nat ->
       index <> i + Z.of_nat (length (poolBytes (take k l)))) ->
    findStorageFrom l i index = "!unknown"%string.
Proof.
  induction l as [|x l IH]; intros i index Hi Hfit Hmiss; [reflexivity|].
  rewrite length_poolBytes_cons in Hfit. cbn [findStorageFrom].
  destruct (i =? index) eqn:E.
  - apply Z.eqb_eq in E. exfalso. apply (Hmiss 0%nat); simpl; lia.
  - rewrite u32_small by lia. apply IH; try lia.
    intros k Hk E'. apply (Hmiss (S k)); [simpl; lia|].
    cbn [take]. rewrite length_poolBytes_cons. lia.
Qed.

Lemma findStorage_last l s :
  5 + Z.of_nat (length (poolBytes (l ++ [s]))) < 2 ^ 32 ->
  findStorageFrom (l ++ [s]) 5 (5 + Z.of_nat (length (poolBytes l))) = s.
Proof.
  intros Hfit.
  rewrite <- (take_app_length l [s]) at 2.
  apply findStorageFrom_entry; [lia|lia|].
  rewrite lookup_app_r, Nat.sub_diag by lia. reflexivity.
Qed.

(** X1.  Interning and looking up: in a program whose [storageIndex] is in
    step with its pool, [registerStorage] returns the start of the new, last
    entry, 5 plus the size of the pool so far; [findStorage] of that offset
    gives the payload back, and [storageIndex] stays in step. *)
Theorem registerStorage_findStorage (p : Program) (s : string) :
  storageOk p ->
  5 + Z.of_nat (length (poolBytes (storage p ++ [s]))) < 2 ^ 32 ->
  exists a p',
    registerStorage s p = Ok a p'
    /\ a = entryStart (storage p') (length (storage p))
    /\ a = 5 + Z.of_nat (length (poolBytes (storage p)))
    /\ storage p' = storage p ++ [s]
    /\ findStorage a p' = s
    /\ storageOk p'.
Proof.
  intros Hok Hfit. unfold registerStorage.
  eexists _, _. split; [reflexivity|]. cbn [storage storageIndex set_storage].
  rewrite poolBytes_app, length_app in Hfit.
  assert (Hlast : length (poolBytes [s]) = (2 + String.length s)%nat).
  { rewrite length_poolBytes_cons. simpl. lia. }
  assert (Htake : take (length (storage p)) (storage p ++ [s]) = storage p)
    by apply take_app_length.
  split; [|split; [exact Hok|split; [reflexivity|split]]].
  - unfold entryStart. now rewrite Htake.
  - unfold findStorage. cbn [storage set_storage]. rewrite Hok.
    apply findStorage_last. rewrite poolBytes_app, length_app. lia.
  - unfold storageOk. cbn [storage storageIndex set_storage].
    rewrite Hok, poolBytes_app, length_app, Hlast.
    rewrite u32_small by lia.
    destruct (_ =? 0) eqn:E; [apply Z.eqb_eq in E; lia|lia].
Qed.

(** X2.  [findStorage] by offset: the start of entry [k] gives entry [k]; an
    offset that is the start of no entry, for instance one below 5, gives
    "!unknown". *)
Theorem findStorage_by_offset (p : Program) (index : Z) :
  5 + Z.of_nat (length (poolBytes (storage p))) < 2 ^ 32 ->
  (forall k s, storage p !! k = Some s ->
     findStorage (entryStart (storage p) k) p = s)
  /\ ((forall k, (k < length (storage p))%nat ->
         index <> entryStart (storage p) k) ->
      findStorage index p = "!unknown"%string)
  /\ (index < 5 -> findStorage index p = "!unknown"%string).
Proof.
  intros Hfit. unfold findStorage, entryStart.
  assert (Hmiss : (forall k, (k < length (storage p))%nat ->
                     index <> 5 + Z.of_nat (length (poolBytes
                                                      (take k (storage p))))) ->
                  findStorageFrom (storage p) 5 index = "!unknown"%string).
  { intros H. apply findStorageFrom_miss; [lia|lia|exact H]. }
  split; [|split; [exact Hmiss|]].
  - intros k s Hk. apply findStorageFrom_entry; [lia|lia|exact Hk].
  - intros Hlt. apply Hmiss. intros k _. lia.
Qed.


(** *** Literals and references *)

Lemma emitted_storage_fields p bs :
  storage (emitted p bs) = storage p
  /\ storageIndex (emitted p bs) = storageIndex p.
Proof. unfold emitted. now destruct (last _). Qed.

Lemma literal_emission op text p :
  targetValid p ->
  (pushOp opcode op [] ;;; pushStorage text) p
  = Ok tt (emitted (stored p text)
             (u8 (opcode op)
              :: bytesLE 4 (if storageIndex p =? 0 then 5
                            else storageIndex p))).
Proof.
  intros V. unfold bind at 1. rewrite pushOp_ok by done.
  unfold pushStorage, bind, registerStorage.
  destruct (emitted_storage_fields p [u8 (opcode op)]) as [Es Ei].
  rewrite Es, Ei.
  rewrite pushAddress_ok by now apply emitted_targetValid.
  unfold stored. now rewrite !emitted_set_storage, emitted_app.
Qed.

(** X3.  A literal node emits its opcode followed by the 4-byte offset at
    which its text is interned, into the buffer being filled; its text
    becomes the last entry of the pool, and [findStorage] of the emitted
    offset finds it. *)
Theorem literal_interned (fuel : nat) (p : Program) (text : string) :
  targetValid p ->
  storageOk p ->
  5 + Z.of_nat (length (poolBytes (storage p ++ [text]))) < 2 ^ 32 ->
  let a := 5 + Z.of_nat (length (poolBytes (storage p))) in
  let after := fun op => emitted (stored p text) (u8 (opcode op) :: bytesLE 4 a) in
  handle opcode grow (S fuel) (NumericLiteral text) p
  = Ok tt (after OP.NumberLiteral)
  /\ handle opcode grow (S fuel) (BigIntLiteral text) p
     = Ok tt (after OP.BigIntLiteral)
  /\ handle opcode grow (S fuel) (StringLiteral text) p
     = Ok tt (after OP.StringLiteral)
  /\ forall op, storage (after op) = storage p ++ [text]
                /\ findStorage a (after op) = text.
Proof.
  intros V Hok Hfit a after. unfold after, a. cbn [handle].
  rewrite !literal_emission by done. rewrite Hok.
  repeat split.
  - now destruct (emitted_storage_fields (stored p text)
                    (u8 (opcode op)
                     :: bytesLE 4 (5 + Z.of_nat (length (poolBytes (storage p))))))
      as [-> _].
  - unfold findStorage.
    destruct (emitted_storage_fields (stored p text)
                (u8 (opcode op)
                 :: bytesLE 4 (5 + Z.of_nat (length (poolBytes (storage p))))))
      as [-> _].
    now apply findStorage_last.
Qed.

Lemma deref_emitted p bs r routine :
  subroutines p !! r = Some routine ->
  (length (subroutines p) <= r + live p)%nat ->
  exists routine',
    deref r (emitted p bs) = Ok routine' (emitted p bs)
    /\ Subroutine.address routine' = Subroutine.address routine.
Proof.
  intros H Hv.
  assert (E : exists routine',
             subroutines (emitted p bs) !! r = Some routine'
             /\ Subroutine.address routine' = Subroutine.address routine).
  { unfold emitted.
    destruct (last (activeSubroutines p)) as [k|];
      cbn [subroutines set_subroutines set_ops].
    - destruct (decide (k = r)) as [->|Hne].
      + rewrite list_lookup_alter_eq, H. simpl. eauto.
      + rewrite list_lookup_alter_ne, H by done. eauto.
    - rewrite H. eauto. }
  destruct E as (routine' & E & Ea). exists routine'. split; [|exact Ea].
  apply deref_ok; [exact E|]. now rewrite emitted_length, emitted_live.
Qed.

Lemma deref_emitted_stale p bs r :
  (r + live p < length (subroutines p))%nat ->
  deref r (emitted p bs) = Undefined.
Proof.
  intros H. apply deref_stale. now rewrite emitted_length, emitted_live.
Qed.

(** The branch of [handle] for a reference to a symbol that is no type
    variable. *)
Lemma reference_branch fuel p name s :
  findInChain name (frame p) = Some s ->
  Symbol.type s <> SymTypeVariable ->
  handle opcode grow (S fuel) (TypeReference name) p
  = (pushOp opcode OP.Call [] ;;;
     match Symbol.routine s with
     | Some r =>
         routine <- deref r ;;
         pushAddress (Subroutine.address routine)
     | None => fun _ => Undefined
     end) p.
Proof.
  intros Hs Ht. cbn [handle]. unfold bind at 1. unfold findSymbol. rewrite Hs.
  destruct (Symbol.type s); try reflexivity. contradiction.
Qed.

Lemma reference_call p name s r routine :
  targetValid p ->
  findInChain name (frame p) = Some s ->
  Symbol.type s <> SymTypeVariable ->
  Symbol.routine s = Some r ->
  subroutines p !! r = Some routine ->
  (length (subroutines p) <= r + live p)%nat ->
  forall fuel,
    handle opcode grow (S fuel) (TypeReference name) p
    = Ok tt (emitted p (u8 (opcode OP.Call)
                        :: bytesLE 4 (Subroutine.address routine))).
Proof.
  intros V Hs Ht Hr Hl Hv fuel. rewrite (reference_branch _ _ _ s) by done.
  unfold bind at 1. rewrite pushOp_ok by done. rewrite Hr.
  destruct (deref_emitted p [u8 (opcode OP.Call)] r routine Hl Hv)
    as (routine' & Hl' & Ha).
  unfold bind. rewrite Hl', Ha.
  rewrite pushAddress_ok by now apply emitted_targetValid.
  now rewrite emitted_app.
Qed.

Lemma reference_stale p name s r :
  targetValid p ->
  findInChain name (frame p) = Some s ->
  Symbol.type s <> SymTypeVariable ->
  Symbol.routine s = Some r ->
  (r + live p < length (subroutines p))%nat ->
  forall fuel,
    handle opcode grow (S fuel) (TypeReference name) p = Undefined.
Proof.
  intros V Hs Ht Hr Hv fuel. rewrite (reference_branch _ _ _ s) by done.
  unfold bind at 1. rewrite pushOp_ok by done. rewrite Hr.
  unfold bind. now rewrite deref_emitted_stale.
Qed.

(** X4.  A type reference, for a symbol that is not a type variable.  When
    the name resolves to a symbol whose routine pointer is valid, [Call] and
    the 4-byte [address] field of that routine are appended to the buffer
    being filled and nothing else changes.  When the pointer dangles, the
    routine having been registered before the registry was last reallocated,
    or when the symbol has no routine, reading the address has no behaviour.
    When the name does not resolve, "No symbol for ... found" is thrown and
    the program is untouched. *)
Theorem reference_emits_call (fuel : nat) (p : Program) (name : string) :
  targetValid p ->
  (forall s r routine,
     findInChain name (frame p) = Some s ->
     Symbol.type s <> SymTypeVariable ->
     Symbol.routine s = Some r ->
     subroutines p !! r = Some routine ->
     (length (subroutines p) <= r + live p)%nat ->
     handle opcode grow (S fuel) (TypeReference name) p
     = Ok tt (emitted p (u8 (opcode OP.Call)
                         :: bytesLE 4 (Subroutine.address routine))))
  /\ (forall s r,
       findInChain name (frame p) = Some s ->
       Symbol.type s <> SymTypeVariable ->
       Symbol.routine s = Some r ->
       (r + live p < length (subroutines p))%nat ->
       handle opcode grow (S fuel) (TypeReference name) p = Undefined)
  /\ (forall s,
       findInChain name (frame p) = Some s ->
       Symbol.type s <> SymTypeVariable ->
       Symbol.routine s = None ->
       handle opcode grow (S fuel) (TypeReference name) p = Undefined)
  /\ (findInChain name (frame p) = None ->
      handle opcode grow (S fuel) (TypeReference name) p
      = Throw UnresolvedSymbol p).
Proof.
  intros V. split; [|split; [|split]].
  - intros s r routine Hs Ht Hr Hl Hv.
    now apply (reference_call p name s r routine).
  - intros s r Hs Ht Hr Hv. now apply (reference_stale p name s r).
  - intros s Hs Ht Hr. rewrite (reference_branch _ _ _ s) by done.
    unfold bind at 1. rewrite pushOp_ok by done. now rewrite Hr.
  - intros Hs. cbn [handle]. unfold bind, findSymbol. now rewrite Hs.
Qed.


(** *** Declarations *)

Lemma pushed_set_frame routine p f :
  pushed grow routine (set_frame p f) = set_frame (pushed grow routine p) f.
Proof.
  unfold pushed. cbn [capacity subroutines set_frame].
  now destruct (_ <=? _)%nat.
Qed.

Lemma pushed_replace routine routine' p :
  set_subroutines (pushed grow routine p) (subroutines p ++ [routine'])
  = pushed grow routine' p.
Proof. unfold pushed. now destruct (_ <=? _)%nat. Qed.

Lemma registered_subroutines p name type pos :
  subroutines (registered grow p name type pos)
  = subroutines p ++ [freshRoutine p name type pos].
Proof.
  unfold registered. cbn [subroutines set_frame]. apply pushed_subroutines.
Qed.

Lemma registered_live p name type pos :
  (1 <= live (registered grow p name type pos))%nat.
Proof. unfold registered. cbn [live set_frame]. apply pushed_live. Qed.

Lemma registered_active p name type pos :
  activeSubroutines (registered grow p name type pos) = activeSubroutines p.
Proof.
  unfold registered. cbn [activeSubroutines set_frame]. apply pushed_active.
Qed.

Lemma pushSymbolForRoutine_fresh p name type pos :
  ~ declares name (frame p) ->
  pushSymbolForRoutine grow name type pos p
  = Ok (Symbol.set_routine (freshSymbol (frame p) name pos)
          (Some (length (subroutines p))))
       (registered grow p name type pos).
Proof.
  intros Hn. apply list_find_named_None in Hn.
  unfold pushSymbolForRoutine, bind. rewrite pushSymbol_spec, Hn.
  unfold getSymbol. cbn [frame set_frame Frame.symbols Frame.set_symbols].
  rewrite lookup_app_r, Nat.sub_diag by lia. cbn [lookup list_lookup].
  cbn [Symbol.routine freshSymbol]. unfold push_back, modify, ret, registered.
  cbn [subroutines set_frame]. rewrite pushed_set_frame.
  cbn [frame set_frame Frame.symbols Frame.set_symbols Frame.previous
       Frame.id].
  rewrite insert_snoc. reflexivity.
Qed.

Lemma pushSubroutine_registered p name type pos :
  ~ declares name (frame p) ->
  pushSubroutine opcode name (registered grow p name type pos)
  = Ok (u32 (size (subroutines p)))
       (entered (registered grow p name type pos) (length (subroutines p))).
Proof.
  intros Hn. unfold pushSubroutine.
  assert (Hf : list_find (named name)
                 (Frame.symbols (frame (registered grow p name type pos)))
               = Some (length (Frame.symbols (frame p)),
                       Symbol.set_routine (freshSymbol (frame p) name pos)
                         (Some (length (subroutines p)))))
    by now apply list_find_named_snoc.
  rewrite Hf. unfold bind at 1. rewrite pushFrame_implicit.
  cbn [Symbol.routine Symbol.set_routine]. unfold bind at 1.
  unfold modify at 1. unfold bind.
  rewrite (deref_ok _ _ (freshRoutine p name type pos)).
  - reflexivity.
  - cbn [subroutines set_activeSubroutines set_frame].
    rewrite registered_subroutines.
    now rewrite lookup_app_r, Nat.sub_diag by lia.
  - cbn [subroutines live set_activeSubroutines set_frame].
    rewrite registered_subroutines, length_app.
    pose proof (registered_live p name type pos). cbn [length]. lia.
Qed.

(** X5.  A function declaration with at least one parameter, under a name
    its frame does not declare yet, never returns: [handle] hands the
    declaration itself back to [handle] for the first parameter, in a fresh
    frame where the name is new again.  No amount of fuel gives an outcome. *)
Theorem function_with_parameter_diverges (fuel : nat) (p : Program)
  (id : string) (pos : Z) (parameter : Node) (parameters : list Node)
  (type body : option Node) :
  ~ declares id (frame p) ->
  handle opcode grow fuel
    (FunctionDeclaration (Some (id, pos)) (parameter :: parameters) type body) p
  = OutOfFuel.
Proof.
  revert p. induction fuel as [|fuel IH]; intros p Hn; [reflexivity|].
  cbn [handle whenSome]. unfold bind at 1.
  rewrite pushSymbolForRoutine_fresh by done.
  change (Symbol.declarations _ >? 1) with false. cbv iota.
  unfold bind at 1. rewrite pushSubroutine_registered by done.
  unfold bind at 1. cbn [forEach]. unfold bind at 1.
  rewrite IH; [reflexivity|].
  intros H. inversion H.
Qed.

(** X6.  [handle] is balanced: whatever it compiles, when it returns the
    current frame has the parent and the id it started with and the same
    routines are active; so a compiled source unit ends in the root frame with
    no routine active. *)
Theorem handle_keeps_scope (fuel : nat) (node : Node) (p p' : Program) :
  handle opcode grow fuel node p = Ok tt p' ->
  Frame.previous (frame p') = Frame.previous (frame p)
  /\ Frame.id (frame p') = Frame.id (frame p)
  /\ activeSubroutines p' = activeSubroutines p
  /\ (p = emptyProgram ->
      Frame.previous (frame p') = None /\ Frame.id (frame p') = 0
      /\ activeSubroutines p' = []).
Proof.
  intros H. apply handle_sameScope in H as [Hp Hi Ha].
  split; [exact Hp|]. split; [exact Hi|]. split; [exact Ha|].
  intros ->. now rewrite Hp, Hi, Ha.
Qed.


(** *** The patching pass on any buffer *)

Lemma readUint32_Some_length o j v :
  readUint32 o j = Some v -> (j + 4 <= length o)%nat.
Proof.
  unfold readUint32.
  destruct (o !! j), (o !! (j + 1)%nat), (o !! (j + 2)%nat),
    (o !! (j + 3)%nat) eqn:E; try discriminate.
  intros _. apply lookup_lt_Some in E. lia.
Qed.

Lemma length_writeUint32_inside o j a :
  (j + 4 <= length o)%nat -> length (writeUint32 o j a) = length o.
Proof.
  intros H. unfold writeUint32, writeBytes.
  rewrite !length_app, length_take, length_drop, length_bytesLE. lia.
Qed.

Lemma patchFrom_keeps_length target end_ :
  forall fuel i p u p' b,
    patchFrom opcode fuel target end_ i p = Ok u p' ->
    readBuffer target p = Ok b p ->
    exists o, p' = withBuffer target p o /\ length o = length b.
Proof.
  induction fuel as [|fuel IH]; intros i p u p' b H Hb; [discriminate|].
  cbn [patchFrom] in H. destruct (i <? end_)%nat.
  2:{ injection H as <- <-. exists b. split; [|reflexivity].
      symmetry. now apply withBuffer_same. }
  unfold bind at 1 in H. rewrite Hb in H.
  destruct (b !! i) as [op|]; [|discriminate].
  destruct (isOp opcode op OP.Call).
  - destruct (readUint32 b (i + 1)) as [index|] eqn:Er; [|discriminate].
    unfold bind at 1 in H. unfold lookupRoutine at 1 in H.
    destruct (subroutines p !! Z.to_nat index) as [routine|]; [|discriminate].
    unfold bind at 1 in H. rewrite writeBuffer_spec in H.
    apply readUint32_Some_length in Er.
    set (o1 := writeUint32 b (i + 1) (Subroutine.address routine)) in H.
    assert (Hl : length o1 = length b)
      by now apply length_writeUint32_inside.
    destruct (IH _ _ _ _ o1 H (readBuffer_withBuffer _ _ _ o1 Hb))
      as (o & -> & Ho).
    exists o. rewrite withBuffer_withBuffer. split; [reflexivity|lia].
  - destruct (_ || _); eapply IH; eassumption.
Qed.

(** X7.  Whatever bytes a buffer holds, when [setFinalBinaryAddress]
    returns, the program differs from the one it started with in that buffer
    only, and the buffer has the length it had: the pass overwrites, it never
    inserts or removes a byte, and it touches no other buffer, no address, no
    frame and no storage. *)
Theorem setFinalBinaryAddress_keeps_length (target : option nat)
  (p p' : Program) (b : list Z) :
  readBuffer target p = Ok b p ->
  setFinalBinaryAddress opcode target p = Ok tt p' ->
  exists o,
    p' = withBuffer target p o
    /\ length o = length b
    /\ readBuffer target p' = Ok o p'
    /\ (forall k, addressOf p' k = addressOf p k)
    /\ length (subroutines p') = length (subroutines p)
    /\ (forall other, other <> target ->
          forall x, readBuffer other p = Ok x p ->
                    readBuffer other p' = Ok x p')
    /\ frame p' = frame p /\ storage p' = storage p
    /\ activeSubroutines p' = activeSubroutines p.
Proof.
  intros Hb H. unfold setFinalBinaryAddress, bind in H. rewrite Hb in H.
  destruct (patchFrom_keeps_length target _ _ _ _ _ _ b H Hb) as (o & -> & Ho).
  exists o. split; [reflexivity|]. split; [exact Ho|].
  split; [now apply readBuffer_withBuffer with (o := b)|].
  split; [intros k; apply addressOf_withBuffer|].
  split; [apply length_withBuffer|].
  split; [|destruct target; repeat split].
  intros other Hne x Hx.
  destruct target as [k|], other as [j|]; simpl in *; try congruence.
  - unfold bind, lookupRoutine, ret in *. simpl.
    rewrite list_lookup_alter_ne by congruence.
    destruct (subroutines p !! j); [|discriminate]. now injection Hx as <-.
  - unfold bind, lookupRoutine, ret in *. cbn [subroutines set_ops].
    destruct (subroutines p !! j); [|discriminate]. now injection Hx as <-.
Qed.

Lemma patchFrom_no_call target :
  forall fuel i p b,
    readBuffer target p = Ok b p ->
    Forall (fun x => x <> opcode OP.Call) b ->
    (length b <= fuel + i)%nat ->
    patchFrom opcode (S fuel) target (length b) i p = Ok tt p.
Proof.
  induction fuel as [|fuel IH]; intros i p b Hb Hno Hfuel.
  - cbn [patchFrom]. simpl in Hfuel.
    replace (i <? length b)%nat with false; [reflexivity|].
    symmetry. apply Nat.ltb_ge. lia.
  - remember (S fuel) as f eqn:Ef. cbn [patchFrom]. subst f.
    destruct (i <? length b)%nat eqn:Hi; [|reflexivity].
    apply Nat.ltb_lt in Hi. unfold bind at 1. rewrite Hb.
    destruct (lookup_lt_is_Some_2 b i Hi) as [op Hop]. rewrite Hop.
    assert (E : isOp opcode op OP.Call = false).
    { apply Z.eqb_neq. exact (Forall_lookup_1 _ _ _ _ Hno Hop). }
    rewrite E. destruct (_ || _); apply IH; try done; lia.
Qed.

(** X8.  A buffer none of whose bytes has the value of [Call] (operand bytes
    included) goes through [setFinalBinaryAddress] untouched: the pass
    returns, and the program is the one it started with. *)
Theorem setFinalBinaryAddress_without_call (target : option nat)
  (p : Program) (b : list Z) :
  readBuffer target p = Ok b p ->
  Forall (fun x => x <> opcode OP.Call) b ->
  setFinalBinaryAddress opcode target p = Ok tt p.
Proof.
  intros Hb Hno. unfold setFinalBinaryAddress, bind. rewrite Hb.
  apply patchFrom_no_call; [exact Hb|exact Hno|lia].
Qed.


(** *** Invariants of [handle] that do not depend on what is emitted *)

Ltac scope_step :=
  match goal with
  | H : pushOp _ _ [] _ = Ok _ _ |- _ => apply pushOp_inv in H as [_ ->]
  | H : pushAddress _ _ = Ok _ _ |- _ => apply pushAddress_inv in H as [_ ->]
  | H : pushStorage _ _ = Ok _ _ |- _ => apply pushStorage_inv in H as [_ ->]
  | H : pushSymbolAddress _ _ = Ok _ _ |- _ =>
      apply pushSymbolAddress_inv in H as [_ ->]
  | H : findSymbol _ _ = Ok _ _ |- _ => apply findSymbol_inv in H as [-> _]
  | H : lookupRoutine _ _ = Ok _ _ |- _ =>
      apply lookupRoutine_inv in H as [-> _]
  | H : deref _ _ = Ok _ _ |- _ => apply deref_inv in H as (-> & _ & _)
  | H : ret _ _ = Ok _ _ |- _ => unfold ret in H; injection H as <- <-
  | H : bind _ _ _ = Ok _ _ |- _ =>
      let a := fresh "a" in let q := fresh "q" in let H1 := fresh "H" in
      apply bind_Ok_inv in H as (a & q & H1 & H)
  end.

Lemma handle_invariant (I : Program -> Prop) :
  (forall p bs, I p -> I (emitted p bs)) ->
  (forall p s, I p -> I (stored p s)) ->
  (forall p, I p -> I (set_frame p (childOf (frame p)))) ->
  (forall p, I p -> I (set_frame p (parentOrSelf (frame p)))) ->
  (forall p name type pos i p',
     I p -> pushSymbol name type pos p = Ok i p' -> I p') ->
  (forall p name type pos s p',
     I p -> pushSymbolForRoutine grow name type pos p = Ok s p' -> I p') ->
  (forall p r, I p ->
     I (set_activeSubroutines p (activeSubroutines p ++ [r]))) ->
  (forall p r, I p -> I (returned opcode p r)) ->
  forall fuel node p u p',
    I p -> handle opcode grow fuel node p = Ok u p' -> I p'.
Proof.
  intros Hemit Hstored Hchild Hparent Hsym Hsymr Hact Hret.
  assert (Hplain : forall p op v p',
            I p -> pushOp opcode op [] p = Ok v p' -> I p').
  { intros p op v p' Hp H. apply pushOp_inv in H as [_ ->]. now apply Hemit. }
  assert (Hlit : forall p op text v p',
            I p -> (pushOp opcode op [] ;;; pushStorage text) p = Ok v p' ->
            I p').
  { intros p op text v p' Hp H. repeat scope_step.
    now apply Hemit, Hstored, Hemit. }
  assert (Henter : forall p name a p',
            I p -> pushSubroutine opcode name p = Ok a p' -> I p').
  { intros p name a p' Hp H.
    apply pushSubroutine_inv in H as (? & ? & r & ? & _ & _ & _ & _ & ->).
    apply (Hact (set_frame p (childOf (frame p))) r). now apply Hchild. }
  assert (Hleave : forall p v p',
            I p -> popSubroutine opcode p = Ok v p' -> I p').
  { intros p v p' Hp H.
    apply popSubroutine_inv in H as (r & ? & _ & _ & _ & ->). now apply Hret. }
  assert (Htps : forall name pos (l : option (list Node)) p v p',
            I p ->
            whenSome l (fun l =>
              forEach l (fun _ =>
                pushSymbol name SymTypeVariable pos ;;;
                pushOp opcode OP.Var [])) p = Ok v p' ->
            I p').
  { intros name pos [l|] p v p' Hp H; simpl in H;
      [|now injection H as <- <-].
    revert p v p' Hp H. apply forEach_inv. intros _ q w q' Hq E.
    apply bind_Ok_inv in E as (i & q1 & H1 & E).
    eapply Hplain; [|exact E]. eapply Hsym; eassumption. }
  induction fuel as [|fuel IH]; intros node p u p' Hp H; [discriminate|].
  assert (IHs : forall l q v q', I q ->
             forEach l (handle opcode grow fuel) q = Ok v q' -> I q').
  { intros l. apply forEach_inv. intros x q v q' Hq E. eapply IH; eassumption. }
  assert (IHo : forall (t : option Node) q v q', I q ->
             match t with
             | Some t => handle opcode grow fuel t
             | None => pushOp opcode OP.Unknown []
             end q = Ok v q' -> I q').
  { intros [t|] q v q' Hq Ht; [eapply IH; eassumption|].
    eapply Hplain; eassumption. }
  destruct node; cbn [handle] in H;
    try (eapply Hplain; eassumption);
    try (eapply Hlit; eassumption);
    try (eapply IHs; eassumption).
  - (* UnionType *)
    apply bind_Ok_inv in H as (f & p1 & H1 & H).
    apply bind_Ok_inv in H as (u2 & p2 & H2 & H).
    apply bind_Ok_inv in H as (u3 & p3 & H3 & H).
    apply pushFrame_inv in H1 as (-> & _ & ->).
    apply IHs in H2.
    2:{ pose proof (Hchild _ (Hemit p [u8 (opcode OP.Frame)] Hp)) as C.
        unfold childOf in C. now rewrite emitted_frame in C. }
    apply (Hplain _ _ _ _ H2) in H3.
    rewrite popFrameImplicit_spec in H. injection H as <- <-.
    now apply Hparent.
  - (* TypeReference *)
    apply bind_Ok_inv in H as (s & p1 & H1 & H).
    apply findSymbol_inv in H1 as [-> _].
    assert (E : forall q v q', I q ->
              (pushOp opcode OP.Call [] ;;;
               match Symbol.routine s with
               | Some r =>
                   routine <- deref r ;;
                   pushAddress (Subroutine.address routine)
               | None => fun _ => Undefined
               end) q = Ok v q' -> I q').
    { intros q v q' Hq E. repeat scope_step.
      destruct (Symbol.routine s); [|discriminate]. repeat scope_step.
      now apply Hemit, Hemit. }
    destruct (Symbol.type s); try (eapply E; eassumption).
    repeat scope_step. now apply Hemit, Hemit.
  - (* TypeAliasDeclaration *)
    apply bind_Ok_inv in H as (s & p1 & H1 & H).
    apply (Hsymr _ _ _ _ _ _ Hp) in H1.
    destruct (Symbol.declarations s >? 1); [now scope_step|].
    apply bind_Ok_inv in H as (a & p2 & H2 & H).
    apply bind_Ok_inv in H as (u3 & p3 & H3 & H).
    apply bind_Ok_inv in H as (u4 & p4 & H4 & H).
    apply (Henter _ _ _ _ H1) in H2. apply (Htps _ _ _ _ _ _ H2) in H3.
    apply (IH _ _ _ _ H3) in H4. exact (Hleave _ _ _ H4 H).
  - (* FunctionDeclaration *)
    destruct name as [[id idpos]|]; simpl in H; [|now scope_step].
    apply bind_Ok_inv in H as (s & p1 & H1 & H).
    apply (Hsymr _ _ _ _ _ _ Hp) in H1.
    destruct (Symbol.declarations s >? 1); [now scope_step|].
    apply bind_Ok_inv in H as (a & p2 & H2 & H).
    apply bind_Ok_inv in H as (u3 & p3 & H3 & H).
    apply bind_Ok_inv in H as (u4 & p4 & H4 & H).
    apply bind_Ok_inv in H as (u5 & p5 & H5 & H).
    apply (Henter _ _ _ _ H1) in H2.
    assert (W3 : I p3).
    { revert H2 H3. apply forEach_inv. intros _ q v q' Hq E.
      eapply IH; eassumption. }
    apply (IHo _ _ _ _ W3) in H4. apply (Hplain _ _ _ _ H4) in H5.
    exact (Hleave _ _ _ H5 H).
  - (* VariableDeclaration *)
    destruct name as [[id idpos]|]; simpl in H; [|now scope_step].
    apply bind_Ok_inv in H as (s & p1 & H1 & H).
    apply (Hsymr _ _ _ _ _ _ Hp) in H1.
    destruct (Symbol.declarations s >? 1); [now scope_step|].
    apply bind_Ok_inv in H as (a & p2 & H2 & H).
    apply bind_Ok_inv in H as (u3 & p3 & H3 & H).
    apply bind_Ok_inv in H as (u4 & p4 & H4 & H).
    apply (Henter _ _ _ _ H1) in H2. apply (IHo _ _ _ _ H2) in H3.
    apply (Hleave _ _ _ H3) in H4.
    destruct initializer as [e|]; simpl in H; [|now scope_step].
    apply bind_Ok_inv in H as (u5 & p5 & H5 & H).
    apply (IH _ _ _ _ H4) in H5.
    repeat scope_step. now apply Hemit, Hemit, Hemit.
  - now scope_step.
Qed.


(** *** Symbol tables *)

Lemma map_name_insert (l : list Symbol.t) i v v' :
  l !! i = Some v -> Symbol.name v' = Symbol.name v ->
  map Symbol.name (<[i := v']> l) = map Symbol.name l.
Proof.
  revert i. induction l as [|x l IH]; intros i Hi Hn; [reflexivity|].
  destruct i as [|i]; simpl in *.
  - injection Hi as ->. now rewrite Hn.
  - now rewrite IH.
Qed.

Lemma frameOk_insert f i v v' :
  frameOk f ->
  Frame.symbols f !! i = Some v ->
  Symbol.name v' = Symbol.name v ->
  Symbol.index v' = Symbol.index v ->
  Symbol.frame v' = Symbol.frame v ->
  frameOk (Frame.set_symbols f (<[i := v']> (Frame.symbols f))).
Proof.
  intros [Hd Hs] Hi Hn Hx Hf. split; cbn [Frame.set_symbols Frame.symbols Frame.id].
  - now rewrite (map_name_insert _ _ v).
  - intros j s Hj. destruct (decide (i = j)) as [->|Hne].
    + rewrite list_lookup_insert_eq in Hj by now apply lookup_lt_Some in Hi.
      injection Hj as <-. rewrite Hx, Hf. now apply Hs.
    + rewrite list_lookup_insert_ne in Hj by done. now apply Hs.
Qed.

Lemma frameOk_snoc f name pos :
  frameOk f -> ~ declares name f ->
  frameOk (Frame.set_symbols f
             (Frame.symbols f ++ [freshSymbol f name pos])).
Proof.
  intros [Hd Hs] Hn. split; cbn [Frame.set_symbols Frame.symbols Frame.id].
  - rewrite map_app. apply NoDup_app. split; [exact Hd|]. split.
    + intros x Hx Hx'. apply list_elem_of_singleton in Hx'. subst x.
      apply Hn. unfold declares. apply Exists_exists.
      apply list_elem_of_In, in_map_iff in Hx as (s & Hs1 & Hs2).
      exists s. split; [now apply list_elem_of_In|exact Hs1].
    + simpl. apply NoDup_singleton.
  - intros j s Hj. destruct (decide (j < length (Frame.symbols f))%nat).
    + rewrite lookup_app_l in Hj by done. now apply Hs.
    + rewrite lookup_app_r in Hj by lia.
      destruct (j - length (Frame.symbols f))%nat eqn:E; [|now destruct n0].
      injection Hj as <-. cbn [freshSymbol Symbol.index Symbol.frame].
      split; [|reflexivity]. unfold size. do 2 f_equal. lia.
Qed.

Lemma pushSymbol_frameOk p name type pos i p' :
  frameOk (frame p) -> pushSymbol name type pos p = Ok i p' ->
  frameOk (frame p')
  /\ Frame.previous (frame p') = Frame.previous (frame p)
  /\ is_Some (Frame.symbols (frame p') !! i).
Proof.
  intros Hok. rewrite pushSymbol_spec.
  destruct (list_find _ _) as [[j v]|] eqn:E; intros [= <- <-];
    cbn [frame set_frame].
  - apply list_find_named_Some in E as [Ej _]. split; [|split; [reflexivity|]].
    + now apply (frameOk_insert _ _ v).
    + cbn [Frame.set_symbols Frame.symbols].
      rewrite list_lookup_insert_eq by now apply lookup_lt_Some in Ej. eauto.
  - apply list_find_named_None in E. split; [|split; [reflexivity|]].
    + now apply frameOk_snoc.
    + cbn [Frame.set_symbols Frame.symbols].
      rewrite lookup_app_r, Nat.sub_diag by lia. simpl. eauto.
Qed.

Lemma pushSymbolForRoutine_frameOk p name type pos s p' :
  frameOk (frame p) -> pushSymbolForRoutine grow name type pos p = Ok s p' ->
  frameOk (frame p')
  /\ Frame.previous (frame p') = Frame.previous (frame p).
Proof.
  intros Hok E. unfold pushSymbolForRoutine in E.
  apply bind_Ok_inv in E as (i & p1 & H1 & E).
  destruct (pushSymbol_frameOk _ _ _ _ _ _ Hok H1) as (Hok1 & Hp1 & _).
  apply bind_Ok_inv in E as (s1 & p2 & H2 & E).
  unfold getSymbol in H2.
  destruct (Frame.symbols (frame p1) !! i) eqn:Ei; [|discriminate].
  injection H2 as -> ->.
  destruct (Symbol.routine s1); [injection E as <- <-; now split|].
  unfold bind, push_back, modify, ret in E. simpl in E.
  injection E as <- <-.
  cbn [frame set_frame]. rewrite !pushed_frame. split; [|exact Hp1].
  now apply (frameOk_insert _ _ s1).
Qed.

Lemma chain_tail_same f g :
  Frame.previous g = Frame.previous f ->
  Forall frameOk (chain f) -> frameOk g -> Forall frameOk (chain g).
Proof.
  intros Hp Hf Hg. rewrite chain_unfold in Hf |- *. rewrite Hp.
  apply Forall_cons_1 in Hf as [_ Hf]. now constructor.
Qed.

(** X9.  The symbol tables stay sound through [handle]: in every frame from
    the current one to the root no name occurs twice, every symbol sits in
    the slot its [index] names and records the id of the frame that holds
    it. *)
Theorem symbol_tables_kept (fuel : nat) (node : Node) (p p' : Program) :
  Forall frameOk (chain (frame p)) ->
  handle opcode grow fuel node p = Ok tt p' ->
  Forall frameOk (chain (frame p')) /\ frameOk (frame p').
Proof.
  intros Hp H.
  assert (R : Forall frameOk (chain (frame p'))).
  { revert Hp H.
    apply (handle_invariant (fun q => Forall frameOk (chain (frame q)))).
    - intros q bs. now rewrite emitted_frame.
    - auto.
    - intros q Hq. cbn [frame set_frame]. rewrite chain_unfold.
      cbn [childOf Frame.previous]. constructor; [|exact Hq].
      split; cbn [Frame.symbols]; [constructor|]. intros i s Hi. discriminate.
    - intros q Hq. cbn [frame set_frame]. unfold parentOrSelf.
      rewrite chain_unfold in Hq.
      destruct (Frame.previous (frame q)) eqn:E.
      + now apply Forall_cons_1 in Hq as [_ Hq].
      + now rewrite chain_unfold, E.
    - intros q name type pos i q' Hq E.
      assert (Hc : frameOk (frame q)).
      { rewrite chain_unfold in Hq. now apply Forall_cons_1 in Hq as [Hq _]. }
      destruct (pushSymbol_frameOk _ _ _ _ _ _ Hc E) as (Hok & Hprev & _).
      now apply (chain_tail_same (frame q)).
    - intros q name type pos s q' Hq E.
      assert (Hc : frameOk (frame q)).
      { rewrite chain_unfold in Hq. now apply Forall_cons_1 in Hq as [Hq _]. }
      destruct (pushSymbolForRoutine_frameOk _ _ _ _ _ _ Hc E) as (Hok & Hprev).
      now apply (chain_tail_same (frame q)).
    - auto.
    - intros q r Hq. unfold returned. cbn [frame set_activeSubroutines
        set_subroutines set_frame]. unfold parentOrSelf.
      rewrite chain_unfold in Hq.
      destruct (Frame.previous (frame q)) eqn:E.
      + now apply Forall_cons_1 in Hq as [_ Hq].
      + now rewrite chain_unfold, E. }
  split; [exact R|]. rewrite chain_unfold in R.
  now apply Forall_cons_1 in R as [R _].
Qed.

Lemma pushed_bounds routine p :
  (forall c, (c < grow c)%nat) ->
  (live p <= length (subroutines p) <= capacity p)%nat ->
  (live (pushed grow routine p) <= length (subroutines (pushed grow routine p))
   <= capacity (pushed grow routine p))%nat.
Proof.
  intros Hg H. unfold pushed.
  destruct (capacity p <=? length (subroutines p))%nat eqn:E;
    cbn [live subroutines capacity set_vector]; rewrite length_app;
    cbn [length].
  - apply Nat.leb_le in E. pose proof (Hg (capacity p)). lia.
  - apply Nat.leb_gt in E. lia.
Qed.

(** X10.  The registry stays consistent through a compilation: the
    [address] field of every routine is its position in the registry; and,
    the capacity of a reallocated vector being above the one it had, the
    routines fit the capacity and the pointers that are valid are pointers to
    registered routines. *)
Theorem registry_indices (fuel : nat) (file : Node) (p : Program) :
  (forall c, (c < grow c)%nat) ->
  compileSourceFile opcode grow fuel file = Ok tt p ->
  (forall k routine, subroutines p !! k = Some routine ->
     Subroutine.address routine = u32 (Z.of_nat k))
  /\ (live p <= length (subroutines p) <= capacity p)%nat.
Proof.
  intros Hg H. split.
  - apply compile_wf in H. intros k routine Hk.
    now destruct (wf_routines _ _ H k routine Hk).
  - revert H. unfold compileSourceFile.
    apply (handle_invariant
             (fun q => (live q <= length (subroutines q) <= capacity q)%nat)).
    + intros q bs. now rewrite emitted_live, emitted_length, emitted_capacity.
    + auto.
    + auto.
    + auto.
    + intros q name type pos i q' Hq. rewrite pushSymbol_spec.
      destruct (list_find _ _) as [[j v]|]; intros [= <- <-]; exact Hq.
    + intros q name type pos s q' Hq E. unfold pushSymbolForRoutine in E.
      apply bind_Ok_inv in E as (i & q1 & H1 & E).
      assert (Hq1 : (live q1 <= length (subroutines q1) <= capacity q1)%nat).
      { revert H1. rewrite pushSymbol_spec.
        destruct (list_find _ _) as [[j v]|]; intros [= <- <-]; exact Hq. }
      apply bind_Ok_inv in E as (s1 & q2 & H2 & E).
      unfold getSymbol in H2.
      destruct (Frame.symbols (frame q1) !! i); [|discriminate].
      injection H2 as -> ->.
      destruct (Symbol.routine s1); [now injection E as <- <-|].
      unfold bind, push_back, modify, ret in E. simpl in E.
      injection E as <- <-. cbn [live subroutines capacity set_frame].
      now apply pushed_bounds.
    + auto.
    + intros q r Hq. unfold returned.
      cbn [live subroutines capacity set_activeSubroutines set_subroutines
           set_frame].
      now rewrite length_alter.
    + cbn. lia.
Qed.

(** *** Nothing is taken back *)

Lemma extends_refl p : extends p p.
Proof.
  split.
  - exists []. now rewrite app_nil_r.
  - exists []. now rewrite app_nil_r.
  - exists []. now rewrite app_nil_r.
  - intros k routine Hk. exists routine, []. now rewrite app_nil_r.
Qed.

Lemma extends_trans p q r : extends p q -> extends q r -> extends p r.
Proof.
  intros [[b1 H1] [s1 H2] [l1 H3] H4] [[b2 G1] [s2 G2] [l2 G3] G4]. split.
  - exists (b1 ++ b2). now rewrite G1, H1, app_assoc.
  - exists (s1 ++ s2). now rewrite G2, H2, app_assoc.
  - exists (l1 ++ l2). now rewrite G3, H3, app_assoc.
  - intros k routine Hk.
    destruct (H4 k routine Hk) as (r1 & c1 & Hr1 & Ho1).
    destruct (G4 k r1 Hr1) as (r2 & c2 & Hr2 & Ho2).
    exists r2, (c1 ++ c2). split; [exact Hr2|].
    now rewrite Ho2, Ho1, app_assoc.
Qed.

Lemma extends_fields p p' :
  ops p' = ops p -> storage p' = storage p ->
  subroutines p' = subroutines p -> extends p p'.
Proof.
  intros H1 H2 H3. split; rewrite ?H1, ?H2, ?H3.
  - exists []. now rewrite app_nil_r.
  - exists []. now rewrite app_nil_r.
  - exists []. now rewrite app_nil_r.
  - intros k routine Hk. exists routine, []. now rewrite app_nil_r.
Qed.

Lemma map_routineKey_alter bs k (l : list Subroutine.t) :
  map routineKey
    (alter (fun routine =>
              Subroutine.set_ops routine (Subroutine.ops routine ++ bs)) k l)
  = map routineKey l.
Proof.
  revert k. induction l as [|x l IH]; intros k; [reflexivity|].
  destruct k as [|k]; simpl; [reflexivity|]. f_equal. apply IH.
Qed.

Lemma extends_alter p p' k bs :
  ops p' = ops p -> storage p' = storage p ->
  subroutines p'
  = alter (fun routine =>
             Subroutine.set_ops routine (Subroutine.ops routine ++ bs))
          k (subroutines p) ->
  extends p p'.
Proof.
  intros H1 H2 H3. split; rewrite ?H1, ?H2, ?H3.
  - exists []. now rewrite app_nil_r.
  - exists []. now rewrite app_nil_r.
  - exists []. now rewrite map_routineKey_alter, app_nil_r.
  - intros j routine Hj. destruct (decide (k = j)) as [->|Hne].
    + rewrite list_lookup_alter_eq, Hj. simpl.
      eexists _, bs. split; reflexivity.
    + rewrite list_lookup_alter_ne by done.
      exists routine, []. now rewrite app_nil_r.
Qed.

Lemma extends_emitted p bs : extends p (emitted p bs).
Proof.
  unfold emitted. destruct (last (activeSubroutines p)) as [r|].
  - now apply (extends_alter _ _ r bs).
  - split; cbn [set_ops ops storage subroutines].
    + now exists bs.
    + exists []. now rewrite app_nil_r.
    + exists []. now rewrite app_nil_r.
    + intros k routine Hk. exists routine, []. now rewrite app_nil_r.
Qed.

Lemma extends_stored p s : extends p (stored p s).
Proof.
  split; cbn [stored set_storage ops storage subroutines].
  - exists []. now rewrite app_nil_r.
  - now exists [s].
  - exists []. now rewrite app_nil_r.
  - intros k routine Hk. exists routine, []. now rewrite app_nil_r.
Qed.

Lemma extends_pushSymbol p name type pos i p' :
  pushSymbol name type pos p = Ok i p' -> extends p p'.
Proof.
  rewrite pushSymbol_spec.
  destruct (list_find _ _) as [[j v]|]; intros [= <- <-];
    now apply extends_fields.
Qed.

Lemma extends_pushSymbolForRoutine p name type pos s p' :
  pushSymbolForRoutine grow name type pos p = Ok s p' -> extends p p'.
Proof.
  intros H. apply pushSymbolForRoutine_inv in H
    as (i & l & Ho & Hs & _ & _ & _ & _ & _ & Hc).
  destruct Hc as [(v & r & _ & _ & _ & _ & Hr)|(v & _ & _ & Hr)].
  - now apply extends_fields.
  - split; rewrite ?Ho, ?Hs, ?Hr.
    + exists []. now rewrite app_nil_r.
    + exists []. now rewrite app_nil_r.
    + rewrite map_app. eauto.
    + intros k routine Hk. exists routine, [].
      rewrite lookup_app_l by now apply lookup_lt_Some in Hk.
      now rewrite app_nil_r.
Qed.

Lemma handle_extends fuel node p u p' :
  handle opcode grow fuel node p = Ok u p' -> extends p p'.
Proof.
  apply (handle_invariant (extends p)).
  - intros q bs Hq. exact (extends_trans _ _ _ Hq (extends_emitted q bs)).
  - intros q s Hq. exact (extends_trans _ _ _ Hq (extends_stored q s)).
  - intros q Hq. apply (extends_trans _ _ _ Hq). now apply extends_fields.
  - intros q Hq. apply (extends_trans _ _ _ Hq). now apply extends_fields.
  - intros q name type pos i q' Hq E.
    exact (extends_trans _ _ _ Hq (extends_pushSymbol _ _ _ _ _ _ E)).
  - intros q name type pos s q' Hq E.
    exact (extends_trans _ _ _ Hq (extends_pushSymbolForRoutine _ _ _ _ _ _ E)).
  - intros q r Hq. apply (extends_trans _ _ _ Hq). now apply extends_fields.
  - intros q r Hq. apply (extends_trans _ _ _ Hq).
    now apply (extends_alter _ _ r [u8 (opcode OP.Return)]).
  - apply extends_refl.
Qed.

Lemma extends_length p p' :
  extends p p' -> (length (subroutines p) <= length (subroutines p'))%nat.
Proof.
  intros [_ _ [l Hl] _]. apply (f_equal length) in Hl.
  rewrite length_app, !length_map in Hl. lia.
Qed.

(** X11.  [handle] only appends: the main buffer, the pool and the buffer of
    every routine registered before keep what they held as a prefix, and
    the registry keeps every routine at its position with its name, address,
    position and kind; nothing emitted or registered is taken back or
    rewritten. *)
Theorem handle_append_only (fuel : nat) (node : Node) (p p' : Program) :
  handle opcode grow fuel node p = Ok tt p' ->
  extends p p' /\ (length (subroutines p) <= length (subroutines p'))%nat.
Proof.
  intros H. split; [exact (handle_extends _ _ _ _ _ H)|].
  exact (extends_length _ _ (handle_extends _ _ _ _ _ H)).
Qed.

(** *** Declarations *)

Lemma alter_snoc {A} (f : A -> A) (l : list A) (x : A) :
  alter f (length l) (l ++ [x]) = l ++ [f x].
Proof. induction l as [|y l IH]; [reflexivity|]. cbn. f_equal. exact IH. Qed.

Lemma popSubroutine_ok p r routine :
  last (activeSubroutines p) = Some r ->
  subroutines p !! r = Some routine ->
  (length (subroutines p) <= r + live p)%nat ->
  Subroutine.ops routine <> [] ->
  popSubroutine opcode p = Ok tt (returned opcode p r).
Proof.
  intros Hl Hr Hv Ho. unfold popSubroutine. rewrite Hl.
  unfold bind at 1. rewrite popFrameImplicit_spec.
  unfold bind at 1.
  rewrite (deref_ok r (set_frame p (parentOrSelf (frame p))) routine Hr Hv).
  destruct (Subroutine.ops routine); [contradiction|reflexivity].
Qed.

Lemma popSubroutine_empty p r routine :
  last (activeSubroutines p) = Some r ->
  subroutines p !! r = Some routine ->
  (length (subroutines p) <= r + live p)%nat ->
  Subroutine.ops routine = [] ->
  popSubroutine opcode p
  = Throw EmptyRoutine (set_frame p (parentOrSelf (frame p))).
Proof.
  intros Hl Hr Hv Ho. unfold popSubroutine. rewrite Hl.
  unfold bind at 1. rewrite popFrameImplicit_spec.
  unfold bind at 1.
  rewrite (deref_ok r (set_frame p (parentOrSelf (frame p))) routine Hr Hv).
  rewrite Ho. reflexivity.
Qed.

Lemma entered_active p name type pos :
  last (activeSubroutines
          (entered (registered grow p name type pos) (length (subroutines p))))
  = Some (length (subroutines p)).
Proof. cbn [entered activeSubroutines set_activeSubroutines]. apply last_snoc. Qed.

Lemma entered_targetValid p name type pos :
  targetValid
    (entered (registered grow p name type pos) (length (subroutines p))).
Proof.
  unfold targetValid. rewrite entered_active.
  cbn [entered subroutines live set_activeSubroutines set_frame].
  rewrite registered_subroutines, length_app.
  pose proof (registered_live p name type pos). cbn [length]. lia.
Qed.

Lemma entered_emitted p name type pos bs :
  emitted (entered (registered grow p name type pos) (length (subroutines p))) bs
  = set_subroutines
      (entered (registered grow p name type pos) (length (subroutines p)))
      (subroutines p
       ++ [Subroutine.mk bs name (u32 (size (subroutines p))) pos type]).
Proof.
  unfold emitted. rewrite entered_active.
  cbn [entered subroutines set_activeSubroutines set_frame].
  rewrite registered_subroutines. now rewrite alter_snoc.
Qed.

Lemma returned_entered p name type pos bs :
  bs <> [] ->
  popSubroutine opcode
    (emitted (entered (registered grow p name type pos) (length (subroutines p)))
       bs)
  = Ok tt (declared opcode grow p name type pos bs).
Proof.
  intros Hbs.
  rewrite (popSubroutine_ok _ (length (subroutines p))
             (Subroutine.mk bs name (u32 (size (subroutines p))) pos type)).
  - rewrite entered_emitted. unfold returned, declared, parentOrSelf.
    cbn [entered subroutines set_activeSubroutines set_frame
         set_subroutines frame activeSubroutines childOf Frame.previous].
    rewrite alter_snoc, registered_active, removelast_last.
    unfold registered.
    rewrite <- (pushed_replace (freshRoutine p name type pos)
                  (Subroutine.mk (bs ++ [u8 (opcode OP.Return)]) name
                     (u32 (size (subroutines p))) pos type) p).
    rewrite <- (pushed_active grow (freshRoutine p name type pos) p).
    now destruct (pushed grow (freshRoutine p name type pos) p).
  - rewrite emitted_active. apply entered_active.
  - rewrite entered_emitted. cbn [subroutines set_subroutines].
    now rewrite lookup_app_r, Nat.sub_diag by lia.
  - rewrite entered_emitted.
    cbn [subroutines live set_subroutines entered set_activeSubroutines
         set_frame].
    rewrite length_app. pose proof (registered_live p name type pos).
    cbn [length]. lia.
  - exact Hbs.
Qed.

(** The declaration of a name the frame does not hold, up to the body. *)
Lemma declaration_enters p name type pos (k : M unit) :
  ~ declares name (frame p) ->
  (symbol <- pushSymbolForRoutine grow name type pos ;;
   if Symbol.declarations symbol >? 1 then ret tt
   else pushSubroutine opcode name ;;; k) p
  = k (entered (registered grow p name type pos) (length (subroutines p))).
Proof.
  intros Hn. unfold bind at 1. rewrite pushSymbolForRoutine_fresh by done.
  cbn [Symbol.declarations Symbol.set_routine freshSymbol].
  change (1 >? 1) with false. cbv iota.
  unfold bind at 1. now rewrite (pushSubroutine_registered _ _ _ _ Hn).
Qed.

Lemma alias_unfold fuel name pos body p :
  ~ declares name (frame p) ->
  handle opcode grow (S fuel) (TypeAliasDeclaration name pos None body) p
  = (handle opcode grow fuel body ;;; popSubroutine opcode)
      (entered (registered grow p name SymType pos) (length (subroutines p))).
Proof.
  intros Hn. cbn [handle]. rewrite declaration_enters by done. reflexivity.
Qed.

(** X12.  An alias may refer to itself: its symbol and routine are
    registered before the body is compiled, so [type A = A] in a frame that
    does not declare [A] compiles; the new routine, last in the registry,
    holds [Call] with its own registry index and [Return], and nothing else
    changes but the symbol appended to the frame. *)
Theorem alias_self_reference (fuel : nat) (p : Program) (name : string)
  (pos : Z) :
  ~ declares name (frame p) ->
  handle opcode grow (S (S fuel))
    (TypeAliasDeclaration name pos None (TypeReference name)) p
  = Ok tt (declared opcode grow p name SymType pos
             (u8 (opcode OP.Call) :: bytesLE 4 (u32 (size (subroutines p))))).
Proof.
  intros Hn. rewrite alias_unfold by done. unfold bind at 1.
  rewrite (reference_call _ name
             (Symbol.set_routine (freshSymbol (frame p) name pos)
                (Some (length (subroutines p))))
             (length (subroutines p))
             (freshRoutine p name SymType pos)).
  - apply returned_entered. discriminate.
  - apply entered_targetValid.
  - rewrite findInChain_unfold.
    cbn [entered registered frame set_activeSubroutines set_frame
         set_subroutines childOf Frame.symbols Frame.previous list_find].
    change (list_find (named name) []) with (@None (nat * Symbol.t)).
    cbv iota. rewrite findInChain_unfold. cbn [Frame.symbols Frame.set_symbols].
    rewrite (list_find_named_snoc name (Frame.symbols (frame p))) by done.
    reflexivity.
  - discriminate.
  - reflexivity.
  - cbn [entered subroutines set_activeSubroutines set_frame].
    rewrite registered_subroutines.
    now rewrite lookup_app_r, Nat.sub_diag by lia.
  - cbn [entered subroutines live set_activeSubroutines set_frame].
    rewrite registered_subroutines, length_app.
    pose proof (registered_live p name SymType pos). cbn [length]. lia.
Qed.

(** X13.  An alias whose type compiles to nothing (a node kind [handle] has
    no case for, say) ends in "Routine is empty": by then the symbol and the
    routine are registered and the frame is the one of the declaration
    again, but the routine is still on the active stack, so the exception
    leaves a program whose next opcodes go to that routine. *)
Theorem alias_without_code (fuel : nat) (p : Program) (name : string)
  (pos : Z) (body : Node) :
  ~ declares name (frame p) ->
  handle opcode grow fuel body
    (entered (registered grow p name SymType pos) (length (subroutines p)))
  = Ok tt (entered (registered grow p name SymType pos) (length (subroutines p))) ->
  handle opcode grow (S fuel) (TypeAliasDeclaration name pos None body) p
  = Throw EmptyRoutine
      (set_activeSubroutines (registered grow p name SymType pos)
         (activeSubroutines p ++ [length (subroutines p)])).
Proof.
  intros Hn Hb. rewrite alias_unfold by done. unfold bind at 1. rewrite Hb.
  rewrite (popSubroutine_empty _ (length (subroutines p))
             (freshRoutine p name SymType pos)).
  - unfold entered, parentOrSelf.
    cbn [frame set_frame set_activeSubroutines childOf Frame.previous
         activeSubroutines].
    rewrite registered_active.
    now destruct (registered grow p name SymType pos).
  - apply entered_active.
  - cbn [entered subroutines set_activeSubroutines set_frame].
    rewrite registered_subroutines.
    now rewrite lookup_app_r, Nat.sub_diag by lia.
  - cbn [entered subroutines live set_activeSubroutines set_frame].
    rewrite registered_subroutines, length_app.
    pose proof (registered_live p name SymType pos). cbn [length]. lia.
  - reflexivity.
Qed.

(** X14.  A variable declaration without a type, for a name the frame does
    not hold: the variable gets a routine of its own holding [Unknown] and
    [Return]; an initializer is compiled after that routine is closed, into
    the buffer the declaration stands in, and, that buffer being reachable
    still, is followed there by [Call] with the registry index of the
    variable's routine and [Assign]. *)
Theorem variable_declaration (fuel : nat) (p : Program) (id : string)
  (pos : Z) :
  ~ declares id (frame p) ->
  handle opcode grow (S fuel) (VariableDeclaration (Some (id, pos)) None None) p
  = Ok tt (declared opcode grow p id SymVariable pos [u8 (opcode OP.Unknown)])
  /\ forall initializer q,
       targetValid q ->
       handle opcode grow fuel initializer
         (declared opcode grow p id SymVariable pos [u8 (opcode OP.Unknown)])
       = Ok tt q ->
       handle opcode grow (S fuel)
         (VariableDeclaration (Some (id, pos)) None (Some initializer)) p
       = Ok tt (emitted q
                  (u8 (opcode OP.Call)
                   :: bytesLE 4 (u32 (size (subroutines p)))
                   ++ [u8 (opcode OP.Assign)])).
Proof.
  intros Hn.
  split.
  - cbn [handle whenSome]. unfold bind at 1.
    rewrite pushSymbolForRoutine_fresh by done.
    cbn [Symbol.declarations Symbol.set_routine freshSymbol].
    change (1 >? 1) with false. cbv iota.
    unfold bind at 1. rewrite (pushSubroutine_registered _ _ _ _ Hn).
    unfold bind at 1. rewrite pushOp_ok by apply entered_targetValid.
    unfold bind at 1. rewrite returned_entered by discriminate.
    reflexivity.
  - intros initializer q V Hq. cbn [handle whenSome]. unfold bind at 1.
    rewrite pushSymbolForRoutine_fresh by done.
    cbn [Symbol.declarations Symbol.set_routine freshSymbol].
    change (1 >? 1) with false. cbv iota.
    unfold bind at 1. rewrite (pushSubroutine_registered _ _ _ _ Hn).
    unfold bind at 1. rewrite pushOp_ok by apply entered_targetValid.
    unfold bind at 1. rewrite returned_entered by discriminate.
    unfold bind at 1. rewrite Hq.
    unfold bind at 1. rewrite pushOp_ok by done.
    unfold bind at 1. rewrite pushAddress_ok by now apply emitted_targetValid.
    rewrite pushOp_ok by now do 2 apply emitted_targetValid.
    rewrite !emitted_app. reflexivity.
Qed.

(** X15.  A function declaration without parameters and without a return
    type, for a name the frame does not hold: a routine holding [Unknown],
    [Function] and [Return] is registered under the name (the body is not
    looked at); without a name nothing is compiled at all. *)
Theorem function_declaration (fuel : nat) (p : Program) (id : string)
  (pos : Z) (body : option Node) :
  ~ declares id (frame p) ->
  handle opcode grow (S fuel) (FunctionDeclaration (Some (id, pos)) [] None body) p
  = Ok tt (declared opcode grow p id SymFunction pos
             [u8 (opcode OP.Unknown); u8 (opcode OP.Function)])
  /\ forall parameters type,
       handle opcode grow (S fuel) (FunctionDeclaration None parameters type body) p
       = Ok tt p.
Proof.
  intros Hn. split; [|reflexivity].
  cbn [handle whenSome]. rewrite declaration_enters by done.
  cbn [forEach]. unfold bind at 1, ret at 1.
  unfold bind at 1. unfold bind at 1.
  rewrite pushOp_ok by apply entered_targetValid.
  rewrite pushOp_ok by apply emitted_targetValid, entered_targetValid.
  rewrite emitted_app. apply returned_entered. discriminate.
Qed.

(** *** Termination *)

Lemma bind_settled {A B} (m : M A) (k : A -> M B) p :
  m p <> OutOfFuel ->
  (forall a q, m p = Ok a q -> k a q <> OutOfFuel) ->
  bind m k p <> OutOfFuel.
Proof.
  intros Hm Hk. unfold bind. destruct (m p) eqn:E; try discriminate.
  - now apply Hk.
  - contradiction.
Qed.

Lemma forEach_settled {A} (body : A -> M unit) (l : list A) :
  (forall x q, x ∈ l -> body x q <> OutOfFuel) ->
  forall p, forEach l body p <> OutOfFuel.
Proof.
  induction l as [|x l IH]; intros Hb p; [discriminate|]. simpl.
  apply bind_settled.
  - apply Hb. left.
  - intros _ q _. apply IH. intros y r Hy. apply Hb. now right.
Qed.

Ltac settle :=
  intros;
  unfold popSubroutine, pushSubroutine, pushStorage, pushSymbolAddress,
    pushFrame, pushSymbolForRoutine, pushSymbol, pushAddress, pushOp,
    registerStorage, popFrameImplicit, findSymbol, getSymbol, setSymbols,
    getOPs, setOPs, deref, lookupRoutine, push_back, bind, ret, modify, throw;
  repeat (cbv beta;
          match goal with
          | |- context [match ?x with _ => _ end] =>
              lazymatch x with
              | context [match _ with _ => _ end] => fail
              | context [if _ then _ else _] => fail
              | _ => destruct x
              end
          end);
  discriminate.

Lemma pushOp_settled op p : pushOp opcode op [] p <> OutOfFuel.
Proof. settle. Qed.

Lemma pushStorage_settled s p : pushStorage s p <> OutOfFuel.
Proof. settle. Qed.

Lemma pushAddress_settled a p : pushAddress a p <> OutOfFuel.
Proof. settle. Qed.

Lemma pushFrame_settled b p : pushFrame opcode b p <> OutOfFuel.
Proof. settle. Qed.

Lemma popFrameImplicit_settled p : popFrameImplicit p <> OutOfFuel.
Proof. settle. Qed.

Lemma popSubroutine_settled p : popSubroutine opcode p <> OutOfFuel.
Proof. settle. Qed.

Lemma pushSubroutine_settled name p : pushSubroutine opcode name p <> OutOfFuel.
Proof. settle. Qed.

Lemma pushSymbol_settled name type pos p :
  pushSymbol name type pos p <> OutOfFuel.
Proof. settle. Qed.

Lemma pushSymbolForRoutine_settled name type pos p :
  pushSymbolForRoutine grow name type pos p <> OutOfFuel.
Proof. settle. Qed.

Lemma reference_settled fuel name p :
  handle opcode grow (S fuel) (TypeReference name) p <> OutOfFuel.
Proof. cbn [handle]. settle. Qed.

Lemma literal_settled op text p :
  (pushOp opcode op [] ;;; pushStorage text) p <> OutOfFuel.
Proof.
  apply bind_settled; [apply pushOp_settled|].
  intros _ q _. apply pushStorage_settled.
Qed.

Lemma depth_member (l : list Node) (x : Node) (n : nat) :
  x ∈ l -> (list_max (map depth l) < n)%nat -> (depth x < n)%nat.
Proof.
  intros Hx Hl. apply list_elem_of_In in Hx.
  assert (H : (list_max (map depth l) <= list_max (map depth l))%nat) by lia.
  apply list_max_le in H. rewrite List.Forall_forall in H.
  specialize (H (depth x) (in_map depth l x Hx)). lia.
Qed.

Lemma parameterless_member (l : list Node) (x : Node) :
  x ∈ l -> forallb parameterless l = true -> parameterless x = true.
Proof.
  intros Hx Hl. apply list_elem_of_In in Hx.
  rewrite forallb_forall in Hl. now apply Hl.
Qed.

Lemma handle_settles (fuel : nat) :
  forall node p,
    parameterless node = true -> (depth node < fuel)%nat ->
    handle opcode grow fuel node p <> OutOfFuel.
Proof.
  induction fuel as [|fuel IH]; intros node p Hp Hd; [lia|].
  assert (IHs : forall l q,
            forallb parameterless l = true ->
            (list_max (map depth l) < fuel)%nat ->
            forEach l (handle opcode grow fuel) q <> OutOfFuel).
  { intros l q Hl Hm. apply forEach_settled. intros x r Hx.
    apply IH; [now apply (parameterless_member l)|now apply (depth_member l)]. }
  assert (IHo : forall (o : option Node) q,
            match o with Some t => parameterless t | None => true end = true ->
            (match o with Some t => depth t | None => 0 end < fuel)%nat ->
            match o with
            | Some t => handle opcode grow fuel t
            | None => pushOp opcode OP.Unknown []
            end q <> OutOfFuel).
  { intros [t|] q Ht Hdt; [now apply IH|apply pushOp_settled]. }
  destruct node; cbn [handle]; cbn [parameterless depth] in Hp, Hd;
    try apply pushOp_settled; try apply literal_settled; try discriminate.
  - apply IHs; [exact Hp|lia].
  - apply bind_settled; [apply pushFrame_settled|]. intros _ q _.
    apply bind_settled; [apply IHs; [exact Hp|lia]|]. intros _ q1 _.
    apply bind_settled; [apply pushOp_settled|]. intros _ q2 _.
    apply popFrameImplicit_settled.
  - apply (reference_settled fuel).
  - apply bind_settled; [apply pushSymbolForRoutine_settled|]. intros s q _.
    destruct (Symbol.declarations s >? 1); [discriminate|].
    apply bind_settled; [apply pushSubroutine_settled|]. intros _ q1 _.
    apply bind_settled.
    { destruct typeParameters as [l|]; [|discriminate]. cbn [whenSome].
      apply forEach_settled. intros _ r _.
      apply bind_settled; [apply pushSymbol_settled|]. intros _ r1 _.
      apply pushOp_settled. }
    intros _ q2 _.
    apply bind_settled; [apply IH; [exact Hp|lia]|]. intros _ q3 _.
    apply popSubroutine_settled.
  - destruct name as [[id idpos]|]; [|discriminate]. cbn [whenSome].
    destruct parameters; [|discriminate].
    apply bind_settled; [apply pushSymbolForRoutine_settled|]. intros s q _.
    destruct (Symbol.declarations s >? 1); [discriminate|].
    apply bind_settled; [apply pushSubroutine_settled|]. intros _ q1 _.
    apply bind_settled; [discriminate|]. intros _ q2 _.
    apply bind_settled; [apply IHo; [exact Hp|lia]|]. intros _ q3 _.
    apply bind_settled; [apply pushOp_settled|]. intros _ q4 _.
    apply popSubroutine_settled.
  - apply IHs; [exact Hp|lia].
  - destruct name as [[id idpos]|]; [|discriminate]. cbn [whenSome].
    apply andb_prop in Hp as [Hp1 Hp2].
    apply bind_settled; [apply pushSymbolForRoutine_settled|]. intros s q _.
    destruct (Symbol.declarations s >? 1); [discriminate|].
    apply bind_settled; [apply pushSubroutine_settled|]. intros a q1 _.
    apply bind_settled; [apply IHo; [exact Hp1|lia]|]. intros _ q2 _.
    apply bind_settled; [apply popSubroutine_settled|]. intros _ q3 _.
    destruct initializer as [e|]; [|discriminate]. cbn [whenSome].
    apply bind_settled; [apply IH; [exact Hp2|lia]|]. intros _ q4 _.
    apply bind_settled; [apply pushOp_settled|]. intros _ q5 _.
    apply bind_settled; [apply pushAddress_settled|]. intros _ q6 _.
    apply pushOp_settled.
Qed.

Lemma bind_settledAs {A B} (m m' : M A) (k k' : A -> M B) p :
  settledAs (m p) (m' p) ->
  (forall a q, settledAs (k a q) (k' a q)) ->
  settledAs (bind m k p) (bind m' k' p).
Proof.
  intros [Hm|Hm] Hk; unfold bind.
  - left. now rewrite Hm.
  - rewrite <- Hm. destruct (m p); try (right; reflexivity). apply Hk.
Qed.

Lemma forEach_settledAs {A} (body body' : A -> M unit) (l : list A) :
  (forall x q, settledAs (body x q) (body' x q)) ->
  forall p, settledAs (forEach l body p) (forEach l body' p).
Proof.
  intros Hb. induction l as [|x l IH]; intros p; [now right|]. simpl.
  apply bind_settledAs; [apply Hb|]. intros _ q. apply IH.
Qed.

Lemma handle_more_fuel (fuel : nat) :
  forall node p,
    settledAs (handle opcode grow fuel node p) (handle opcode grow (S fuel) node p).
Proof.
  induction fuel as [|fuel IH]; intros node p; [now left|].
  assert (R : forall A (r : outcome A), settledAs r r) by (intros; now right).
  assert (IHo : forall (o : option Node) q,
            settledAs
              (match o with
               | Some t => handle opcode grow fuel t
               | None => pushOp opcode OP.Unknown []
               end q)
              (match o with
               | Some t => handle opcode grow (S fuel) t
               | None => pushOp opcode OP.Unknown []
               end q)).
  { intros [t|] q; [apply IH|apply R]. }
  assert (IHs : forall l q,
            settledAs (forEach l (handle opcode grow fuel) q)
                      (forEach l (handle opcode grow (S fuel)) q)).
  { intros l q. apply forEach_settledAs. exact IH. }
  assert (IHp : forall (l : list Node) n q,
            settledAs (forEach l (fun _ => handle opcode grow fuel n) q)
                      (forEach l (fun _ => handle opcode grow (S fuel) n) q)).
  { intros l n q. apply forEach_settledAs. intros _ r. apply IH. }
  remember (S fuel) as fuel1 eqn:E.
  destruct node; cbn [handle]; subst fuel1;
    match goal with
    | |- settledAs ?l ?r =>
        let l' := eval cbn [handle] in l in change (settledAs l' r)
    end; try apply R.
  - apply IHs.
  - apply bind_settledAs; [apply R|]. intros _ q.
    apply bind_settledAs; [apply IHs|]. intros _ q1.
    apply R.
  - apply bind_settledAs; [apply R|]. intros s q.
    destruct (Symbol.declarations s >? 1); [apply R|].
    apply bind_settledAs; [apply R|]. intros _ q1.
    apply bind_settledAs; [apply R|]. intros _ q2.
    apply bind_settledAs; [apply IH|]. intros _ q3. apply R.
  - destruct name as [[id idpos]|]; [|apply R]. cbn [whenSome].
    apply bind_settledAs; [apply R|]. intros s q.
    destruct (Symbol.declarations s >? 1); [apply R|].
    apply bind_settledAs; [apply R|]. intros _ q1.
    apply bind_settledAs; [apply IHp|].
    intros _ q2.
    apply bind_settledAs; [apply IHo|]. intros _ q3. apply R.
  - apply IHs.
  - destruct name as [[id idpos]|]; [|apply R]. cbn [whenSome].
    apply bind_settledAs; [apply R|]. intros s q.
    destruct (Symbol.declarations s >? 1); [apply R|].
    apply bind_settledAs; [apply R|]. intros a q1.
    apply bind_settledAs; [apply IHo|]. intros _ q2.
    apply bind_settledAs; [apply R|]. intros _ q3.
    destruct initializer as [e|]; [|apply R]. cbn [whenSome].
    apply bind_settledAs; [apply IH|]. intros _ q4. apply R.
Qed.

(** X16.  [handle] terminates on every tree in which no function declaration
    has a parameter: fuel above the depth of the tree always gives a result
    (a program, an exception or a call without behaviour), and that result
    is the same for any such fuel. *)
Theorem handle_terminates (fuel : nat) (node : Node) (p : Program) :
  parameterless node = true ->
  (depth node < fuel)%nat ->
  handle opcode grow fuel node p <> OutOfFuel
  /\ handle opcode grow fuel node p = handle opcode grow (S (depth node)) node p.
Proof.
  intros Hp Hd. split; [now apply handle_settles|].
  replace fuel with (S (depth node) + (fuel - S (depth node)))%nat by lia.
  induction (fuel - S (depth node))%nat as [|k IHk].
  - now rewrite Nat.add_0_r.
  - rewrite Nat.add_succ_r.
    destruct (handle_more_fuel (S (depth node) + k) node p) as [H|H].
    + exfalso. revert H. apply handle_settles; [exact Hp|lia].
    + now rewrite <- H.
Qed.

(** *** The pool in the binary *)

(** X17.  The pool as [build] writes it: for a source unit that compiles,
    entry [k] of the storage stands in the binary at the offset
    [findStorage] resolves to that entry, 5 plus the sizes of the entries
    before it, as two bytes of length followed by the bytes of the text. *)
Theorem pool_in_binary (fuel : nat) (file : Node) (p : Program) (k : nat)
  (s : string) :
  codesOk opcode ->
  compileSourceFile opcode grow fuel file = Ok tt p ->
  storage p !! k = Some s ->
  Z.of_nat (mainOffset p) < 2 ^ 32 ->
  Z.of_nat (length (subroutines p)) <= 2 ^ 32 ->
  exists bin p',
    build opcode p = Ok bin p'
    /\ findStorage (entryStart (storage p) k) p = s
    /\ take (2 + String.length s)
            (drop (Z.to_nat (entryStart (storage p) k)) bin)
       = bytesLE 2 (Z.of_nat (String.length s)) ++ bytesOf s.
Proof.
  intros codes Hc Hk Hsize Hn. pose proof (compile_wf _ _ _ _ _ _ Hc) as W.
  destruct (wf_main _ _ W) as (main & Hmain & Hvmain).
  destruct (streams_code opcode (length (subroutines p)) (subroutines p))
    as (code & Hcode & Hvcode).
  { intros j r Hj. now destruct (wf_routines _ _ W j r Hj). }
  assert (Hlen : length (subroutines p) = length code).
  { apply (f_equal length) in Hcode. now rewrite !length_map in Hcode. }
  rewrite Hlen in Hvmain, Hvcode.
  assert (Hne : storage p <> [] \/ subroutines p <> []).
  { left. intros E. now rewrite E in Hk. }
  destruct (build_spec opcode codes p main code Hmain Hcode Hvmain Hvcode Hne
              Hsize Hn) as (p' & Hb & _).
  eexists _, p'. split; [exact Hb|]. split.
  - unfold findStorage, entryStart. unfold mainOffset in Hsize.
    apply findStorageFrom_entry; [lia|lia|exact Hk].
  - assert (Es : storage p = take k (storage p) ++ [s] ++ drop (S k) (storage p))
      by (symmetry; now apply take_drop_middle).
    set (entry := bytesLE 2 (Z.of_nat (String.length s)) ++ bytesOf s).
    assert (El : length entry = (2 + String.length s)%nat).
    { unfold entry. now rewrite length_app, length_bytesLE, length_bytesOf. }
    rewrite <- El.
    eapply (drop_prefix
              (u8 (opcode OP.Jump) :: bytesLE 4 _
               ++ poolBytes (take k (storage p)))
              entry _).
    + unfold entryStart. rewrite Z2Nat.inj_add, Nat2Z.id by lia.
      cbn [length]. rewrite length_app, length_bytesLE.
      change (Z.to_nat 5) with 5%nat. lia.
    + assert (E1 : poolBytes [s] = entry).
      { unfold poolBytes, entry. simpl. now rewrite app_nil_r. }
      assert (Ep : poolBytes (storage p)
                   = poolBytes (take k (storage p)) ++ entry
                     ++ poolBytes (drop (S k) (storage p))).
      { rewrite Es at 1. now rewrite !poolBytes_app, E1. }
      rewrite Ep, <- app_comm_cons, <- ?app_assoc. reflexivity.
Qed.

(** *** Redeclaration *)

(** X18.  A function or variable declaration for a name the frame already
    holds with a routine, whatever kind of declaration made it, compiles to
    nothing: only the symbol's [declarations] is raised; parameters, type,
    body and initializer are not looked at, nothing is emitted and nothing
    is registered. *)
Theorem redeclaration_skips_body (fuel : nat) (p : Program) (id : string)
  (pos : Z) (i : nat) (v : Symbol.t) (r : nat) :
  list_find (named id) (Frame.symbols (frame p)) = Some (i, v) ->
  Symbol.routine v = Some r ->
  1 <= Symbol.declarations v < 2 ^ 32 - 1 ->
  (forall parameters type body,
     handle opcode grow (S fuel)
       (FunctionDeclaration (Some (id, pos)) parameters type body) p
     = Ok tt (set_frame p (Frame.set_symbols (frame p)
                (<[i := redeclared v]> (Frame.symbols (frame p))))))
  /\ (forall type initializer,
       handle opcode grow (S fuel)
         (VariableDeclaration (Some (id, pos)) type initializer) p
       = Ok tt (set_frame p (Frame.set_symbols (frame p)
                  (<[i := redeclared v]> (Frame.symbols (frame p)))))).
Proof.
  intros Hf Hr Hd.
  assert (E : (Symbol.declarations (redeclared v) >? 1) = true).
  { cbn [redeclared Symbol.set_declarations Symbol.declarations].
    rewrite u32_small by lia. apply Z.gtb_lt. lia. }
  split.
  - intros parameters type body. cbn [handle whenSome]. unfold bind at 1.
    rewrite (pushSymbolForRoutine_again _ _ _ _ _ _ _ _ Hf Hr), E.
    reflexivity.
  - intros type initializer. cbn [handle whenSome]. unfold bind at 1.
    rewrite (pushSymbolForRoutine_again _ _ _ _ _ _ _ _ Hf Hr), E.
    reflexivity.
Qed.

(** *** Type parameters *)

Lemma list_find_named_other name (l : list Symbol.t) s :
  Symbol.name s <> name ->
  list_find (named name) (l ++ [s]) = list_find (named name) l.
Proof.
  intros Hs. destruct (list_find (named name) l) as [[i x]|] eqn:E.
  - now apply list_find_app_l.
  - apply list_find_app_None. split; [exact E|].
    apply list_find_None. constructor; [exact Hs|constructor].
Qed.

Lemma findInChain_other name f s :
  Symbol.name s <> name ->
  findInChain name (Frame.set_symbols f (Frame.symbols f ++ [s]))
  = findInChain name f.
Proof.
  intros Hs.
  rewrite (findInChain_unfold name (Frame.set_symbols _ _)),
    (findInChain_unfold name f).
  cbn [Frame.symbols Frame.set_symbols Frame.previous].
  now rewrite list_find_named_other.
Qed.

Lemma findInChain_child name f :
  findInChain name (childOf f) = findInChain name f.
Proof. rewrite (findInChain_unfold name (childOf f)). reflexivity. Qed.

(** Inside the routine of a name just declared, every other name resolves
    as it did before the declaration. *)
Lemma findInChain_entered x p name type pos :
  x <> name ->
  findInChain x
    (frame (entered (registered grow p name type pos)
              (length (subroutines p))))
  = findInChain x (frame p).
Proof.
  intros Hx. cbn [entered frame set_activeSubroutines set_frame registered].
  rewrite findInChain_child. apply findInChain_other.
  cbn [Symbol.name Symbol.set_routine freshSymbol]. congruence.
Qed.







(** *** Dangling routine pointers *)

(** X19.  Earlier aliases are out of reach once the registry was
    reallocated: when an alias is declared while the registry is full, its
    registration moves the routines, and a reference in its body to a name
    whose routine was registered before reads the address through a
    dangling pointer.  The declaration has no behaviour. *)
Theorem earlier_alias_dangles (fuel : nat) (p : Program) (a b : string)
  (pos : Z) (s : Symbol.t) (r : nat) :
  ~ declares b (frame p) ->
  a <> b ->
  findInChain a (frame p) = Some s ->
  Symbol.type s <> SymTypeVariable ->
  Symbol.routine s = Some r ->
  (r < length (subroutines p))%nat ->
  (capacity p <= length (subroutines p))%nat ->
  handle opcode grow (S (S fuel))
    (TypeAliasDeclaration b pos None (TypeReference a)) p
  = Undefined.
Proof.
  intros Hn Hab Hs Ht Hr Hlt Hfull. rewrite alias_unfold by done.
  unfold bind at 1.
  rewrite (reference_stale _ a s r); [reflexivity| | |exact Ht|exact Hr|].
  - apply entered_targetValid.
  - now rewrite findInChain_entered.
  - cbn [entered subroutines live set_activeSubroutines set_frame].
    rewrite registered_subroutines, length_app. unfold registered.
    cbn [live set_frame]. rewrite pushed_full by exact Hfull.
    cbn [length]. lia.
Qed.

(** X20.  An earlier alias stays in reach as long as the registry is not
    reallocated: when an alias is declared while the registry has room, a
    reference in its body to another name whose routine pointer is valid
    compiles, and the new routine holds [Call] with the address of the
    routine referred to, and [Return]. *)
Theorem earlier_alias_reachable (fuel : nat) (p : Program) (a b : string)
  (pos : Z) (s : Symbol.t) (r : nat) (routine : Subroutine.t) :
  ~ declares b (frame p) ->
  a <> b ->
  findInChain a (frame p) = Some s ->
  Symbol.type s <> SymTypeVariable ->
  Symbol.routine s = Some r ->
  subroutines p !! r = Some routine ->
  (length (subroutines p) <= r + live p)%nat ->
  (length (subroutines p) < capacity p)%nat ->
  handle opcode grow (S (S fuel))
    (TypeAliasDeclaration b pos None (TypeReference a)) p
  = Ok tt (declared opcode grow p b SymType pos
             (u8 (opcode OP.Call)
              :: bytesLE 4 (Subroutine.address routine))).
Proof.
  intros Hn Hab Hs Ht Hr Hl Hv Hroom. rewrite alias_unfold by done.
  unfold bind at 1.
  rewrite (reference_call _ a s r routine);
    [apply returned_entered; discriminate| | |exact Ht|exact Hr| |].
  - apply entered_targetValid.
  - now rewrite findInChain_entered.
  - cbn [entered subroutines set_activeSubroutines set_frame].
    rewrite registered_subroutines.
    now rewrite lookup_app_l by now apply lookup_lt_Some in Hl.
  - cbn [entered subroutines live set_activeSubroutines set_frame].
    rewrite registered_subroutines, length_app. unfold registered.
    cbn [live set_frame]. rewrite pushed_room by exact Hroom.
    cbn [length]. lia.
Qed.

End Further.

(** ** Further worked examples *)

(** X1, witness: the first literal of a program. *)
Lemma registerStorage_findStorage_witness :
  storageOk emptyProgram
  /\ 5 + Z.of_nat (length (poolBytes (storage emptyProgram ++ ["12"%string])))
     < 2 ^ 32
  /\ exists a p',
       registerStorage "12" emptyProgram = Ok a p'
       /\ a = 5
       /\ findStorage a p' = "12"%string.
Proof.
  assert (H1 : storageOk emptyProgram) by reflexivity.
  assert (H2 : 5 + Z.of_nat (length (poolBytes (storage emptyProgram
                                                  ++ ["12"%string])))
               < 2 ^ 32) by (vm_compute; reflexivity).
  split; [exact H1|]. split; [exact H2|].
  destruct (registerStorage_findStorage emptyProgram "12" H1 H2)
    as (a & p' & Hr & _ & Ha & _ & Hf & _).
  exists a, p'. split; [exact Hr|]. split; [exact Ha|exact Hf].
Defined.

(** X2, witness: the second entry of [type A = "ab" | 7;], and an offset
    inside the header. *)
Lemma findStorage_by_offset_witness :
  5 + Z.of_nat (length (poolBytes (storage literalProgram))) < 2 ^ 32
  /\ findStorage (entryStart (storage literalProgram) 1) literalProgram
     = "7"%string
  /\ findStorage 4 literalProgram = "!unknown"%string.
Proof.
  assert (H : 5 + Z.of_nat (length (poolBytes (storage literalProgram)))
              < 2 ^ 32) by (vm_compute; reflexivity).
  destruct (findStorage_by_offset literalProgram 4 H) as (A & _ & C).
  split; [exact H|]. split; [exact (A 1%nat "7"%string eq_refl)|].
  apply C. lia.
Defined.

(** X3, witness: the literal [12] as the first node of a program. *)
Lemma literal_interned_witness :
  targetValid emptyProgram
  /\ storageOk emptyProgram
  /\ 5 + Z.of_nat (length (poolBytes (storage emptyProgram ++ ["12"%string])))
     < 2 ^ 32
  /\ handle sampleCode doubling 1 (NumericLiteral "12") emptyProgram
     = Ok tt (emitted (stored emptyProgram "12")
                (u8 (sampleCode OP.NumberLiteral) :: bytesLE 4 5)).
Proof.
  assert (H0 : targetValid emptyProgram) by exact I.
  assert (H1 : storageOk emptyProgram) by reflexivity.
  assert (H2 : 5 + Z.of_nat (length (poolBytes (storage emptyProgram
                                                  ++ ["12"%string])))
               < 2 ^ 32) by (vm_compute; reflexivity).
  split; [exact H0|]. split; [exact H1|]. split; [exact H2|].
  exact (proj1 (literal_interned sampleCode doubling 0 emptyProgram "12" H0 H1 H2)).
Defined.

(** X4, witness: after [type A = number;], a reference to [A] and one to
    [B]. *)
Lemma reference_emits_call_witness :
  targetValid aliasDeclared
  /\ handle sampleCode doubling 1 (TypeReference "A") aliasDeclared
     = Ok tt (emitted aliasDeclared
                (u8 (sampleCode OP.Call) :: bytesLE 4 0))
  /\ handle sampleCode doubling 1 (TypeReference "B") aliasDeclared
     = Throw UnresolvedSymbol aliasDeclared.
Proof.
  assert (V : targetValid aliasDeclared) by exact I.
  destruct (reference_emits_call sampleCode doubling 0 aliasDeclared "A" V)
    as (H1 & _ & _ & _).
  destruct (reference_emits_call sampleCode doubling 0 aliasDeclared "B" V)
    as (_ & _ & _ & H3).
  split; [exact V|]. split.
  - refine (H1 _ 0%nat _ eq_refl _ eq_refl eq_refl _);
      [discriminate|simpl; lia].
  - apply H3. reflexivity.
Defined.

(** X5, witness: [function f(a) {}] at the start of a program. *)
Lemma function_with_parameter_diverges_witness :
  ~ declares "f" (frame emptyProgram)
  /\ handle sampleCode doubling 100
       (FunctionDeclaration (Some ("f"%string, 0)) [OtherKind] None None)
       emptyProgram
     = OutOfFuel.
Proof.
  assert (H : ~ declares "f" (frame emptyProgram)).
  { intros E. inversion E. }
  split; [exact H|].
  exact (function_with_parameter_diverges sampleCode doubling 100 emptyProgram "f" 0
           OtherKind [] None None H).
Defined.

(** X6, witness: [type A = "ab" | 7;]. *)
Lemma handle_keeps_scope_witness :
  handle sampleCode doubling 5 literalUnit emptyProgram = Ok tt literalProgram
  /\ Frame.previous (frame literalProgram) = None
  /\ Frame.id (frame literalProgram) = 0
  /\ activeSubroutines literalProgram = [].
Proof.
  assert (H : handle sampleCode doubling 5 literalUnit emptyProgram
              = Ok tt literalProgram) by reflexivity.
  split; [exact H|].
  destruct (handle_keeps_scope sampleCode doubling 5 literalUnit emptyProgram
              literalProgram H) as (_ & _ & _ & E).
  exact (E eq_refl).
Defined.

(** X7, witness: the main buffer of [linkedProgram], which holds a [Call]. *)
Lemma setFinalBinaryAddress_keeps_length_witness :
  readBuffer None linkedProgram = Ok (ops linkedProgram) linkedProgram
  /\ setFinalBinaryAddress sampleCode None linkedProgram
     = Ok tt linkedMainPatched
  /\ length (ops linkedMainPatched) = length (ops linkedProgram)
  /\ subroutines linkedMainPatched = subroutines linkedProgram.
Proof.
  assert (H1 : readBuffer None linkedProgram
               = Ok (ops linkedProgram) linkedProgram) by reflexivity.
  assert (H2 : setFinalBinaryAddress sampleCode None linkedProgram
               = Ok tt linkedMainPatched) by reflexivity.
  split; [exact H1|]. split; [exact H2|].
  destruct (setFinalBinaryAddress_keeps_length sampleCode None linkedProgram
              linkedMainPatched (ops linkedProgram) H1 H2)
    as (o & Hp & Hl & _).
  rewrite Hp. split; [exact Hl|reflexivity].
Defined.

(** X8, witness: the routine of [A] in [type A = "ab" | 7;]. *)
Lemma setFinalBinaryAddress_without_call_witness :
  readBuffer (Some 0%nat) literalProgram
  = Ok [16; 8; 5; 0; 0; 0; 7; 9; 0; 0; 0; 9; 18] literalProgram
  /\ Forall (fun x => x <> sampleCode OP.Call)
            [16; 8; 5; 0; 0; 0; 7; 9; 0; 0; 0; 9; 18]
  /\ setFinalBinaryAddress sampleCode (Some 0%nat) literalProgram
     = Ok tt literalProgram.
Proof.
  assert (H1 : readBuffer (Some 0%nat) literalProgram
               = Ok [16; 8; 5; 0; 0; 0; 7; 9; 0; 0; 0; 9; 18] literalProgram)
    by reflexivity.
  assert (H2 : Forall (fun x => x <> sampleCode OP.Call)
                 [16; 8; 5; 0; 0; 0; 7; 9; 0; 0; 0; 9; 18]).
  { repeat (constructor; [discriminate|]). constructor. }
  split; [exact H1|]. split; [exact H2|].
  exact (setFinalBinaryAddress_without_call sampleCode (Some 0%nat)
           literalProgram _ H1 H2).
Defined.

(** X9, witness: [linkedUnit], compiled from the empty program. *)
Lemma symbol_tables_kept_witness :
  Forall frameOk (chain (frame emptyProgram))
  /\ handle sampleCode doubling 5 linkedUnit emptyProgram = Ok tt linkedProgram
  /\ frameOk (frame linkedProgram).
Proof.
  assert (H1 : Forall frameOk (chain (frame emptyProgram))).
  { constructor; [|constructor]. split; [constructor|].
    intros i s H. destruct i; discriminate. }
  assert (H2 : handle sampleCode doubling 5 linkedUnit emptyProgram
               = Ok tt linkedProgram) by reflexivity.
  split; [exact H1|]. split; [exact H2|].
  exact (proj2 (symbol_tables_kept sampleCode doubling 5 linkedUnit emptyProgram
                  linkedProgram H1 H2)).
Defined.

(** X10, witness: [linkedUnit], with a capacity that doubles. *)
Lemma registry_indices_witness :
  (forall c, (c < doubling c)%nat)
  /\ compileSourceFile sampleCode doubling 5 linkedUnit = Ok tt linkedProgram
  /\ (live linkedProgram <= length (subroutines linkedProgram)
      <= capacity linkedProgram)%nat.
Proof.
  assert (H0 : forall c, (c < doubling c)%nat).
  { intros [|c]; simpl; lia. }
  assert (H : compileSourceFile sampleCode doubling 5 linkedUnit
              = Ok tt linkedProgram) by reflexivity.
  split; [exact H0|]. split; [exact H|].
  exact (proj2 (registry_indices sampleCode doubling 5 linkedUnit
                  linkedProgram H0 H)).
Defined.

(** X11, witness: [linkedUnit], compiled from the empty program. *)
Lemma handle_append_only_witness :
  handle sampleCode doubling 5 linkedUnit emptyProgram = Ok tt linkedProgram
  /\ extends emptyProgram linkedProgram.
Proof.
  assert (H : handle sampleCode doubling 5 linkedUnit emptyProgram = Ok tt linkedProgram)
    by reflexivity.
  split; [exact H|].
  exact (proj1 (handle_append_only sampleCode doubling 5 linkedUnit emptyProgram
                  linkedProgram H)).
Defined.

(** X12, witness: [type A = A;]. *)
Lemma alias_self_reference_witness :
  ~ declares "A" (frame emptyProgram)
  /\ handle sampleCode doubling 2 (TypeAliasDeclaration "A" 0 None (TypeReference "A"))
       emptyProgram
     = Ok tt (declared sampleCode doubling emptyProgram "A" SymType 0
                (u8 (sampleCode OP.Call) :: bytesLE 4 0)).
Proof.
  assert (H : ~ declares "A" (frame emptyProgram)).
  { intros E. inversion E. }
  split; [exact H|].
  exact (alias_self_reference sampleCode doubling 0 emptyProgram "A" 0 H).
Defined.

(** X13, witness: an alias for a type of a kind [handle] has no case for. *)
Lemma alias_without_code_witness :
  ~ declares "A" (frame emptyProgram)
  /\ handle sampleCode doubling 1 OtherKind
       (entered (registered doubling emptyProgram "A" SymType 0) 0)
     = Ok tt (entered (registered doubling emptyProgram "A" SymType 0) 0)
  /\ handle sampleCode doubling 2 (TypeAliasDeclaration "A" 0 None OtherKind)
       emptyProgram
     = Throw EmptyRoutine
         (set_activeSubroutines (registered doubling emptyProgram "A" SymType 0)
            [0%nat]).
Proof.
  assert (H1 : ~ declares "A" (frame emptyProgram)).
  { intros E. inversion E. }
  assert (H2 : handle sampleCode doubling 1 OtherKind
                 (entered (registered doubling emptyProgram "A" SymType 0) 0)
               = Ok tt (entered (registered doubling emptyProgram "A" SymType 0) 0))
    by reflexivity.
  split; [exact H1|]. split; [exact H2|].
  exact (alias_without_code sampleCode doubling 1 emptyProgram "A" 0 OtherKind H1 H2).
Defined.

(** X14, witness: [var x = 1;]. *)
Lemma variable_declaration_witness :
  ~ declares "x" (frame emptyProgram)
  /\ targetValid variableInitialized
  /\ handle sampleCode doubling 1 (NumericLiteral "1")
       (declared sampleCode doubling emptyProgram "x" SymVariable 0
          [u8 (sampleCode OP.Unknown)])
     = Ok tt variableInitialized
  /\ handle sampleCode doubling 2
       (VariableDeclaration (Some ("x"%string, 0)) None
          (Some (NumericLiteral "1"))) emptyProgram
     = Ok tt (emitted variableInitialized
                (u8 (sampleCode OP.Call) :: bytesLE 4 0
                 ++ [u8 (sampleCode OP.Assign)])).
Proof.
  assert (H1 : ~ declares "x" (frame emptyProgram)).
  { intros E. inversion E. }
  assert (H2 : targetValid variableInitialized) by exact I.
  assert (H3 : handle sampleCode doubling 1 (NumericLiteral "1")
                 (declared sampleCode doubling emptyProgram "x" SymVariable 0
                    [u8 (sampleCode OP.Unknown)])
               = Ok tt variableInitialized) by reflexivity.
  split; [exact H1|]. split; [exact H2|]. split; [exact H3|].
  exact (proj2 (variable_declaration sampleCode doubling 1 emptyProgram "x" 0 H1)
           (NumericLiteral "1") variableInitialized H2 H3).
Defined.

(** X15, witness: [function f() {}]. *)
Lemma function_declaration_witness :
  ~ declares "f" (frame emptyProgram)
  /\ handle sampleCode doubling 1
       (FunctionDeclaration (Some ("f"%string, 9)) [] None None) emptyProgram
     = Ok tt (declared sampleCode doubling emptyProgram "f" SymFunction 9
                [u8 (sampleCode OP.Unknown); u8 (sampleCode OP.Function)]).
Proof.
  assert (H : ~ declares "f" (frame emptyProgram)).
  { intros E. inversion E. }
  split; [exact H|].
  exact (proj1 (function_declaration sampleCode doubling 0 emptyProgram "f" 9 None H)).
Defined.

(** X16, witness: [linkedUnit], with more fuel than its depth. *)
Lemma handle_terminates_witness :
  parameterless linkedUnit = true
  /\ (depth linkedUnit < 9)%nat
  /\ handle sampleCode doubling 9 linkedUnit emptyProgram <> OutOfFuel.
Proof.
  assert (H1 : parameterless linkedUnit = true) by reflexivity.
  assert (H2 : (depth linkedUnit < 9)%nat) by (vm_compute; lia).
  split; [exact H1|]. split; [exact H2|].
  exact (proj1 (handle_terminates sampleCode doubling 9 linkedUnit emptyProgram H1 H2)).
Defined.

(** X17, witness: the second literal of [type A = "ab" | 7;]. *)
Lemma pool_in_binary_witness :
  codesOk sampleCode
  /\ compileSourceFile sampleCode doubling 5 literalUnit = Ok tt literalProgram
  /\ storage literalProgram !! 1%nat = Some "7"%string
  /\ Z.of_nat (mainOffset literalProgram) < 2 ^ 32
  /\ Z.of_nat (length (subroutines literalProgram)) <= 2 ^ 32
  /\ exists bin p',
       build sampleCode literalProgram = Ok bin p'
       /\ take 3 (drop 9 bin) = [1; 0; 55].
Proof.
  assert (H1 : compileSourceFile sampleCode doubling 5 literalUnit
               = Ok tt literalProgram) by reflexivity.
  assert (H2 : storage literalProgram !! 1%nat = Some "7"%string)
    by reflexivity.
  assert (H3 : Z.of_nat (mainOffset literalProgram) < 2 ^ 32)
    by (vm_compute; reflexivity).
  assert (H4 : Z.of_nat (length (subroutines literalProgram)) <= 2 ^ 32)
    by (vm_compute; discriminate).
  split; [exact sampleCode_ok|]. split; [exact H1|]. split; [exact H2|].
  split; [exact H3|]. split; [exact H4|].
  destruct (pool_in_binary sampleCode doubling 5 literalUnit literalProgram 1 "7"
              sampleCode_ok H1 H2 H3 H4) as (bin & p' & Hb & _ & Ht).
  exists bin, p'. split; [exact Hb|exact Ht].
Defined.

(** X18, witness: [function A(a) {}] after [type A = number;]. *)
Lemma redeclaration_skips_body_witness :
  exists v,
    list_find (named "A") (Frame.symbols (frame aliasDeclared)) = Some (0%nat, v)
    /\ Symbol.routine v = Some 0%nat
    /\ 1 <= Symbol.declarations v < 2 ^ 32 - 1
    /\ handle sampleCode doubling 1
         (FunctionDeclaration (Some ("A"%string, 7)) [OtherKind] None None)
         aliasDeclared
       = Ok tt (set_frame aliasDeclared
                  (Frame.set_symbols (frame aliasDeclared)
                     (<[0%nat := redeclared v]>
                        (Frame.symbols (frame aliasDeclared))))).
Proof.
  eexists. split; [reflexivity|]. split; [reflexivity|].
  assert (H : 1 <= 1 < 2 ^ 32 - 1) by (split; [discriminate|reflexivity]).
  split; [exact H|].
  exact (proj1 (redeclaration_skips_body sampleCode doubling 0 aliasDeclared "A" 7
                  0%nat _ 0%nat eq_refl eq_refl H)
           [OtherKind] None None).
Defined.

(** X19, witness: [type B = A;] after [type A = number;], with a capacity
    that doubles: the registry holds one routine and is full. *)
Lemma earlier_alias_dangles_witness :
  ~ declares "B" (frame aliasDeclared)
  /\ (capacity aliasDeclared <= length (subroutines aliasDeclared))%nat
  /\ (exists s, findInChain "A" (frame aliasDeclared) = Some s
                /\ Symbol.routine s = Some 0%nat)
  /\ handle sampleCode doubling 2
       (TypeAliasDeclaration "B" 17 None (TypeReference "A")) aliasDeclared
     = Undefined.
Proof.
  assert (H1 : ~ declares "B" (frame aliasDeclared)).
  { intros E. inversion E as [? ? E1|? ? E1]; [discriminate E1|inversion E1]. }
  assert (H2 : (capacity aliasDeclared <= length (subroutines aliasDeclared))%nat)
    by (simpl; lia).
  split; [exact H1|]. split; [exact H2|]. split.
  - eexists. split; reflexivity.
  - refine (earlier_alias_dangles sampleCode doubling 0 aliasDeclared "A" "B"
              17 _ 0%nat H1 _ eq_refl _ eq_refl _ H2);
      [discriminate|discriminate|simpl; lia].
Defined.


(** X20, witness: [type B = A;] as the fourth alias of a unit, with a
    capacity that doubles. *)
Lemma earlier_alias_reachable_witness :
  ~ declares "B" (frame threeAliases)
  /\ (length (subroutines threeAliases) < capacity threeAliases)%nat
  /\ (exists s routine,
        findInChain "A" (frame threeAliases) = Some s
        /\ Symbol.routine s = Some 2%nat
        /\ subroutines threeAliases !! 2%nat = Some routine
        /\ (length (subroutines threeAliases) <= 2 + live threeAliases)%nat
        /\ handle sampleCode doubling 2
             (TypeAliasDeclaration "B" 52 None (TypeReference "A"))
             threeAliases
           = Ok tt (declared sampleCode doubling threeAliases "B" SymType 52
                      (u8 (sampleCode OP.Call)
                       :: bytesLE 4 (Subroutine.address routine)))).
Proof.
  assert (H1 : ~ declares "B" (frame threeAliases)).
  { intros E. unfold declares in E. simpl in E.
    repeat (inversion E as [? ? E1|? ? E1]; [discriminate E1|];
            clear E; rename E1 into E).
    inversion E. }
  assert (H2 : (length (subroutines threeAliases) < capacity threeAliases)%nat)
    by (simpl; lia).
  assert (H3 : (length (subroutines threeAliases)
                <= 2 + live threeAliases)%nat) by (simpl; lia).
  split; [exact H1|]. split; [exact H2|].
  eexists _, _. split; [reflexivity|]. split; [reflexivity|].
  split; [reflexivity|]. split; [exact H3|].
  refine (earlier_alias_reachable sampleCode doubling 0 threeAliases "A" "B"
            52 _ 2%nat _ H1 _ eq_refl _ eq_refl eq_refl H3 H2);
    discriminate.
Defined.
